(** * ghostly-memory: episode extraction and confidence-scored retrieval

    A shallow embedding of the TypeScript sources

      - [src/types.ts]                 (records, [ERROR_PATTERNS])
      - [src/storage/embeddings.ts]    (similarity and confidence)
      - [src/storage/db.ts]            (the episode / raw event store)
      - [src/extraction/index.ts]      (classification and extraction)
      - [src/retrieval/index.ts]       (retrieval and suggestion)

    Modelling conventions.

      - A JavaScript string is the list of its code units; the model keeps
        the code units below 256 (Latin-1).
      - A JavaScript [number] is modelled twice.  The functions are
        first given over exact rationals ([Q], compared with [==]);
        this reading carries the statements that rounding does not
        touch (monotonicity and bounds, ratios of counts, vectors of
        zeros, what the byte column keeps).  Module [Binary64] gives
        the numeric functions again over binary64 ([float]), with
        rounding, NaN, the infinities and the two zeros; the statements
        about computed values, the threshold and the ranking are made
        there.  Timestamps, exit codes, row ids and counters are
        integers ([Z]).
      - The sql.js database is a record of two tables (lists of rows in
        rowid order) and their AUTOINCREMENT counters; every exported
        function of [db.ts] takes the store and returns the new one.
      - What the program obtains from its platform (MD5, the embedding
        service, [Math.sqrt], [os], date formatting) is a method of the
        class [Platform]; [Date.now()] is an explicit argument. *)

From Stdlib Require Import String Ascii List NArith ZArith QArith Qminmax.
From Stdlib Require Import Bool Arith Lia Lqa Permutation Sorted.
From Stdlib Require Import Floats.
Import ListNotations.
Local Close Scope Q_scope.
Local Open Scope nat_scope.
Local Open Scope list_scope.

(** ** JavaScript strings *)

Definition jsstring := list ascii.

Definition str (s : string) : jsstring := list_ascii_of_string s.

Definition code (c : ascii) : N := N_of_ascii c.

Definition inRange (lo hi : N) (c : ascii) : bool :=
  ((lo <=? code c) && (code c <=? hi))%N.

(** [\s]: tab, LF, VT, FF, CR, space and U+00A0. *)
Definition isWhiteSpace (c : ascii) : bool :=
  inRange 9 13 c || (code c =? 32)%N || (code c =? 160)%N.

(** Line terminators, which [.] does not match. *)
Definition isLineTerminator (c : ascii) : bool :=
  (code c =? 10)%N || (code c =? 13)%N.

Definition isDot (c : ascii) : bool := negb (isLineTerminator c).

(** [\w] is [[A-Za-z0-9_]]. *)
Definition isWordChar (c : ascii) : bool :=
  inRange 65 90 c || inRange 97 122 c || inRange 48 57 c || (code c =? 95)%N.

Definition isUpper (c : ascii) : bool :=
  inRange 65 90 c || inRange 192 214 c || inRange 216 222 c.

Definition isLower (c : ascii) : bool :=
  inRange 97 122 c || inRange 224 246 c || inRange 248 254 c.

Definition toLowerChar (c : ascii) : ascii :=
  if isUpper c then ascii_of_N (code c + 32) else c.

Definition toLowerCase (s : jsstring) : jsstring := map toLowerChar s.

(** The canonical form that the [i] flag compares (upper case). *)
Definition canonicalize (c : ascii) : ascii :=
  if isLower c then ascii_of_N (code c - 32) else c.

Fixpoint streqb (a b : jsstring) : bool :=
  match a, b with
  | [], [] => true
  | x :: a', y :: b' => Ascii.eqb x y && streqb a' b'
  | _, _ => false
  end.

Fixpoint startsWith (p s : jsstring) : bool :=
  match p, s with
  | [], _ => true
  | x :: p', y :: s' => Ascii.eqb x y && startsWith p' s'
  | _ :: _, [] => false
  end.

(** [s.includes(p)] *)
Fixpoint includes (s p : jsstring) : bool :=
  startsWith p s ||
  match s with
  | [] => false
  | _ :: s' => includes s' p
  end.

(** [s.substring(a, b)] for [a <= b]. *)
Definition substring (a b : nat) (s : jsstring) : jsstring :=
  firstn (b - a) (skipn a s).

Fixpoint trimStart (s : jsstring) : jsstring :=
  match s with
  | [] => []
  | c :: s' => if isWhiteSpace c then trimStart s' else s
  end.

Definition trim (s : jsstring) : jsstring :=
  rev (trimStart (rev (trimStart s))).

(** A string is truthy when it is not empty. *)
Definition truthy (s : jsstring) : bool :=
  match s with [] => false | _ :: _ => true end.

Fixpoint join (sep : jsstring) (l : list jsstring) : jsstring :=
  match l with
  | [] => []
  | x :: r =>
    match r with
    | [] => x
    | _ :: _ => x ++ sep ++ join sep r
    end
  end.

(** [s.split(sep)] for a non-empty string separator: [cur] is the piece
    being read (reversed), [skip] the code units of a separator still to
    be passed. *)
Fixpoint splitOn (sep cur : jsstring) (skip : nat) (s : jsstring)
  : list jsstring :=
  match s with
  | [] => [rev cur]
  | c :: s' =>
    match skip with
    | S k => splitOn sep cur k s'
    | O =>
      if startsWith sep s
      then rev cur :: splitOn sep [] (length sep - 1) s'
      else splitOn sep (c :: cur) 0 s'
    end
  end.

Definition split (s sep : jsstring) : list jsstring := splitOn sep [] 0 s.

(** [s.split(/\s+/)]: the pieces between the maximal runs of white space.
    [inws] says that the previous code unit was white space.  The empty
    string gives one empty piece, since [\s+] does not match the empty
    string. *)
Fixpoint splitWs (cur : jsstring) (inws : bool) (s : jsstring)
  : list jsstring :=
  match s with
  | [] => [rev cur]
  | c :: s' =>
    if isWhiteSpace c
    then if inws then splitWs [] true s' else rev cur :: splitWs [] true s'
    else splitWs (c :: cur) false s'
  end.

Definition split_ws (s : jsstring) : list jsstring := splitWs [] false s.

(** ** JavaScript [Set] of strings

    A [Set] keeps its elements in insertion order, without duplicates. *)

Definition has (s : list jsstring) (x : jsstring) : bool :=
  existsb (streqb x) s.

Fixpoint setAdd (acc l : list jsstring) : list jsstring :=
  match l with
  | [] => acc
  | x :: r => setAdd (if has acc x then acc else acc ++ [x]) r
  end.

Definition newSet (l : list jsstring) : list jsstring := setAdd [] l.

Definition size (s : list jsstring) : Q := inject_Z (Z.of_nat (length s)).

(** ** Regular expressions

    The fragment the program uses: character classes, sequence,
    alternation, a quantified character class (greedy or lazy, with a
    minimal count), capture groups and the end-of-input assertion.  The
    matcher is the backtracking one of the language definition, in
    continuation-passing style; a capture is a pair of offsets into the
    input. *)

Inductive regex : Type :=
| Char (p : ascii -> bool)
| Seq (r1 r2 : regex)
| Alt (r1 r2 : regex)
| Repeat (greedy : bool) (min : nat) (p : ascii -> bool)
| Group (n : nat) (r : regex)
| EndInput.

Definition captures := list (nat * (nat * nat)).

Definition cont := jsstring -> captures -> option captures.

Fixpoint capture (n : nat) (caps : captures) : option (nat * nat) :=
  match caps with
  | [] => None
  | (m, r) :: caps' => if Nat.eqb n m then Some r else capture n caps'
  end.

Fixpoint repGreedy (p : ascii -> bool) (min : nat) (rest : jsstring)
  (caps : captures) (k : cont) : option captures :=
  let stop := match min with O => k rest caps | S _ => None end in
  match rest with
  | [] => stop
  | c :: rest' =>
    if p c then
      match repGreedy p (pred min) rest' caps k with
      | Some r => Some r
      | None => stop
      end
    else stop
  end.

Fixpoint repLazy (p : ascii -> bool) (min : nat) (rest : jsstring)
  (caps : captures) (k : cont) : option captures :=
  let more :=
    match rest with
    | [] => None
    | c :: rest' => if p c then repLazy p (pred min) rest' caps k else None
    end in
  match min with
  | O => match k rest caps with Some r => Some r | None => more end
  | S _ => more
  end.

(** [total] is the length of the whole input: the offset of a suffix
    [rest] is [total - length rest]. *)
Fixpoint matcher (total : nat) (r : regex) (rest : jsstring)
  (caps : captures) (k : cont) : option captures :=
  match r with
  | Char p =>
    match rest with
    | [] => None
    | c :: rest' => if p c then k rest' caps else None
    end
  | Seq r1 r2 =>
    matcher total r1 rest caps
      (fun rest' caps' => matcher total r2 rest' caps' k)
  | Alt r1 r2 =>
    match matcher total r1 rest caps k with
    | Some c => Some c
    | None => matcher total r2 rest caps k
    end
  | Repeat true min p => repGreedy p min rest caps k
  | Repeat false min p => repLazy p min rest caps k
  | Group n r' =>
    matcher total r' rest caps
      (fun rest' caps' =>
         k rest' ((n, (total - length rest, total - length rest')) :: caps'))
  | EndInput =>
    match rest with
    | [] => k rest caps
    | _ :: _ => None
    end
  end.

Definition matchAt (total : nat) (r : regex) (rest : jsstring)
  : option captures :=
  matcher total r rest []
    (fun rest' caps' =>
       Some ((0, (total - length rest, total - length rest')) :: caps')).

(** The leftmost match: every start offset in turn, the end of input
    included. *)
Fixpoint execFrom (total : nat) (r : regex) (rest : jsstring)
  : option captures :=
  match matchAt total r rest with
  | Some c => Some c
  | None =>
    match rest with
    | [] => None
    | _ :: rest' => execFrom total r rest'
    end
  end.

(** [s.match(r)] for a regular expression without the [g] flag. *)
Definition regexMatch (s : jsstring) (r : regex) : option captures :=
  execFrom (length s) r s.

(** [m[n]] of a match [m] on [s].  A group that took no part in the
    match is [undefined] in JavaScript and the empty string here; the
    program reads group 1 only, which takes part in every match of its
    patterns ([errorMatch_group1]). *)
Definition group (s : jsstring) (caps : captures) (n : nat) : jsstring :=
  match capture n caps with
  | Some (a, b) => substring a b s
  | None => []
  end.

(** One code unit compared under the [i] flag. *)
Definition charI (x : ascii) : regex :=
  Char (fun c => Ascii.eqb (canonicalize c) (canonicalize x)).

(** A literal word under the [i] flag; [w] is not empty. *)
Fixpoint literalI (w : jsstring) : regex :=
  match w with
  | [] => Repeat true 0 (fun _ => false)
  | x :: w' =>
    match w' with
    | [] => charI x
    | _ :: _ => Seq (charI x) (literalI w')
    end
  end.

Definition LF : ascii := ascii_of_N 10.

(** ** Numbers *)

(** [ToUint8], the conversion a [Uint8Array] applies to each element it
    is built from: truncate toward zero, then reduce modulo 256. *)
Definition ToUint8 (x : Q) : Z := (Z.quot (Qnum x) (Zpos (Qden x))) mod 256.

(** ** src/types.ts *)

Module TerminalEvent.
Record t : Type := mk {
  timestamp : Z;
  cwd : jsstring;
  git_branch : option jsstring;
  command : jsstring;
  exit_code : Z;
  stderr : jsstring;
  stdout_truncated : jsstring;
  session_id : jsstring;
  project_hash : jsstring
}.
End TerminalEvent.

Module Episode.
Record t : Type := mk {
  id : option Z;
  project_hash : jsstring;
  directory : jsstring;
  git_branch : option jsstring;
  problem_summary : jsstring;
  environment : jsstring;
  fix_sequence : jsstring;
  keywords : jsstring;
  embedding : option (list Q);
  first_seen : Z;
  last_seen : Z;
  occurrence_count : Z
}.
End Episode.

Module RawEvent.
Record t : Type := mk {
  id : option Z;
  episode_id : option Z;
  timestamp : Z;
  cwd : jsstring;
  git_branch : option jsstring;
  command : jsstring;
  exit_code : Z;
  stderr : jsstring;
  stdout_truncated : jsstring;
  session_id : jsstring
}.
End RawEvent.

Module RetrievalResult.
Record t : Type := mk {
  episode : Episode.t;
  similarity : Q;
  confidence : Q
}.
End RetrievalResult.

Module RetrievalContext.
Record t : Type := mk {
  cwd : jsstring;
  command : jsstring;
  exit_code : Z;
  stderr : jsstring;
  git_branch : option jsstring;
  project_hash : jsstring
}.
End RetrievalContext.

Definition ERROR_PATTERNS : list jsstring :=
  map str
    [ "error"; "fail"; "failed"; "failure"; "exception"; "fatal"; "E ";
      "ENOENT"; "ECONNREFUSED"; "EACCES"; "ENOEXEC"; "ERR_"; "panic";
      " Segmentation fault"; "core dumped" ]%string.

(** ** The platform *)

Class Platform : Type := {
  (** [CryptoJS.MD5(s).toString()] *)
  MD5 : jsstring -> jsstring;
  (** [generateEmbedding]: the call to the embedding service; [None] is
      the [null] it returns without a key or on a failed call. *)
  generateEmbedding : jsstring -> option (list Q);
  Math_sqrt : Q -> Q;
  (** [Math.sqrt] depends on the number, not on the fraction that stands
      for it. *)
  Math_sqrt_eq : forall x y : Q, (x == y)%Q -> (Math_sqrt x == Math_sqrt y)%Q;
  os_platform : jsstring;
  os_arch : jsstring;
  process_version : jsstring;
  (** [formatRetrievalResult]: the text block shown to the user (locale
      date, percentage, a banner outside Latin-1). *)
  formatRetrievalResult : RetrievalResult.t -> jsstring
}.

(** ** src/storage/embeddings.ts *)

Section Embeddings.
Context {P : Platform}.

Definition generateEmbeddingText (episode : Episode.t) : jsstring :=
  join [LF]
    [ str "Problem: " ++ Episode.problem_summary episode;
      str "Directory: " ++ Episode.directory episode;
      str "Environment: " ++ Episode.environment episode;
      str "Fix: " ++ Episode.fix_sequence episode;
      str "Keywords: " ++ Episode.keywords episode ].

Definition generateEpisodeEmbedding (episode : Episode.t)
  : option (list Q) :=
  generateEmbedding (generateEmbeddingText episode).

(** The loop of [cosineSimilarity]: [(dotProduct, normA, normB)] after
    the components in [ab]. *)
Definition cosineLoop (ab : list (Q * Q)) : Q * Q * Q :=
  fold_left
    (fun acc xy =>
       let '(dotProduct, normA, normB) := acc in
       (dotProduct + fst xy * snd xy,
        normA + fst xy * fst xy,
        normB + snd xy * snd xy)%Q)
    ab (0, 0, 0)%Q.

Definition cosineSimilarity (a b : list Q) : Q :=
  if negb (length a =? length b) then 0%Q
  else
    let '(dotProduct, normA, normB) := cosineLoop (combine a b) in
    if Qeq_bool normA 0 || Qeq_bool normB 0 then 0%Q
    else (dotProduct / (Math_sqrt normA * Math_sqrt normB))%Q.

End Embeddings.

Definition textSimilarity (text1 text2 : jsstring) : Q :=
  let words1 := newSet (split_ws (toLowerCase text1)) in
  let words2 := newSet (split_ws (toLowerCase text2)) in
  let intersection := newSet (filter (has words2) words1) in
  let union := newSet (words1 ++ words2) in
  (size intersection / size union)%Q.

Definition commonWords : list jsstring :=
  newSet (map str
    [ "the"; "a"; "an"; "and"; "or"; "but"; "in"; "on"; "at"; "to"; "for";
      "of"; "with"; "by"; "from"; "is"; "was"; "are"; "were"; "been"; "be";
      "have"; "has"; "had"; "do"; "does"; "did"; "will"; "would"; "could";
      "should"; "may"; "might"; "must"; "can"; "this"; "that"; "these";
      "those"; "i"; "you"; "he"; "she"; "it"; "we"; "they"; "what"; "which";
      "who"; "when"; "where"; "why"; "how"; "all"; "each"; "every"; "both";
      "few"; "more"; "most"; "other"; "some"; "such"; "no"; "nor"; "not";
      "only"; "own"; "same"; "so"; "than"; "too"; "very"; "just"; "error";
      "failed"; "fail"; "failed"; "file"; "module"; "import"; "export"
    ]%string).

(** [/[^a-z0-9\s]/]: the code units [extractKeywords] blanks out. *)
Definition notKeywordChar (c : ascii) : bool :=
  negb (inRange 97 122 c || inRange 48 57 c || isWhiteSpace c).

Definition extractKeywords (text : jsstring) : list jsstring :=
  let words :=
    filter (fun word => (2 <? length word) && negb (has commonWords word))
      (split_ws
         (map (fun c => if notKeywordChar c then ascii_of_N 32 else c)
            (toLowerCase text))) in
  firstn 10 (newSet words).

Definition calculateConfidence (semanticSimilarity : Q) (projectMatch : bool)
  (commandSimilarity : Q) : Q :=
  let score :=
    (0.5 * semanticSimilarity
     + 0.3 * (if projectMatch then 1 else 0)
     + 0.2 * commandSimilarity)%Q in
  Qmin score 1.

(** ** Sorting

    [Array.prototype.sort] is stable, and [ORDER BY] is modelled as a
    stable sort of the rows in rowid order.  [before y x] says that [y]
    has to come strictly before [x]. *)

Fixpoint insertSorted {A : Type} (before : A -> A -> bool) (x : A)
  (l : list A) : list A :=
  match l with
  | [] => [x]
  | y :: r => if before y x then y :: insertSorted before x r else x :: l
  end.

Definition stableSort {A : Type} (before : A -> A -> bool) (l : list A)
  : list A :=
  fold_right (insertSorted before) [] l.

(** ** src/storage/db.ts *)

(** A row of the table [episodes]; the column [embedding] is a BLOB. *)
Module EpisodeRow.
Record t : Type := mk {
  id : Z;
  project_hash : jsstring;
  directory : jsstring;
  git_branch : option jsstring;
  problem_summary : jsstring;
  environment : jsstring;
  fix_sequence : jsstring;
  keywords : jsstring;
  embedding : option (list Z);
  first_seen : Z;
  last_seen : Z;
  occurrence_count : Z
}.
End EpisodeRow.

(** The fields [updateEpisode] looks at in its [Partial<Episode>];
    [None] is [undefined]. *)
Module EpisodeUpdates.
Record t : Type := mk {
  last_seen : option Z;
  occurrence_count : option Z;
  embedding : option (option (list Q))
}.
End EpisodeUpdates.

(** The database: the two tables and the largest rowid each has used. *)
Record Database : Type := mkDatabase {
  episodes : list EpisodeRow.t;
  episodes_seq : Z;
  raw_events : list RawEvent.t;
  raw_events_seq : Z
}.

Definition emptyDatabase : Database := mkDatabase [] 0 [] 0.

(** [new Uint8Array(embedding)] when there is an embedding, else [null]. *)
Definition embeddingToBlob (embedding : option (list Q)) : option (list Z) :=
  option_map (map ToUint8) embedding.

Definition insertEpisode (episode : Episode.t) (db : Database)
  : Z * Database :=
  let id := (episodes_seq db + 1)%Z in
  let row :=
    EpisodeRow.mk id
      (Episode.project_hash episode)
      (Episode.directory episode)
      (Episode.git_branch episode)
      (Episode.problem_summary episode)
      (Episode.environment episode)
      (Episode.fix_sequence episode)
      (Episode.keywords episode)
      (embeddingToBlob (Episode.embedding episode))
      (Episode.first_seen episode)
      (Episode.last_seen episode)
      (Episode.occurrence_count episode) in
  (id, mkDatabase (episodes db ++ [row]) id (raw_events db) (raw_events_seq db)).

Definition applyUpdates (updates : EpisodeUpdates.t) (row : EpisodeRow.t)
  : EpisodeRow.t :=
  EpisodeRow.mk
    (EpisodeRow.id row)
    (EpisodeRow.project_hash row)
    (EpisodeRow.directory row)
    (EpisodeRow.git_branch row)
    (EpisodeRow.problem_summary row)
    (EpisodeRow.environment row)
    (EpisodeRow.fix_sequence row)
    (EpisodeRow.keywords row)
    match EpisodeUpdates.embedding updates with
    | Some e => embeddingToBlob e
    | None => EpisodeRow.embedding row
    end
    (EpisodeRow.first_seen row)
    match EpisodeUpdates.last_seen updates with
    | Some v => v
    | None => EpisodeRow.last_seen row
    end
    match EpisodeUpdates.occurrence_count updates with
    | Some v => v
    | None => EpisodeRow.occurrence_count row
    end.

(** [UPDATE episodes SET ... WHERE id = ?] *)
Definition updateEpisode (id : Z) (updates : EpisodeUpdates.t) (db : Database)
  : Database :=
  mkDatabase
    (map (fun row =>
            if (EpisodeRow.id row =? id)%Z then applyUpdates updates row
            else row)
       (episodes db))
    (episodes_seq db) (raw_events db) (raw_events_seq db).

Definition rowToEpisode (row : EpisodeRow.t) : Episode.t :=
  Episode.mk
    (Some (EpisodeRow.id row))
    (EpisodeRow.project_hash row)
    (EpisodeRow.directory row)
    (EpisodeRow.git_branch row)
    (EpisodeRow.problem_summary row)
    (EpisodeRow.environment row)
    (EpisodeRow.fix_sequence row)
    (EpisodeRow.keywords row)
    (option_map (map inject_Z) (EpisodeRow.embedding row))
    (EpisodeRow.first_seen row)
    (EpisodeRow.last_seen row)
    (EpisodeRow.occurrence_count row).

(** [WHERE project_hash = ? AND problem_summary = ?] *)
Definition sameProblem (projectHash problemSummary : jsstring)
  (row : EpisodeRow.t) : bool :=
  streqb (EpisodeRow.project_hash row) projectHash
  && streqb (EpisodeRow.problem_summary row) problemSummary.

Definition findSimilarEpisode (projectHash problemSummary : jsstring)
  (db : Database) : option Episode.t :=
  match filter (sameProblem projectHash problemSummary) (episodes db) with
  | [] => None
  | row :: _ => Some (rowToEpisode row)
  end.

Definition getEpisodesByProject (projectHash : jsstring) (db : Database)
  : list Episode.t :=
  map rowToEpisode
    (stableSort
       (fun y x => (EpisodeRow.last_seen x <? EpisodeRow.last_seen y)%Z)
       (filter (fun row => streqb (EpisodeRow.project_hash row) projectHash)
          (episodes db))).

(** The [id] of the argument is not read ([Omit<RawEvent, 'id'>]). *)
Definition insertRawEvent (event : RawEvent.t) (db : Database)
  : Z * Database :=
  let id := (raw_events_seq db + 1)%Z in
  let row :=
    RawEvent.mk (Some id)
      (RawEvent.episode_id event)
      (RawEvent.timestamp event)
      (RawEvent.cwd event)
      (RawEvent.git_branch event)
      (RawEvent.command event)
      (RawEvent.exit_code event)
      (RawEvent.stderr event)
      (RawEvent.stdout_truncated event)
      (RawEvent.session_id event) in
  (id, mkDatabase (episodes db) (episodes_seq db) (raw_events db ++ [row]) id).

Definition getRecentEventsForDirectory (cwd : jsstring) (since : Z)
  (db : Database) : list RawEvent.t :=
  stableSort (fun y x => (RawEvent.timestamp x <? RawEvent.timestamp y)%Z)
    (filter
       (fun row =>
          streqb (RawEvent.cwd row) cwd && (since <? RawEvent.timestamp row)%Z)
       (raw_events db)).

Definition clearProject (projectHash : jsstring) (db : Database) : Database :=
  mkDatabase
    (filter
       (fun row => negb (streqb (EpisodeRow.project_hash row) projectHash))
       (episodes db))
    (episodes_seq db) (raw_events db) (raw_events_seq db).

(** ** src/extraction/index.ts *)

(** [/(Error|Exception):\s*(.+?)(?:\n|$)/i] *)
Definition errorColonPattern : regex :=
  Seq (Group 1 (Alt (literalI (str "Error")) (literalI (str "Exception"))))
    (Seq (charI ":"%char)
       (Seq (Repeat true 0 isWhiteSpace)
          (Seq (Group 2 (Repeat false 1 isDot))
             (Alt (charI LF) EndInput)))).

(** [/(ERR_\w+)/i] *)
Definition errCodePattern : regex :=
  Group 1 (Seq (literalI (str "ERR_")) (Repeat true 1 isWordChar)).

(** [/(\w+\s+error)/i] *)
Definition wordErrorPattern : regex :=
  Group 1
    (Seq (Repeat true 1 isWordChar)
       (Seq (Repeat true 1 isWhiteSpace) (literalI (str "error")))).

Definition orElse {A : Type} (a b : option A) : option A :=
  match a with
  | Some _ => a
  | None => b
  end.

(** The [errorMatch] of [extractErrorSignature]. *)
Definition errorMatch (stderr : jsstring) : option captures :=
  orElse (regexMatch stderr errorColonPattern)
    (orElse (regexMatch stderr errCodePattern)
       (regexMatch stderr wordErrorPattern)).

(** The [firstLine] of [extractErrorSignature]. *)
Definition firstLine (stderr : jsstring) : jsstring :=
  hd [] (filter (fun l => truthy (trim l)) (split stderr [LF])).

Definition extractErrorSignature (stderr command : jsstring) : jsstring :=
  match errorMatch stderr with
  | Some m => substring 0 100 (group stderr m 1)
  | None => substring 0 100 (firstLine stderr)
  end.

Definition isError (stderr : jsstring) (exitCode : Z) : bool :=
  if negb (exitCode =? 0)%Z then true
  else
    let lowerStderr := toLowerCase stderr in
    existsb (fun pattern => includes lowerStderr (toLowerCase pattern))
      ERROR_PATTERNS.

(** The raw event record [extractEpisode] and [processEvent] build from
    the fields of an event. *)
Definition rawOfTerminalEvent (episode_id : option Z)
  (event : TerminalEvent.t) : RawEvent.t :=
  RawEvent.mk None episode_id
    (TerminalEvent.timestamp event)
    (TerminalEvent.cwd event)
    (TerminalEvent.git_branch event)
    (TerminalEvent.command event)
    (TerminalEvent.exit_code event)
    (TerminalEvent.stderr event)
    (TerminalEvent.stdout_truncated event)
    (TerminalEvent.session_id event).

Definition rawOfRawEvent (episode_id : option Z) (event : RawEvent.t)
  : RawEvent.t :=
  RawEvent.mk None episode_id
    (RawEvent.timestamp event)
    (RawEvent.cwd event)
    (RawEvent.git_branch event)
    (RawEvent.command event)
    (RawEvent.exit_code event)
    (RawEvent.stderr event)
    (RawEvent.stdout_truncated event)
    (RawEvent.session_id event).

(** The loop [for (const event of allEvents) insertRawEvent(...)]. *)
Definition insertRawEvents (events : list RawEvent.t) (db : Database)
  : Database :=
  fold_left (fun d event => snd (insertRawEvent event d)) events db.

(** [fixCommands] and [fixSequence] of [extractEpisode]. *)
Definition fixCommandsOf (followingCommands : list RawEvent.t)
  : list jsstring :=
  firstn 5
    (map RawEvent.command
       (filter (fun e => (RawEvent.exit_code e =? 0)%Z) followingCommands)).

Definition fixSequenceOf (followingCommands : list RawEvent.t) : jsstring :=
  let joined := join (str " && ") (fixCommandsOf followingCommands) in
  if truthy joined then joined else str "Unknown fix".

Definition withEmbedding (episode : Episode.t) (embedding : option (list Q))
  : Episode.t :=
  Episode.mk
    (Episode.id episode)
    (Episode.project_hash episode)
    (Episode.directory episode)
    (Episode.git_branch episode)
    (Episode.problem_summary episode)
    (Episode.environment episode)
    (Episode.fix_sequence episode)
    (Episode.keywords episode)
    embedding
    (Episode.first_seen episode)
    (Episode.last_seen episode)
    (Episode.occurrence_count episode).

Definition withId (episode : Episode.t) (id : Z) : Episode.t :=
  Episode.mk
    (Some id)
    (Episode.project_hash episode)
    (Episode.directory episode)
    (Episode.git_branch episode)
    (Episode.problem_summary episode)
    (Episode.environment episode)
    (Episode.fix_sequence episode)
    (Episode.keywords episode)
    (Episode.embedding episode)
    (Episode.first_seen episode)
    (Episode.last_seen episode)
    (Episode.occurrence_count episode).

(** The [followingEvents] of [processEvent]: the recent events after
    the error, oldest first. *)
Definition followingEventsOf (event : TerminalEvent.t)
  (recentEvents : list RawEvent.t) : list RawEvent.t :=
  stableSort (fun y x => (RawEvent.timestamp y <? RawEvent.timestamp x)%Z)
    (filter
       (fun e => (TerminalEvent.timestamp event <? RawEvent.timestamp e)%Z)
       recentEvents).

Section Extraction.
Context {P : Platform}.

Definition hashProjectPath (cwd : jsstring) : jsstring :=
  substring 0 12 (MD5 cwd).

Definition getEnvironment : jsstring :=
  join (str " | ") [os_platform; os_arch; process_version].

(** The episode [extractEpisode] assembles before it asks for an
    embedding; [now] is the value of [Date.now()]. *)
Definition newEpisode (now : Z) (errorEvent : TerminalEvent.t)
  (followingCommands : list RawEvent.t) : Episode.t :=
  let problemSignature :=
    extractErrorSignature (TerminalEvent.stderr errorEvent)
      (TerminalEvent.command errorEvent) in
  let projectHash := hashProjectPath (TerminalEvent.cwd errorEvent) in
  let fixSequence := fixSequenceOf followingCommands in
  let keywordsText :=
    TerminalEvent.command errorEvent ++ str " "
    ++ TerminalEvent.stderr errorEvent ++ str " " ++ fixSequence in
  let keywords := join (str ", ") (extractKeywords keywordsText) in
  Episode.mk None projectHash
    (TerminalEvent.cwd errorEvent)
    (TerminalEvent.git_branch errorEvent)
    problemSignature
    getEnvironment
    fixSequence
    keywords
    None
    (TerminalEvent.timestamp errorEvent)
    now
    1%Z.

(** [now] is the value of the one [Date.now()] a call evaluates.  An
    episode read from the table always has an [id] ([existing.id!]). *)
Definition extractEpisode (now : Z) (errorEvent : TerminalEvent.t)
  (followingCommands : list RawEvent.t) (db : Database)
  : option Episode.t * Database :=
  match followingCommands with
  | [] => (None, db)
  | _ :: _ =>
    let problemSignature :=
      extractErrorSignature (TerminalEvent.stderr errorEvent)
        (TerminalEvent.command errorEvent) in
    let projectHash := hashProjectPath (TerminalEvent.cwd errorEvent) in
    match findSimilarEpisode projectHash problemSignature db with
    | Some existing =>
      match Episode.id existing with
      | Some id =>
        (None,
         updateEpisode id
           (EpisodeUpdates.mk (Some now)
              (Some (Episode.occurrence_count existing + 1)%Z) None)
           db)
      | None => (None, db)
      end
    | None =>
      let episode0 := newEpisode now errorEvent followingCommands in
      let episode :=
        match generateEpisodeEmbedding episode0 with
        | Some embedding => withEmbedding episode0 (Some embedding)
        | None => episode0
        end in
      let '(id, db1) := insertEpisode episode db in
      let allEvents :=
        rawOfTerminalEvent (Some id) errorEvent
        :: map (rawOfRawEvent (Some id)) followingCommands in
      (Some (withId episode id), insertRawEvents allEvents db1)
    end
  end.

(** [now1] is the [Date.now()] of [processEvent], [now2] the later one
    of [extractEpisode]. *)
Definition processEvent (now1 now2 : Z) (event : TerminalEvent.t)
  (db : Database) : option Episode.t * Database :=
  let db1 := snd (insertRawEvent (rawOfTerminalEvent None event) db) in
  if negb (isError (TerminalEvent.stderr event) (TerminalEvent.exit_code event))
  then (None, db1)
  else
    let fiveMinutesAgo := (now1 - 5 * 60 * 1000)%Z in
    let recentEvents :=
      getRecentEventsForDirectory (TerminalEvent.cwd event) fiveMinutesAgo db1
    in
    extractEpisode now2 event (followingEventsOf event recentEvents) db1.

End Extraction.

(** ** src/retrieval/index.ts *)

Definition CONFIDENCE_THRESHOLD : Q := 0.75.

Definition shouldRetrieve (context : RetrievalContext.t) : bool :=
  if negb (RetrievalContext.exit_code context =? 0)%Z then true
  else
    let lowerStderr := toLowerCase (RetrievalContext.stderr context) in
    if existsb (fun pattern => includes lowerStderr (toLowerCase pattern))
         ERROR_PATTERNS
    then true
    else false.

Definition suggestNextStep (result : RetrievalResult.t) : option jsstring :=
  let fixCommands :=
    split (Episode.fix_sequence (RetrievalResult.episode result)) (str " && ")
  in
  match fixCommands with
  | [] => None
  | c :: _ => if truthy (trim c) then Some (trim c) else None
  end.

(** What [retrieveAndSuggest] returns. *)
Record Suggestion : Type := mkSuggestion {
  shouldShow : bool;
  message : option jsstring;
  suggestedCommand : option jsstring
}.

Definition noSuggestion : Suggestion := mkSuggestion false None None.

(** The comparator [(a, b) => b.confidence - a.confidence]: [a] goes
    first when its confidence is the larger one. *)
Definition confidenceBefore (a b : RetrievalResult.t) : bool :=
  negb (Qle_bool (RetrievalResult.confidence a) (RetrievalResult.confidence b)).

Section Retrieval.
Context {P : Platform}.

(** The body of the loop of [retrieveSimilarEpisodes]: the result it
    would push for [episode]. *)
Definition scoreEpisode (context : RetrievalContext.t)
  (projectHash : jsstring) (currentEmbedding : option (list Q))
  (episode : Episode.t) : RetrievalResult.t :=
  let similarity :=
    match currentEmbedding, Episode.embedding episode with
    | Some current, Some stored => cosineSimilarity current stored
    | _, _ =>
      textSimilarity
        (Episode.problem_summary episode ++ str " " ++ Episode.keywords episode)
        (RetrievalContext.stderr context ++ str " "
         ++ RetrievalContext.command context)
    end in
  let projectMatch := streqb (Episode.project_hash episode) projectHash in
  let commandSimilarity :=
    textSimilarity (Episode.problem_summary episode)
      (RetrievalContext.stderr context) in
  let confidence :=
    calculateConfidence similarity projectMatch commandSimilarity in
  RetrievalResult.mk episode similarity confidence.

Definition currentErrorText (context : RetrievalContext.t) : jsstring :=
  str "Error: " ++ RetrievalContext.stderr context
  ++ [LF] ++ str "Command: " ++ RetrievalContext.command context.

(** Every candidate of the context with its score, before the
    threshold. *)
Definition scoredCandidates (context : RetrievalContext.t) (db : Database)
  : list RetrievalResult.t :=
  let projectHash := hashProjectPath (RetrievalContext.cwd context) in
  map (scoreEpisode context projectHash
         (generateEmbedding (currentErrorText context)))
    (getEpisodesByProject projectHash db).

Definition reaches (result : RetrievalResult.t) : bool :=
  Qle_bool CONFIDENCE_THRESHOLD (RetrievalResult.confidence result).

Definition retrieveSimilarEpisodes (context : RetrievalContext.t)
  (maxResults : nat) (db : Database) : list RetrievalResult.t :=
  let projectHash := hashProjectPath (RetrievalContext.cwd context) in
  let projectEpisodes := getEpisodesByProject projectHash db in
  match projectEpisodes with
  | [] => []
  | _ :: _ =>
    let currentEmbedding := generateEmbedding (currentErrorText context) in
    let results :=
      filter reaches
        (map (scoreEpisode context projectHash currentEmbedding)
           projectEpisodes) in
    firstn maxResults (stableSort confidenceBefore results)
  end.

Definition retrieveAndSuggest (context : RetrievalContext.t) (db : Database)
  : Suggestion :=
  if negb (shouldRetrieve context) then noSuggestion
  else
    match retrieveSimilarEpisodes context 1 db with
    | [] => noSuggestion
    | topResult :: _ =>
      mkSuggestion true
        (Some (formatRetrievalResult topResult))
        (suggestNextStep topResult)
    end.

End Retrieval.

(** ** The specification's formulas *)

(** "0.5 x semantic similarity + 0.3 x (1 if project matches else 0)
    + 0.2 x command-text similarity" *)
Definition weightedSum (s : Q) (p : bool) (c : Q) : Q :=
  (0.5 * s + 0.3 * (if p then 1 else 0) + 0.2 * c)%Q.

(** The dot product and the squared magnitude of vectors. *)
Fixpoint dot (a b : list Q) : Q :=
  match a, b with
  | x :: a', y :: b' => (x * y + dot a' b')%Q
  | _, _ => 0%Q
  end.

Definition sumSquares (a : list Q) : Q := dot a a.

(** A vector of zero magnitude: every component is zero. *)
Definition zeroVector (a : list Q) : Prop := Forall (fun x => (x == 0)%Q) a.

(** A line is blank when it holds white space only. *)
Definition blank (l : jsstring) : bool := forallb isWhiteSpace l.

(** [line] is the first non-blank element of [lines], or the empty
    string when every element is blank. *)
Definition firstNonBlank (lines : list jsstring) (line : jsstring) : Prop :=
  (exists pre post,
      lines = pre ++ line :: post
      /\ forallb blank pre = true /\ blank line = false)
  \/ (forallb blank lines = true /\ line = []).

(** Every capture is a range of offsets of an input of length
    [total]. *)
Definition capturesWithin (total : nat) (caps : captures) : Prop :=
  forall n a b, capture n caps = Some (a, b) -> a <= b /\ b <= total.

(** The groups a regular expression sets on every successful match. *)
Fixpoint defines (r : regex) (n : nat) : bool :=
  match r with
  | Group m r' => Nat.eqb n m || defines r' n
  | Seq r1 r2 => defines r1 n || defines r2 n
  | Alt r1 r2 => defines r1 n && defines r2 n
  | _ => false
  end.

(** ** Store invariants and the specification's fix sequence *)



(** A raw event record without its row id. *)
Definition contentOf (row : RawEvent.t) : RawEvent.t :=
  rawOfRawEvent (RawEvent.episode_id row) row.

Definition succeeded (e : RawEvent.t) : bool := (RawEvent.exit_code e =? 0)%Z.

(** The fix sequence as the specification words it: the commands of the
    events with exit code 0, the first five, joined; the sentinel when
    no event has exit code 0. *)
Definition claimedFixSequence (following : list RawEvent.t) : jsstring :=
  if existsb succeeded following
  then join (str " && ")
         (firstn 5 (map RawEvent.command (filter succeeded following)))
  else str "Unknown fix".

(** The fix sequence as the code computes it: the sentinel replaces an
    empty joined string. *)
Definition amendedFixSequence (following : list RawEvent.t) : jsstring :=
  match firstn 5 (map RawEvent.command (filter succeeded following)) with
  | [] => str "Unknown fix"
  | [[]] => str "Unknown fix"
  | commands => join (str " && ") commands
  end.

Section Reachable.
Context {P : Platform}.

(** The databases the program can build from an empty one. *)
Inductive reachable : Database -> Prop :=
| reach_empty : reachable emptyDatabase
| reach_processEvent (db : Database) (now1 now2 : Z) (event : TerminalEvent.t) :
    reachable db -> reachable (snd (processEvent now1 now2 event db))
| reach_extractEpisode (db : Database) (now : Z) (event : TerminalEvent.t)
    (following : list RawEvent.t) :
    reachable db -> reachable (snd (extractEpisode now event following db))
| reach_clearProject (db : Database) (projectHash : jsstring) :
    reachable db -> reachable (clearProject projectHash db).

End Reachable.

(** ** src/storage/db.ts, the other queries *)

(** [ORDER BY last_seen DESC] *)
Definition newestFirst (y x : EpisodeRow.t) : bool :=
  (EpisodeRow.last_seen x <? EpisodeRow.last_seen y)%Z.

(** [ORDER BY timestamp DESC] *)
Definition latestFirst (y x : RawEvent.t) : bool :=
  (RawEvent.timestamp x <? RawEvent.timestamp y)%Z.

(** [LIMIT ?]: a negative limit is no limit. *)
Definition sqlLimit {A : Type} (limit : Z) (l : list A) : list A :=
  if (limit <? 0)%Z then l else firstn (Z.to_nat limit) l.

(** [a.slice(0, n)]: a negative [n] counts from the end. *)
Definition slice0 {A : Type} (n : Z) (l : list A) : list A :=
  if (n <? 0)%Z then firstn (length l - Z.to_nat (- n)) l
  else firstn (Z.to_nat n) l.

(** The case folding of [LIKE]: the letters A to Z only. *)
Definition foldAscii (c : ascii) : ascii :=
  if inRange 65 90 c then ascii_of_N (code c + 32) else c.

(** [s LIKE pattern]: [%] stands for any run of code units, [_] for
    one, every other code unit for itself up to the case of A to Z. *)
Fixpoint like (pattern s : jsstring) : bool :=
  match pattern with
  | [] => match s with [] => true | _ :: _ => false end
  | c :: pattern' =>
    if (code c =? 37)%N then
      (fix any (t : jsstring) : bool :=
         like pattern' t
         || match t with
            | [] => false
            | _ :: t' => any t'
            end) s
    else
      match s with
      | [] => false
      | d :: s' =>
        ((code c =? 95)%N || Ascii.eqb (foldAscii c) (foldAscii d))
        && like pattern' s'
      end
  end.

(** [WHERE problem_summary LIKE ? OR keywords LIKE ?] *)
Definition mentions (pattern : jsstring) (row : EpisodeRow.t) : bool :=
  like pattern (EpisodeRow.problem_summary row)
  || like pattern (EpisodeRow.keywords row).

Definition searchEpisodesByText (text : jsstring) (limit : Z) (db : Database)
  : list Episode.t :=
  let pattern := str "%" ++ text ++ str "%" in
  map rowToEpisode
    (sqlLimit limit
       (stableSort newestFirst (filter (mentions pattern) (episodes db)))).

Definition getRecentEpisodes (limit : Z) (db : Database) : list Episode.t :=
  map rowToEpisode (sqlLimit limit (stableSort newestFirst (episodes db))).

(** [WHERE embedding IS NOT NULL] *)
Definition hasEmbedding (row : EpisodeRow.t) : bool :=
  match EpisodeRow.embedding row with
  | Some _ => true
  | None => false
  end.

Definition getAllEpisodesWithEmbeddings (db : Database) : list Episode.t :=
  map rowToEpisode
    (stableSort newestFirst (filter hasEmbedding (episodes db))).

(** [WHERE cwd = ? AND command = ? AND timestamp > ?] *)
Definition sameCommandSince (cwd command : jsstring) (since : Z)
  (row : RawEvent.t) : bool :=
  streqb (RawEvent.cwd row) cwd
  && streqb (RawEvent.command row) command
  && (since <? RawEvent.timestamp row)%Z.

(** [now] is the value of [Date.now()]. *)
Definition getLastEventForCommand (now : Z) (cwd command : jsstring)
  (withinHours : Z) (db : Database) : option RawEvent.t :=
  let since := (now - withinHours * 60 * 60 * 1000)%Z in
  match
    stableSort latestFirst
      (filter (sameCommandSince cwd command since) (raw_events db))
  with
  | [] => None
  | row :: _ => Some row
  end.

(** What [getStats] returns. *)
Record Stats : Type := mkStats {
  totalEpisodes : Z;
  totalEvents : Z;
  projects : Z
}.

(** [COUNT( * )] twice and [COUNT(DISTINCT project_hash)]. *)
Definition getStats (db : Database) : Stats :=
  mkStats
    (Z.of_nat (length (episodes db)))
    (Z.of_nat (length (raw_events db)))
    (Z.of_nat (length (newSet (map EpisodeRow.project_hash (episodes db))))).

(** ** src/capture/index.ts *)

Section Capture.
Context {P : Platform}.

(** [now] is [Date.now()], [cwd] is [process.cwd()], [gitBranch] what
    [getGitBranch(cwd)] returns and [sessionId] the session identifier
    read from the environment. *)
Definition captureEvent (now : Z) (cwd : jsstring)
  (gitBranch : option jsstring) (sessionId : jsstring)
  (command : jsstring) (exitCode : Z) (stderr stdout : jsstring)
  : TerminalEvent.t :=
  TerminalEvent.mk now cwd gitBranch command exitCode
    (substring 0 5000 stderr) (substring 0 2000 stdout)
    sessionId (hashProjectPath cwd).

(** [now0], [now1] and [now2] are the values of [Date.now()] in
    [captureEvent], [processEvent] and [extractEpisode]. *)
Definition handleTerminalEvent (now0 now1 now2 : Z) (cwd : jsstring)
  (gitBranch : option jsstring) (sessionId : jsstring)
  (command : jsstring) (exitCode : Z) (stderr stdout : jsstring)
  (db : Database) : (option Episode.t * Suggestion) * Database :=
  let event :=
    captureEvent now0 cwd gitBranch sessionId command exitCode stderr stdout
  in
  let '(episode, db1) := processEvent now1 now2 event db in
  let suggestion :=
    retrieveAndSuggest
      (RetrievalContext.mk
         (TerminalEvent.cwd event)
         (TerminalEvent.command event)
         (TerminalEvent.exit_code event)
         (TerminalEvent.stderr event)
         (TerminalEvent.git_branch event)
         (TerminalEvent.project_hash event))
      db1 in
  ((episode, suggestion), db1).

End Capture.

Definition wasCommandRepeated (now : Z) (cwd command : jsstring)
  (db : Database) : bool :=
  match getLastEventForCommand now cwd command 24 db with
  | Some _ => true
  | None => false
  end.

(** The groups that occur in a regular expression. *)
Fixpoint mentionsGroup (r : regex) (n : nat) : bool :=
  match r with
  | Group m r' => Nat.eqb n m || mentionsGroup r' n
  | Seq r1 r2 => mentionsGroup r1 n || mentionsGroup r2 n
  | Alt r1 r2 => mentionsGroup r1 n || mentionsGroup r2 n
  | _ => false
  end.

(** Two strings that the [i] flag does not tell apart. *)
Definition sameUpToCase (a b : jsstring) : Prop :=
  map canonicalize a = map canonicalize b.

(** ** What the embedding column keeps *)

(** A byte of the BLOB as the number [rowToEpisode] reads. *)
Definition readBack (x : Q) : Q := inject_Z (ToUint8 x).

(** The episode [insertEpisode] makes readable: the argument with its
    new id and the embedding as the BLOB keeps it. *)
Definition stored (e : Episode.t) (id : Z) : Episode.t :=
  withId (withEmbedding e (option_map (map readBack) (Episode.embedding e))) id.

(** ** Invariants of the store *)

(** Row ids are positive, distinct and at most the counter of their
    table. *)
Definition episodeIdsFresh (db : Database) : Prop :=
  (0 <= episodes_seq db)%Z
  /\ NoDup (map EpisodeRow.id (episodes db))
  /\ forall row, In row (episodes db) ->
       (0 < EpisodeRow.id row <= episodes_seq db)%Z.

Definition rawIdsFresh (db : Database) : Prop :=
  (0 <= raw_events_seq db)%Z
  /\ NoDup (map RawEvent.id (raw_events db))
  /\ forall row, In row (raw_events db) ->
       exists id, RawEvent.id row = Some id /\ (0 < id <= raw_events_seq db)%Z.

(** What every stored episode satisfies. *)
Definition episodeRowOk (row : EpisodeRow.t) : Prop :=
  (1 <= EpisodeRow.occurrence_count row)%Z
  /\ length (EpisodeRow.project_hash row) <= 12
  /\ length (EpisodeRow.problem_summary row) <= 100
  /\ EpisodeRow.fix_sequence row <> [].

Definition wellFormed (db : Database) : Prop :=
  episodeIdsFresh db /\ rawIdsFresh db
  /\ forall row, In row (episodes db) -> episodeRowOk row.

(** No stored raw event is later than [clock]. *)
Definition notAfter (clock : Z) (db : Database) : Prop :=
  forall row, In row (raw_events db) -> (RawEvent.timestamp row <= clock)%Z.

Section CaptureRuns.
Context {P : Platform}.

(** The databases built from the empty one by [handleTerminalEvent] and
    [clearProject] while the clock does not run backwards: [clock] is
    the time of the last capture. *)
Inductive capturedUntil : Z -> Database -> Prop :=
| captured_empty (clock : Z) : capturedUntil clock emptyDatabase
| captured_event (clock : Z) (db : Database) (now0 now1 now2 : Z)
    (cwd : jsstring) (gitBranch : option jsstring) (sessionId : jsstring)
    (command : jsstring) (exitCode : Z) (stderr stdout : jsstring) :
    capturedUntil clock db ->
    (clock <= now0)%Z ->
    capturedUntil now0
      (snd (handleTerminalEvent now0 now1 now2 cwd gitBranch sessionId
              command exitCode stderr stdout db))
| captured_clear (clock : Z) (db : Database) (projectHash : jsstring) :
    capturedUntil clock db -> capturedUntil clock (clearProject projectHash db).

End CaptureRuns.

(** [s] contains [t] up to the case of the letters A to Z. *)
Fixpoint startsWithFold (t s : jsstring) : bool :=
  match t, s with
  | [], _ => true
  | x :: t', y :: s' =>
    Ascii.eqb (foldAscii x) (foldAscii y) && startsWithFold t' s'
  | _ :: _, [] => false
  end.

Fixpoint includesFold (s t : jsstring) : bool :=
  startsWithFold t s
  || match s with
     | [] => false
     | _ :: s' => includesFold s' t
     end.

(** A code unit that [LIKE] reads as a wildcard. *)
Definition isWildcard (c : ascii) : bool :=
  (code c =? 37)%N || (code c =? 95)%N.

(** ** Numbers as binary64

    The numeric functions once more, with a JavaScript [number] as the
    binary64 number it is: [float], the primitive floats of the kernel,
    whose operations round to nearest-even and are specified by
    [SpecFloat] through [FloatAxioms].  A decimal literal stands for the
    nearest binary64 number, as it does in the source. *)

Set Warnings "-inexact-float".

(** The place of a number in the order of the binary64 numbers: its
    value scaled by [2^1074], an integer; the infinities lie beyond
    every finite number. *)
Definition rankSF (x : spec_float) : Z :=
  match x with
  | S754_zero _ => 0
  | S754_nan => 0
  | S754_infinity s => cond_Zopp s (2 ^ 2200)
  | S754_finite s m e => cond_Zopp s (Zpos m * 2 ^ (e + 1074))
  end.

Definition rank (x : float) : Z := rankSF (Prim2SF x).

(** A number of sign [s] that is not a zero: what rounding makes of a
    non-zero number of that sign. *)
Definition signed (s : bool) (x : spec_float) : Prop :=
  x = S754_infinity s \/ exists m e, x = S754_finite s m e.

Module Binary64.

(** [Math.min(x, y)]: [NaN] when an argument is [NaN]; [-0] is below
    [+0]. *)
Definition Math_min (x y : float) : float :=
  if is_nan x || is_nan y then nan
  else if (x <? y)%float then x
  else if (y <? x)%float then y
  else match classify x with
       | NZero => x
       | _ => y
       end.

(** [s.size], a number (sizes stay far below [2^53]). *)
Definition size (s : list jsstring) : float :=
  of_uint63 (Uint63.of_Z (Z.of_nat (length s))).

(** ** src/storage/embeddings.ts *)

Definition cosineLoop (ab : list (float * float)) : float * float * float :=
  fold_left
    (fun acc xy =>
       let '(dotProduct, normA, normB) := acc in
       (dotProduct + fst xy * snd xy,
        normA + fst xy * fst xy,
        normB + snd xy * snd xy)%float)
    ab (0, 0, 0)%float.

Definition cosineSimilarity (a b : list float) : float :=
  if negb (length a =? length b) then 0%float
  else
    let '(dotProduct, normA, normB) := cosineLoop (combine a b) in
    if (normA =? 0)%float || (normB =? 0)%float then 0%float
    else (dotProduct / (sqrt normA * sqrt normB))%float.

Definition textSimilarity (text1 text2 : jsstring) : float :=
  let words1 := newSet (split_ws (toLowerCase text1)) in
  let words2 := newSet (split_ws (toLowerCase text2)) in
  let intersection := newSet (filter (has words2) words1) in
  let union := newSet (words1 ++ words2) in
  (size intersection / size union)%float.

Definition calculateConfidence (semanticSimilarity : float)
  (projectMatch : bool) (commandSimilarity : float) : float :=
  let score :=
    (0.5 * semanticSimilarity
     + 0.3 * (if projectMatch then 1 else 0)
     + 0.2 * commandSimilarity)%float in
  Math_min score 1.

(** ** src/storage/db.ts *)

(** The number a byte of the column [embedding] is read back as. *)
Definition ofByte (b : Z) : float := of_uint63 (Uint63.of_Z b).

(** An episode read from the store: the fields of [rowToEpisode], and
    its [embedding] as the numbers [Array.from(new Uint8Array(blob))]
    holds. *)
Record StoredEpisode : Type := mkStoredEpisode {
  fields : Episode.t;
  embedding : option (list float)
}.

Definition rowToEpisode (row : EpisodeRow.t) : StoredEpisode :=
  mkStoredEpisode (rowToEpisode row)
    (option_map (map ofByte) (EpisodeRow.embedding row)).

Definition getEpisodesByProject (projectHash : jsstring) (db : Database)
  : list StoredEpisode :=
  map rowToEpisode
    (stableSort newestFirst
       (filter (fun row => streqb (EpisodeRow.project_hash row) projectHash)
          (episodes db))).

Definition getAllEpisodesWithEmbeddings (db : Database)
  : list StoredEpisode :=
  map rowToEpisode (stableSort newestFirst (filter hasEmbedding (episodes db))).

(** ** src/retrieval/index.ts *)

Module RetrievalResult.
Record t : Type := mk {
  episode : StoredEpisode;
  similarity : float;
  confidence : float
}.
End RetrievalResult.

(** What retrieval obtains from outside: the embedding service
    ([generateEmbedding], [None] for its [null]) and the text block of
    [formatRetrievalResult]. *)
Class Service : Type := {
  generateEmbedding : jsstring -> option (list float);
  formatRetrievalResult : RetrievalResult.t -> jsstring
}.

Definition CONFIDENCE_THRESHOLD : float := 0.75.

Definition suggestNextStep (result : RetrievalResult.t) : option jsstring :=
  let fixCommands :=
    split (Episode.fix_sequence (fields (RetrievalResult.episode result)))
      (str " && ")
  in
  match fixCommands with
  | [] => None
  | c :: _ => if truthy (trim c) then Some (trim c) else None
  end.

(** The comparator [(a, b) => b.confidence - a.confidence]: [a] goes
    before [b] when the difference is negative. *)
Definition confidenceBefore (a b : RetrievalResult.t) : bool :=
  (RetrievalResult.confidence b - RetrievalResult.confidence a <? 0)%float.

(** The comparator [(a, b) => b.similarity - a.similarity]. *)
Definition similarityBefore (a b : StoredEpisode * float) : bool :=
  (snd b - snd a <? 0)%float.

Definition reaches (result : RetrievalResult.t) : bool :=
  (CONFIDENCE_THRESHOLD <=? RetrievalResult.confidence result)%float.

Section Retrieval.
Context {P : Platform} {S : Service}.

(** The body of the loop of [retrieveSimilarEpisodes]: the result it
    would push for [episode]. *)
Definition scoreEpisode (context : RetrievalContext.t)
  (projectHash : jsstring) (currentEmbedding : option (list float))
  (episode : StoredEpisode) : RetrievalResult.t :=
  let similarity :=
    match currentEmbedding, embedding episode with
    | Some current, Some stored => cosineSimilarity current stored
    | _, _ =>
      textSimilarity
        (Episode.problem_summary (fields episode) ++ str " "
         ++ Episode.keywords (fields episode))
        (RetrievalContext.stderr context ++ str " "
         ++ RetrievalContext.command context)
    end in
  let projectMatch :=
    streqb (Episode.project_hash (fields episode)) projectHash in
  let commandSimilarity :=
    textSimilarity (Episode.problem_summary (fields episode))
      (RetrievalContext.stderr context) in
  let confidence :=
    calculateConfidence similarity projectMatch commandSimilarity in
  RetrievalResult.mk episode similarity confidence.

(** Every candidate of the context with its score, before the
    threshold. *)
Definition scoredCandidates (context : RetrievalContext.t) (db : Database)
  : list RetrievalResult.t :=
  let projectHash := hashProjectPath (RetrievalContext.cwd context) in
  map (scoreEpisode context projectHash
         (generateEmbedding (currentErrorText context)))
    (getEpisodesByProject projectHash db).

Definition retrieveSimilarEpisodes (context : RetrievalContext.t)
  (maxResults : nat) (db : Database) : list RetrievalResult.t :=
  let projectHash := hashProjectPath (RetrievalContext.cwd context) in
  let projectEpisodes := getEpisodesByProject projectHash db in
  match projectEpisodes with
  | [] => []
  | _ :: _ =>
    let currentEmbedding := generateEmbedding (currentErrorText context) in
    let results :=
      filter reaches
        (map (scoreEpisode context projectHash currentEmbedding)
           projectEpisodes) in
    firstn maxResults (stableSort confidenceBefore results)
  end.

Definition retrieveAndSuggest (context : RetrievalContext.t) (db : Database)
  : Suggestion :=
  if negb (shouldRetrieve context) then noSuggestion
  else
    match retrieveSimilarEpisodes context 1 db with
    | [] => noSuggestion
    | topResult :: _ =>
      mkSuggestion true
        (Some (formatRetrievalResult topResult))
        (suggestNextStep topResult)
    end.

(** The [scored] of [searchMemory]. *)
Definition scoreAgainst (queryEmbedding : list float)
  (episode : StoredEpisode) : StoredEpisode * float :=
  (episode,
   match embedding episode with
   | Some stored => cosineSimilarity queryEmbedding stored
   | None => 0%float
   end).

Definition searchMemory (query : jsstring) (maxResults : Z) (db : Database)
  : list Episode.t :=
  let episodes := searchEpisodesByText query maxResults db in
  match episodes with
  | _ :: _ => episodes
  | [] =>
    match generateEmbedding query with
    | Some queryEmbedding =>
      let allWithEmbeddings := getAllEpisodesWithEmbeddings db in
      let scored := map (scoreAgainst queryEmbedding) allWithEmbeddings in
      map (fun s => fields (fst s))
        (slice0 maxResults (stableSort similarityBefore scored))
    | None => episodes
    end
  end.

End Retrieval.

(** ** The specification's formulas *)

(** The dot product as the loop sums it: from the left, each product
    and each sum rounded. *)
Definition dot (a b : list float) : float :=
  fold_left (fun acc xy => (acc + fst xy * snd xy)%float) (combine a b)
    0%float.

(** A vector of zero magnitude: every component is a zero. *)
Definition zeroVector (a : list float) : Prop :=
  Forall (fun x => (x =? 0)%float = true) a.

(** The weighted sum of the confidence, each product and sum rounded. *)
Definition weightedSum (s : float) (p : bool) (c : float) : float :=
  (0.5 * s + 0.3 * (if p then 1 else 0) + 0.2 * c)%float.

End Binary64.

(** The signature the specification describes: the first group of the
    [Error:] pattern or of the error code pattern, else the first
    non-blank line. *)
Definition claimedSignature (stderr : jsstring) : jsstring :=
  match
    orElse (regexMatch stderr errorColonPattern)
      (regexMatch stderr errCodePattern)
  with
  | Some m => firstn 100 (group stderr m 1)
  | None => firstn 100 (firstLine stderr)
  end.

(** ** A platform to evaluate the model on concrete inputs

    MD5 is replaced by the identity (the program uses the digest as a
    grouping key only), the embedding service is absent, and the square
    root is exact on the squares of rationals and rounded down
    elsewhere. *)

Definition sampleSqrt (x : Q) : Q :=
  let r := Qred x in
  Qmake (Z.sqrt (Qnum r * Zpos (Qden r))) (Qden r).

Lemma sampleSqrt_eq (x y : Q) : (x == y)%Q -> (sampleSqrt x == sampleSqrt y)%Q.
Proof.
  intros H. unfold sampleSqrt. rewrite (Qred_complete x y H). reflexivity.
Qed.

Definition samplePlatform : Platform :=
  {| MD5 := fun s => s;
     generateEmbedding := fun _ => None;
     Math_sqrt := sampleSqrt;
     Math_sqrt_eq := sampleSqrt_eq;
     os_platform := str "linux";
     os_arch := str "x64";
     process_version := str "v20.0.0";
     formatRetrievalResult :=
       fun r => str "Problem: "
                ++ Episode.problem_summary (RetrievalResult.episode r) |}.

Definition sampleEpisode (embedding : option (list Q)) : Episode.t :=
  Episode.mk None (str "/work/app") (str "/work/app") None
    (str "ENOENT: no such file") (str "linux | x64 | v20.0.0")
    (str "npm install") (str "enoent, such, npm, install")
    embedding 1000 2000 1.

Definition sampleError : TerminalEvent.t :=
  TerminalEvent.mk 1000 (str "/work/app") None (str "npm start") 1
    (str "ENOENT: no such file") (str "") (str "s1") (str "/work/app").

Definition sampleFollowing (timestamp : Z) (command : string) (exit_code : Z)
  : RawEvent.t :=
  RawEvent.mk None None timestamp (str "/work/app") None (str command)
    exit_code (str "") (str "") (str "s1").

(** Two failures of one directory with different messages. *)
Definition sampleTypeError : TerminalEvent.t :=
  TerminalEvent.mk 1000 (str "/work/app") None (str "node app.js") 1
    (str "TypeError: load is not a function") (str "") (str "s1")
    (str "/work/app").

Definition sampleRangeError : TerminalEvent.t :=
  TerminalEvent.mk 7000 (str "/work/app") None (str "node cli.js") 1
    (str "RangeError: index 7 out of range") (str "") (str "s1")
    (str "/work/app").

Definition sampleContext : RetrievalContext.t :=
  RetrievalContext.mk (str "/work/app") (str "npm start") 1
    (str "ENOENT: no such file") None (str "/work/app").

Definition sampleFix : RawEvent.t := sampleFollowing 1100 "npm install" 0.

(** The store after the first occurrence of [sampleError]. *)
Definition sampleDatabase : Database :=
  snd (extractEpisode (P := samplePlatform) 5000 sampleError [sampleFix]
         emptyDatabase).

Definition sampleSuccess : TerminalEvent.t :=
  TerminalEvent.mk 1100 (str "/work/app") None (str "npm install") 0
    (str "") (str "") (str "s1") (str "/work/app").

(** The store after [sampleSuccess] alone was processed. *)
Definition sampleLog : Database :=
  snd (processEvent (P := samplePlatform) 1150 1150 sampleSuccess
         emptyDatabase).

(** A platform whose embedding service answers with one fixed vector. *)
Definition embeddingPlatform : Platform :=
  {| MD5 := fun s => s;
     generateEmbedding := fun _ => Some [1; 0]%Q;
     Math_sqrt := sampleSqrt;
     Math_sqrt_eq := sampleSqrt_eq;
     os_platform := str "linux";
     os_arch := str "x64";
     process_version := str "v20.0.0";
     formatRetrievalResult :=
       fun r => str "Problem: "
                ++ Episode.problem_summary (RetrievalResult.episode r) |}.

Definition embeddedDatabase : Database :=
  snd (extractEpisode (P := embeddingPlatform) 5000 sampleError [sampleFix]
         emptyDatabase).

(** The services of the binary64 functions in the concrete runs: no
    embedding service. *)
Definition sampleService : Binary64.Service :=
  {| Binary64.generateEmbedding := fun _ => None;
     Binary64.formatRetrievalResult :=
       fun r => str "Problem: "
                ++ Episode.problem_summary
                     (Binary64.fields (Binary64.RetrievalResult.episode r)) |}.

(** A service that answers every text with one fixed vector. *)
Definition embeddingService : Binary64.Service :=
  {| Binary64.generateEmbedding := fun _ => Some [1; 0]%float;
     Binary64.formatRetrievalResult :=
       fun r => str "Problem: "
                ++ Episode.problem_summary
                     (Binary64.fields (Binary64.RetrievalResult.episode r)) |}.

(** A failure that comes back with the same command and output. *)
Definition sampleRepeat : TerminalEvent.t :=
  TerminalEvent.mk 1000 (str "/work/app") None (str "abc") 1 (str "abc")
    (str "") (str "s1") (str "/work/app").

(** The store after the first occurrence of [sampleRepeat]. *)
Definition repeatDatabase : Database :=
  snd (extractEpisode (P := samplePlatform) 5000 sampleRepeat
         [sampleFollowing 1100 "abc" 0] emptyDatabase).

(** The same command and output again, as a failure and as a success. *)
Definition failingContext : RetrievalContext.t :=
  RetrievalContext.mk (str "/work/app") (str "abc") 1 (str "abc") None
    (str "/work/app").

Definition quietContext : RetrievalContext.t :=
  RetrievalContext.mk (str "/work/app") (str "abc") 0 (str "abc") None
    (str "/work/app").

(** A store and a failure whose text similarity is 7/10 and whose
    command similarity is 1/2: in exact arithmetic the confidence
    would be 0.75. *)
Definition borderDatabase : Database :=
  snd (insertEpisode
         (Episode.mk None (str "/work/app") (str "/work/app") None
            (str "a") (str "linux | x64 | v20.0.0") (str "npm install")
            (str "k1 k2 k3 k4 k5 k6 x") None 1000 2000 1)
         emptyDatabase).

Definition borderContext : RetrievalContext.t :=
  RetrievalContext.mk (str "/work/app") (str "k1 k2 k3 k4 k5 k6 y") 1
    (str "a b") None (str "/work/app").

(** * Properties *)

(** ** The confidence score *)

Lemma calculateConfidence_unfold (s : Q) (p : bool) (c : Q) :
  calculateConfidence s p c = Qmin (weightedSum s p c) 1.
Proof. reflexivity. Qed.





(** ** Cosine similarity *)

Lemma dot_cons (x y : Q) (a b : list Q) :
  dot (x :: a) (y :: b) = (x * y + dot a b)%Q.
Proof. reflexivity. Qed.

Lemma sumSquares_cons (x : Q) (a : list Q) :
  sumSquares (x :: a) = (x * x + sumSquares a)%Q.
Proof. reflexivity. Qed.

Lemma sumSquares_nonneg (a : list Q) : (0 <= sumSquares a)%Q.
Proof.
  induction a as [|x a IH].
  - unfold sumSquares; simpl; lra.
  - rewrite sumSquares_cons. nra.
Qed.

Lemma zeroVector_sumSquares (a : list Q) :
  zeroVector a <-> (sumSquares a == 0)%Q.
Proof.
  unfold zeroVector. induction a as [|x a IH].
  - split; [reflexivity | constructor].
  - rewrite sumSquares_cons. split.
    + intros H. inversion H as [|? ? Hx Ha]; subst.
      apply IH in Ha. rewrite Hx, Ha. reflexivity.
    + intros H. pose proof (sumSquares_nonneg a) as Hn.
      assert (Hxx : (0 <= x * x)%Q) by nra.
      constructor.
      * assert (Hz : (x * x == 0)%Q) by lra.
        apply Qmult_integral in Hz. tauto.
      * apply IH. lra.
Qed.

(** The loop adds the three sums to its accumulators. *)
Lemma cosineLoop_acc (a b : list Q) :
  length a = length b ->
  forall d na nb : Q,
    let '(d', na', nb') :=
      fold_left
        (fun acc xy =>
           let '(dotProduct, normA, normB) := acc in
           (dotProduct + fst xy * snd xy,
            normA + fst xy * fst xy,
            normB + snd xy * snd xy)%Q)
        (combine a b) (d, na, nb) in
    (d' == d + dot a b)%Q
    /\ (na' == na + sumSquares a)%Q
    /\ (nb' == nb + sumSquares b)%Q.
Proof.
  revert b. induction a as [|x a IH]; intros [|y b] Hlen d na nb;
    try discriminate.
  - unfold sumSquares; simpl. repeat split; lra.
  - simpl combine. simpl fold_left.
    specialize (IH b (f_equal pred Hlen)
                  (d + x * y)%Q (na + x * x)%Q (nb + y * y)%Q).
    destruct (fold_left _ (combine a b) _) as [[d' na'] nb'].
    destruct IH as (Hd & Ha & Hb).
    rewrite dot_cons, !sumSquares_cons. repeat split; lra.
Qed.

Lemma cosineLoop_spec (a b : list Q) :
  length a = length b ->
  let '(d, na, nb) := cosineLoop (combine a b) in
  (d == dot a b)%Q /\ (na == sumSquares a)%Q /\ (nb == sumSquares b)%Q.
Proof.
  intros Hlen. unfold cosineLoop.
  pose proof (cosineLoop_acc a b Hlen 0 0 0)%Q as H.
  destruct (fold_left _ (combine a b) _) as [[d na] nb].
  destruct H as (Hd & Ha & Hb). repeat split; lra.
Qed.

(** ** Strings and sets *)

Lemma streqb_eq (a b : jsstring) : streqb a b = true <-> a = b.
Proof.
  revert b. induction a as [|x a IH]; intros [|y b]; simpl;
    try (split; [discriminate | congruence]); try tauto.
  rewrite andb_true_iff, Ascii.eqb_eq, IH.
  split; [intros [-> ->]; reflexivity | intros H; inversion H; auto].
Qed.

Lemma streqb_refl (a : jsstring) : streqb a a = true.
Proof. apply streqb_eq. reflexivity. Qed.

Lemma has_In (s : list jsstring) (x : jsstring) : has s x = true <-> In x s.
Proof.
  unfold has. rewrite existsb_exists. split.
  - intros (y & Hy & E). apply streqb_eq in E. subst. exact Hy.
  - intros H. exists x. split; [exact H | apply streqb_refl].
Qed.

Lemma has_not_In (s : list jsstring) (x : jsstring) :
  has s x = false <-> ~ In x s.
Proof.
  rewrite <- has_In. destruct (has s x); split; congruence.
Qed.

Lemma setAdd_app (acc l1 l2 : list jsstring) :
  setAdd acc (l1 ++ l2) = setAdd (setAdd acc l1) l2.
Proof.
  revert acc. induction l1 as [|x l1 IH]; intros acc; simpl; auto.
Qed.

Lemma setAdd_present (acc l : list jsstring) :
  (forall x, In x l -> In x acc) -> setAdd acc l = acc.
Proof.
  induction l as [|x l IH]; intros H; simpl; [reflexivity|].
  rewrite (proj2 (has_In acc x) (H x (or_introl eq_refl))).
  apply IH. intros y Hy. apply H. right. exact Hy.
Qed.

Lemma setAdd_fresh (acc l : list jsstring) :
  NoDup (acc ++ l) -> setAdd acc l = acc ++ l.
Proof.
  revert acc. induction l as [|x l IH]; intros acc H; simpl.
  - rewrite app_nil_r. reflexivity.
  - assert (Hx : has acc x = false).
    { apply has_not_In. intros Hin.
      apply NoDup_remove_2 in H. apply H, in_or_app. left. exact Hin. }
    rewrite Hx, IH; rewrite <- app_assoc; [reflexivity | exact H].
Qed.

Lemma setAdd_NoDup (acc l : list jsstring) :
  NoDup acc -> NoDup (setAdd acc l).
Proof.
  revert acc. induction l as [|x l IH]; intros acc H; simpl; [exact H|].
  apply IH. destruct (has acc x) eqn:E; [exact H|].
  apply has_not_In in E.
  apply NoDup_app; [exact H | repeat constructor; simpl; tauto |].
  intros y Hy [<- | []]. contradiction.
Qed.

Lemma setAdd_length (acc l : list jsstring) :
  length acc <= length (setAdd acc l).
Proof.
  revert acc. induction l as [|x l IH]; intros acc; simpl; [lia|].
  etransitivity; [|apply IH].
  destruct (has acc x); [lia | rewrite length_app; simpl; lia].
Qed.

Lemma newSet_NoDup (l : list jsstring) : NoDup (newSet l).
Proof. apply setAdd_NoDup. constructor. Qed.

Lemma newSet_nonempty (l : list jsstring) : l <> [] -> 0 < length (newSet l).
Proof.
  destruct l as [|x l]; [congruence | intros _].
  unfold newSet. simpl.
  pose proof (setAdd_length [x] l) as H. simpl in H. lia.
Qed.

(** A set rebuilt from its own elements is the same set. *)
Lemma newSet_idem (w : list jsstring) : NoDup w -> newSet w = w.
Proof. intros H. apply (setAdd_fresh [] w). exact H. Qed.

Lemma newSet_union_self (w : list jsstring) : NoDup w -> newSet (w ++ w) = w.
Proof.
  intros H. unfold newSet. rewrite setAdd_app.
  fold (newSet w). rewrite (newSet_idem w H).
  apply setAdd_present. auto.
Qed.

Lemma filter_has_self (w : list jsstring) : filter (has w) w = w.
Proof.
  apply forallb_filter_id. apply forallb_forall.
  intros x Hx. apply has_In. exact Hx.
Qed.

(** [split(/\s+/)] always yields at least one piece. *)
Lemma splitWs_nonempty (cur : jsstring) (inws : bool) (s : jsstring) :
  splitWs cur inws s <> [].
Proof.
  revert cur inws. induction s as [|c s IH]; intros cur inws; simpl.
  - discriminate.
  - destruct (isWhiteSpace c); [destruct inws|]; try apply IH; discriminate.
Qed.

Lemma size_self_ratio (w : list jsstring) :
  0 < length w -> (size w / size w == 1)%Q.
Proof.
  intros H. unfold size. apply Qmult_inv_r.
  unfold Qeq. simpl. lia.
Qed.

(** ** Textual similarity *)

(** C5 (as the code has it).  [textSimilarity s s] is 1 for every string
    [s], the empty string included: [split(/\s+/)] never yields an empty
    list, so the union is never empty. *)
Theorem textSimilarity_self (s : jsstring) : (textSimilarity s s == 1)%Q.
Proof.
  unfold textSimilarity.
  set (w := newSet (split_ws (toLowerCase s))).
  assert (Hnd : NoDup w) by apply newSet_NoDup.
  assert (Hlen : 0 < length w)
    by (apply newSet_nonempty, splitWs_nonempty).
  rewrite filter_has_self, (newSet_idem w Hnd), (newSet_union_self w Hnd).
  apply size_self_ratio. exact Hlen.
Qed.

(** On two empty strings the result is 1, not 0. *)
Lemma textSimilarity_empty_is_not_zero :
  ~ (textSimilarity (str "") (str "") == 0)%Q.
Proof. vm_compute. discriminate. Qed.

(** C5 as specified, with 0 on two empty strings, does not hold. *)
Lemma textSimilarity_claim_fails :
  ~ ((forall s : jsstring, s <> [] -> (textSimilarity s s == 1)%Q)
     /\ (textSimilarity (str "") (str "") == 0)%Q).
Proof. intros [_ H]. revert H. apply textSimilarity_empty_is_not_zero. Qed.

(** ** The embedding column *)

(** What [insertEpisode] stores and [rowToEpisode] reads back: the
    vector has the same length, and each component went through
    [ToUint8]. *)
Lemma insertEpisode_embedding (e : Episode.t) (db : Database) :
  exists row,
    episodes (snd (insertEpisode e db)) = episodes db ++ [row]
    /\ EpisodeRow.id row = fst (insertEpisode e db)
    /\ Episode.embedding (rowToEpisode row) =
       option_map (map (fun x => inject_Z (ToUint8 x))) (Episode.embedding e).
Proof.
  eexists. simpl. repeat split.
  destruct (Episode.embedding e) as [v|]; simpl; [|reflexivity].
  rewrite map_map. reflexivity.
Qed.

(** C6 (the code at a failing input).  The embedding (0.6, 0.8) is read
    back as (0, 0) by [findSimilarEpisode] and by [getEpisodesByProject]:
    the length is kept, the components are not, and the similarity of
    the vector with itself drops from 1 to 0. *)
Theorem insertEpisode_embedding_truncated :
  let v := [0.6; 0.8]%Q in
  let db := snd (insertEpisode (sampleEpisode (Some v)) emptyDatabase) in
  option_map Episode.embedding
    (findSimilarEpisode (str "/work/app") (str "ENOENT: no such file") db)
  = Some (Some [0; 0]%Q)
  /\ map Episode.embedding (getEpisodesByProject (str "/work/app") db)
     = [Some [0; 0]%Q]
  /\ (cosineSimilarity (P := samplePlatform) v v == 1)%Q
  /\ cosineSimilarity (P := samplePlatform) v [0; 0]%Q = 0%Q.
Proof. vm_compute. repeat split. Qed.

(** ** The matcher *)

Lemma repGreedy_continues (p : ascii -> bool) (rest : jsstring) :
  forall (min : nat) (caps : captures) (k : cont) (c : captures),
    repGreedy p min rest caps k = Some c ->
    exists rest', k rest' caps = Some c /\ length rest' <= length rest.
Proof.
  induction rest as [|x rest IH]; intros min caps k c H; simpl in H.
  - destruct min; [eauto | discriminate].
  - destruct (p x).
    + destruct (repGreedy p (pred min) rest caps k) eqn:E.
      * injection H as <-. apply IH in E. destruct E as (rest' & E & L).
        exists rest'. split; [exact E | simpl; lia].
      * destruct min; [eauto | discriminate].
    + destruct min; [eauto | discriminate].
Qed.

Lemma repLazy_continues (p : ascii -> bool) (rest : jsstring) :
  forall (min : nat) (caps : captures) (k : cont) (c : captures),
    repLazy p min rest caps k = Some c ->
    exists rest', k rest' caps = Some c /\ length rest' <= length rest.
Proof.
  induction rest as [|x rest IH]; intros min caps k c H; simpl in H.
  - destruct min; [|discriminate].
    destruct (k [] caps) eqn:E; [|discriminate].
    injection H as <-. eauto.
  - assert (Hmore :
      (if p x then repLazy p (pred min) rest caps k else None) = Some c ->
      exists rest', k rest' caps = Some c /\ length rest' <= S (length rest)).
    { destruct (p x); [|discriminate]. intros E. apply IH in E.
      destruct E as (rest' & E & L). exists rest'. split; [exact E | lia]. }
    destruct min; [|exact (Hmore H)].
    destruct (k (x :: rest) caps) eqn:E; [|exact (Hmore H)].
    injection H as <-. eauto.
Qed.

(** A successful match reaches its continuation on a suffix of the
    input, with every group that was set before, every group the
    expression defines, and offsets that stay within the input. *)
Lemma matcher_continues (total : nat) (r : regex) :
  forall (rest : jsstring) (caps : captures) (k : cont) (c : captures),
    matcher total r rest caps k = Some c ->
    exists rest' caps',
      k rest' caps' = Some c
      /\ length rest' <= length rest
      /\ (forall n,
            capture n caps <> None \/ defines r n = true ->
            capture n caps' <> None)
      /\ (capturesWithin total caps -> capturesWithin total caps').
Proof.
  induction r as [p | r1 IH1 r2 IH2 | r1 IH1 r2 IH2 | g min p | m r IH | ];
    intros rest caps k c H; simpl in H.
  - destruct rest as [|x rest]; [discriminate|].
    destruct (p x); [|discriminate].
    exists rest, caps. split; [|split; [|split]]; [exact H | simpl; lia | | tauto].
    intros n [Hn | Hn]; [exact Hn | discriminate].
  - apply IH1 in H. destruct H as (rest1 & caps1 & H & L1 & M1 & W1).
    apply IH2 in H. destruct H as (rest2 & caps2 & H & L2 & M2 & W2).
    exists rest2, caps2. split; [|split; [|split]]; [exact H | lia | | tauto].
    intros n Hn. apply M2. simpl in Hn.
    destruct (defines r2 n); [right; reflexivity|].
    left. apply M1. rewrite orb_false_r in Hn. exact Hn.
  - destruct (matcher total r1 rest caps k) eqn:E.
    + injection H as <-. apply IH1 in E.
      destruct E as (rest1 & caps1 & E & L1 & M1 & W1).
      exists rest1, caps1. split; [|split; [|split]]; [exact E | exact L1 | | exact W1].
      intros n [Hn | Hn]; apply M1; [left; exact Hn|].
      simpl in Hn. apply andb_true_iff in Hn. right. tauto.
    + apply IH2 in H. destruct H as (rest2 & caps2 & H & L2 & M2 & W2).
      exists rest2, caps2. split; [|split; [|split]]; [exact H | exact L2 | | exact W2].
      intros n [Hn | Hn]; apply M2; [left; exact Hn|].
      simpl in Hn. apply andb_true_iff in Hn. right. tauto.
  - assert (Hk : exists rest',
               k rest' caps = Some c /\ length rest' <= length rest).
    { destruct g; [eapply repGreedy_continues | eapply repLazy_continues];
        exact H. }
    destruct Hk as (rest' & Hk & L). exists rest', caps.
    split; [|split; [|split]]; [exact Hk | exact L | | tauto].
    intros n [Hn | Hn]; [exact Hn | discriminate].
  - apply IH in H. destruct H as (rest1 & caps1 & H & L1 & M1 & W1).
    eexists rest1, _. split; [|split; [|split]]; [exact H | exact L1 | |].
    + intros n Hn. simpl. destruct (Nat.eqb n m) eqn:E; [discriminate|].
      apply M1. simpl in Hn. rewrite E in Hn. exact Hn.
    + intros W n a b. simpl. destruct (Nat.eqb n m).
      * intros Hab. injection Hab as <- <-. lia.
      * apply W1. exact W.
  - destruct rest; [|discriminate].
    exists [], caps. split; [|split; [|split]]; [exact H | simpl; lia | | tauto].
    intros n [Hn | Hn]; [exact Hn | discriminate].
Qed.

Lemma matchAt_captures (total : nat) (r : regex) (rest : jsstring)
  (m : captures) :
  matchAt total r rest = Some m ->
  capturesWithin total m
  /\ forall n, defines r n = true -> capture n m <> None.
Proof.
  unfold matchAt. intros H. apply matcher_continues in H.
  destruct H as (rest' & caps' & H & L & M & W). injection H as <-. split.
  - intros n a b. simpl. destruct (Nat.eqb n 0).
    + intros Hab. injection Hab as <- <-. lia.
    + apply W. intros ? ? ?. discriminate.
  - intros n Hd. simpl.
    destruct (Nat.eqb n 0); [discriminate | apply M; right; exact Hd].
Qed.

Lemma execFrom_captures (total : nat) (r : regex) (rest : jsstring)
  (m : captures) :
  execFrom total r rest = Some m ->
  capturesWithin total m
  /\ forall n, defines r n = true -> capture n m <> None.
Proof.
  induction rest as [|x rest IH]; simpl; intros H.
  - destruct (matchAt total r []) eqn:E; [|discriminate].
    injection H as <-. revert E. apply matchAt_captures.
  - destruct (matchAt total r (x :: rest)) eqn:E; [|apply IH; exact H].
    injection H as <-. revert E. apply matchAt_captures.
Qed.

(** In every match of the three patterns group 1 takes part, and it is
    a slice of stderr. *)
Lemma errorMatch_group1 (stderr : jsstring) (m : captures) :
  errorMatch stderr = Some m ->
  exists a b, capture 1 m = Some (a, b) /\ a <= b <= length stderr.
Proof.
  unfold errorMatch, orElse, regexMatch. intros H.
  assert (Hm : capturesWithin (length stderr) m /\ capture 1 m <> None).
  { destruct (execFrom _ errorColonPattern stderr) eqn:E1.
    { injection H as <-. apply execFrom_captures in E1.
      split; [apply E1 | apply E1; reflexivity]. }
    destruct (execFrom _ errCodePattern stderr) eqn:E2.
    { injection H as <-. apply execFrom_captures in E2.
      split; [apply E2 | apply E2; reflexivity]. }
    apply execFrom_captures in H.
    split; [apply H | apply H; reflexivity]. }
  destruct Hm as [W Hd].
  destruct (capture 1 m) as [[a b]|] eqn:E; [|congruence].
  exists a, b. split; [reflexivity | apply (W 1 a b E)].
Qed.

(** ** Blank lines *)

Lemma trimStart_nil (s : jsstring) : trimStart s = [] <-> blank s = true.
Proof.
  unfold blank. induction s as [|c s IH]; simpl; [tauto|].
  destruct (isWhiteSpace c); simpl; [exact IH|].
  split; discriminate.
Qed.

Lemma trimStart_head (s : jsstring) (c : ascii) (t : jsstring) :
  trimStart s = c :: t -> isWhiteSpace c = false.
Proof.
  induction s as [|x s IH]; simpl; [discriminate|].
  destruct (isWhiteSpace x) eqn:E; [exact IH|].
  intros H. injection H as <- _. exact E.
Qed.

Lemma blank_rev (s : jsstring) : blank (rev s) = blank s.
Proof.
  unfold blank. induction s as [|c s IH]; simpl; [reflexivity|].
  rewrite forallb_app, IH. simpl. rewrite andb_true_r. apply andb_comm.
Qed.

(** [l.trim()] is falsy exactly on the blank lines. *)
Lemma truthy_trim (s : jsstring) : truthy (trim s) = negb (blank s).
Proof.
  unfold trim. destruct (blank s) eqn:B.
  - rewrite (proj2 (trimStart_nil s) B). reflexivity.
  - destruct (trimStart s) as [|c t] eqn:E.
    { apply trimStart_nil in E. congruence. }
    destruct (trimStart (rev (c :: t))) as [|c' t'] eqn:E'.
    { apply trimStart_nil in E'. rewrite blank_rev in E'.
      apply trimStart_head in E. unfold blank in E'. simpl in E'.
      rewrite E in E'. discriminate. }
    destruct (rev (c' :: t')) eqn:R; [|reflexivity].
    apply (f_equal (@length ascii)) in R. rewrite length_rev in R.
    discriminate.
Qed.

Lemma forallb_pointwise {A : Type} (f g : A -> bool) (l : list A) :
  (forall x, f x = g x) -> forallb f l = forallb g l.
Proof.
  intros H. induction l as [|x l IH]; simpl; [reflexivity|].
  rewrite H, IH. reflexivity.
Qed.

Lemma hd_filter_first (f : jsstring -> bool) (l : list jsstring) :
  (exists pre post,
      l = pre ++ hd [] (filter f l) :: post
      /\ forallb (fun x => negb (f x)) pre = true
      /\ f (hd [] (filter f l)) = true)
  \/ (forallb (fun x => negb (f x)) l = true /\ hd [] (filter f l) = []).
Proof.
  induction l as [|x l IH]; simpl.
  - right. split; reflexivity.
  - destruct (f x) eqn:E; simpl.
    + left. exists [], l. repeat split. exact E.
    + destruct IH as [(pre & post & H1 & H2 & H3) | (H1 & H2)].
      * left. exists (x :: pre), post. simpl. rewrite E, H2.
        repeat split; [f_equal; exact H1 | exact H3].
      * right. split; assumption.
Qed.

Lemma firstLine_firstNonBlank (stderr : jsstring) :
  firstNonBlank (split stderr [LF]) (firstLine stderr).
Proof.
  unfold firstLine, firstNonBlank.
  destruct (hd_filter_first (fun l => truthy (trim l)) (split stderr [LF]))
    as [(pre & post & H1 & H2 & H3) | (H1 & H2)].
  - left. exists pre, post. repeat split; [exact H1 | |].
    + rewrite <- H2. apply forallb_pointwise. intros l.
      rewrite truthy_trim, negb_involutive. reflexivity.
    + rewrite truthy_trim in H3. apply negb_true_iff. exact H3.
  - right. split; [|exact H2].
    rewrite <- H1. apply forallb_pointwise. intros l.
    rewrite truthy_trim, negb_involutive. reflexivity.
Qed.

(** ** The problem signature *)

Lemma substring_length (n : nat) (s : jsstring) :
  length (substring 0 n s) <= n.
Proof.
  unfold substring. rewrite Nat.sub_0_r, length_firstn. apply Nat.le_min_l.
Qed.

(** C8.  [extractErrorSignature] returns at most 100 code units.  The
    signature is the part of stderr that group 1 captured, cut to 100,
    in the first match of [/(Error|Exception):\s*(.+?)(?:\n|$)/i], or
    else of [/(ERR_\w+)/i], or else of [/(\w+\s+error)/i]; only when
    none of the three patterns matches is it the first non-blank line
    of stderr, cut to 100.  An empty stderr gives the empty
    signature. *)
Theorem extractErrorSignature_patterns (stderr command : jsstring) :
  let signature := extractErrorSignature stderr command in
  let fromGroup (m : captures) :=
    exists a b,
      capture 1 m = Some (a, b)
      /\ a <= b <= length stderr
      /\ signature = firstn 100 (firstn (b - a) (skipn a stderr)) in
  length signature <= 100
  /\ (forall m, regexMatch stderr errorColonPattern = Some m -> fromGroup m)
  /\ (regexMatch stderr errorColonPattern = None ->
      forall m, regexMatch stderr errCodePattern = Some m -> fromGroup m)
  /\ (regexMatch stderr errorColonPattern = None ->
      regexMatch stderr errCodePattern = None ->
      forall m, regexMatch stderr wordErrorPattern = Some m -> fromGroup m)
  /\ (regexMatch stderr errorColonPattern = None ->
      regexMatch stderr errCodePattern = None ->
      regexMatch stderr wordErrorPattern = None ->
      exists line,
        firstNonBlank (split stderr [LF]) line
        /\ signature = firstn 100 line)
  /\ extractErrorSignature [] command = [].
Proof.
  intros signature fromGroup.
  assert (G : forall m, errorMatch stderr = Some m -> fromGroup m).
  { intros m Hm.
    destruct (errorMatch_group1 stderr m Hm) as (a & b & Hc & Hab).
    exists a, b. split; [exact Hc|]. split; [exact Hab|].
    unfold signature, extractErrorSignature, group, substring.
    rewrite Hm, Hc, Nat.sub_0_r. reflexivity. }
  split; [|split; [|split; [|split; [|split]]]].
  - unfold signature, extractErrorSignature.
    destruct (errorMatch stderr); apply substring_length.
  - intros m H. apply G. unfold errorMatch, orElse. rewrite H. reflexivity.
  - intros H1 m H. apply G. unfold errorMatch, orElse. rewrite H1, H.
    reflexivity.
  - intros H1 H2 m H. apply G. unfold errorMatch, orElse.
    rewrite H1, H2, H. reflexivity.
  - intros H1 H2 H3. exists (firstLine stderr).
    split; [apply firstLine_firstNonBlank|].
    unfold signature, extractErrorSignature, errorMatch, orElse, substring.
    rewrite H1, H2, H3, Nat.sub_0_r. reflexivity.
  - reflexivity.
Qed.

Lemma extractErrorSignature_patterns_witness :
  extractErrorSignature (str "bash: syntax error near token") (str "sh run")
  = firstn 100
      (firstn (18 - 6) (skipn 6 (str "bash: syntax error near token"))).
Proof.
  destruct (extractErrorSignature_patterns
              (str "bash: syntax error near token") (str "sh run"))
    as (_ & _ & _ & H & _).
  destruct (H eq_refl eq_refl _ eq_refl) as (a & b & Hc & _ & Hs).
  vm_compute in Hc. injection Hc as <- <-. exact Hs.
Defined.

(** C8 as specified does not hold: on [bash: syntax error near token]
    neither the [Error:] pattern nor the error code pattern matches,
    and the signature is [syntax error], not the first non-blank
    line. *)
Lemma extractErrorSignature_claim_fails :
  let stderr := str "bash: syntax error near token" in
  regexMatch stderr errorColonPattern = None
  /\ regexMatch stderr errCodePattern = None
  /\ claimedSignature stderr = stderr
  /\ extractErrorSignature stderr (str "sh run") = str "syntax error"
  /\ extractErrorSignature stderr (str "sh run") <> claimedSignature stderr.
Proof. vm_compute. repeat split; discriminate. Qed.

(** ** The episode table *)

Lemma filter_map_same {A : Type} (f : A -> bool) (g : A -> A) (l : list A) :
  (forall x, f (g x) = f x) -> filter f (map g l) = map g (filter f l).
Proof.
  intros H. induction l as [|x l IH]; simpl; [reflexivity|].
  rewrite H. destruct (f x); simpl; rewrite IH; reflexivity.
Qed.

Lemma sameProblem_eq (h g : jsstring) (row : EpisodeRow.t) :
  sameProblem h g row = true <->
  EpisodeRow.project_hash row = h /\ EpisodeRow.problem_summary row = g.
Proof.
  unfold sameProblem. rewrite andb_true_iff, !streqb_eq. reflexivity.
Qed.

Lemma updateEpisode_filter (id : Z) (u : EpisodeUpdates.t) (db : Database)
  (h g : jsstring) :
  filter (sameProblem h g) (episodes (updateEpisode id u db))
  = map (fun row =>
           if (EpisodeRow.id row =? id)%Z then applyUpdates u row else row)
      (filter (sameProblem h g) (episodes db)).
Proof.
  simpl. apply filter_map_same. intros row.
  destruct (EpisodeRow.id row =? id)%Z; reflexivity.
Qed.


Lemma insertRawEvents_episodes (events : list RawEvent.t) (db : Database) :
  episodes (insertRawEvents events db) = episodes db.
Proof.
  unfold insertRawEvents. revert db.
  induction events as [|e events IH]; intros db; simpl; [reflexivity|].
  rewrite IH. reflexivity.
Qed.

Lemma findSimilarEpisode_None (h g : jsstring) (db : Database) :
  findSimilarEpisode h g db = None ->
  filter (sameProblem h g) (episodes db) = [].
Proof.
  unfold findSimilarEpisode.
  destruct (filter (sameProblem h g) (episodes db)); [reflexivity|discriminate].
Qed.



Section ExtractionProperties.
Context {P : Platform}.





End ExtractionProperties.

(** ** The fix sequence *)

Lemma fixSequenceOf_amended (following : list RawEvent.t) :
  fixSequenceOf following = amendedFixSequence following.
Proof.
  unfold fixSequenceOf, fixCommandsOf, amendedFixSequence.
  change (fun e : RawEvent.t => (RawEvent.exit_code e =? 0)%Z) with succeeded.
  destruct (firstn 5 (map RawEvent.command (filter succeeded following)))
    as [|c1 [|c2 r]]; [reflexivity | destruct c1; reflexivity |].
  destruct c1; reflexivity.
Qed.

Lemma filter_none {A : Type} (f : A -> bool) (l : list A) :
  existsb f l = false -> filter f l = [].
Proof.
  induction l as [|x l IH]; simpl; [reflexivity|].
  destruct (f x); simpl; [discriminate | exact IH].
Qed.

(** ** The raw event table *)

Lemma contentOf_insertRawEvent (e : RawEvent.t) (db : Database) :
  map contentOf (raw_events (snd (insertRawEvent e db)))
  = map contentOf (raw_events db) ++ [contentOf e].
Proof. simpl. rewrite map_app. reflexivity. Qed.

Lemma contentOf_insertRawEvents (events : list RawEvent.t) (db : Database) :
  map contentOf (raw_events (insertRawEvents events db))
  = map contentOf (raw_events db) ++ map contentOf events.
Proof.
  unfold insertRawEvents. revert db.
  induction events as [|e events IH]; intros db; cbn [fold_left map].
  - rewrite app_nil_r. reflexivity.
  - rewrite IH, contentOf_insertRawEvent, <- app_assoc. reflexivity.
Qed.

Lemma contentOf_linked (id : option Z) (events : list RawEvent.t) :
  map contentOf (map (rawOfRawEvent id) events) = map (rawOfRawEvent id) events.
Proof. rewrite map_map. reflexivity. Qed.

Lemma insertSorted_In {A : Type} (before : A -> A -> bool) (x y : A)
  (l : list A) :
  In x (insertSorted before y l) <-> x = y \/ In x l.
Proof.
  induction l as [|z l IH]; simpl.
  - intuition congruence.
  - destruct (before z y); simpl; rewrite ?IH; intuition congruence.
Qed.

Lemma stableSort_In {A : Type} (before : A -> A -> bool) (x : A) (l : list A) :
  In x (stableSort before l) <-> In x l.
Proof.
  unfold stableSort. induction l as [|y l IH]; simpl; [tauto|].
  rewrite insertSorted_In, IH. intuition congruence.
Qed.

Section EventProperties.
Context {P : Platform}.

(** What a call of [extractEpisode] does to the raw event table. *)
Lemma extractEpisode_raw_events (now : Z) (event : TerminalEvent.t)
  (following : list RawEvent.t) (db : Database) :
  let out := extractEpisode now event following db in
  match fst out with
  | Some episode =>
    exists id,
      Episode.id episode = Some id
      /\ map contentOf (raw_events (snd out))
         = map contentOf (raw_events db)
           ++ rawOfTerminalEvent (Some id) event
              :: map (rawOfRawEvent (Some id)) following
  | None => raw_events (snd out) = raw_events db
  end.
Proof.
  unfold extractEpisode.
  destruct following as [|f following]; [reflexivity|].
  destruct (findSimilarEpisode _ _ db) as [existing|].
  - destruct (Episode.id existing); reflexivity.
  - cbv zeta.
    match goal with
    | |- context [insertEpisode ?e db] => generalize e; intros episode
    end.
    cbv beta iota zeta delta [insertEpisode fst snd].
    eexists. split; [reflexivity|].
    rewrite contentOf_insertRawEvents. cbn [raw_events].
    change (map contentOf (?x :: map ?g ?l))
      with (contentOf x :: map contentOf (map g l)).
    rewrite (contentOf_linked _ (f :: following)). reflexivity.
Qed.

(** C4 (as the code has it).  When events follow the error and no
    episode has its project identity and signature, [extractEpisode]
    creates an episode and appends its row to the table.  Its fix
    sequence joins, in order, the first five commands of the following
    events with exit code 0; the sentinel stands in when that joined
    string is empty, that is when no event has exit code 0 or the only
    command is empty.  Three successful commands give the three
    commands joined in order. *)
Theorem extractEpisode_fix_sequence (now : Z) (errorEvent : TerminalEvent.t)
  (following : list RawEvent.t) (db : Database) :
  following <> [] ->
  findSimilarEpisode
    (hashProjectPath (TerminalEvent.cwd errorEvent))
    (extractErrorSignature (TerminalEvent.stderr errorEvent)
       (TerminalEvent.command errorEvent)) db
  = None ->
  let out := extractEpisode now errorEvent following db in
  exists episode id row,
    fst out = Some episode
    /\ Episode.id episode = Some id
    /\ Episode.fix_sequence episode = amendedFixSequence following
    /\ episodes (snd out) = episodes db ++ [row]
    /\ EpisodeRow.id row = id
    /\ EpisodeRow.fix_sequence row = amendedFixSequence following
    /\ (existsb succeeded following = false ->
        Episode.fix_sequence episode = str "Unknown fix")
    /\ (forall c1 c2 c3 : jsstring,
          map RawEvent.command (filter succeeded following) = [c1; c2; c3] ->
          Episode.fix_sequence episode
          = c1 ++ str " && " ++ c2 ++ str " && " ++ c3).
Proof.
  intros Hne Hfind out. subst out. unfold extractEpisode.
  destruct following as [|f following]; [congruence|].
  rewrite Hfind. cbv zeta.
  set (fs := f :: following).
  assert (Hfix : forall e,
             Episode.fix_sequence
               match generateEpisodeEmbedding (newEpisode now errorEvent fs)
               with
               | Some embedding =>
                 withEmbedding (newEpisode now errorEvent fs) (Some embedding)
               | None => newEpisode now errorEvent fs
               end = e -> e = amendedFixSequence fs).
  { intros e <-. rewrite <- fixSequenceOf_amended.
    destruct (generateEpisodeEmbedding _); reflexivity. }
  match goal with
  | |- context [insertEpisode ?e db] => set (episode := e) in *
  end.
  simpl.
  exists (withId episode (episodes_seq db + 1)%Z), (episodes_seq db + 1)%Z.
  eexists. rewrite insertRawEvents_episodes. simpl.
  pose proof (Hfix _ eq_refl) as Hf.
  repeat split; try exact Hf.
  - intros Hnone. change (existsb succeeded fs = false) in Hnone.
    rewrite Hf. unfold amendedFixSequence.
    rewrite (filter_none _ _ Hnone). reflexivity.
  - intros c1 c2 c3 H3.
    change (map RawEvent.command (filter succeeded fs) = [c1; c2; c3]) in H3.
    rewrite Hf. unfold amendedFixSequence.
    rewrite H3. simpl. destruct c1; reflexivity.
Qed.

(** C10.  [processEvent] first appends a raw event record without
    episode for the event, whatever the event is.  For a non-error
    event nothing else is appended.  When a new episode comes out, the
    records appended after it are the event again, linked to the new
    episode, and a linked copy of each following event; and each
    following event was read from the table, where its own record
    stays. *)
Theorem processEvent_raw_events (now1 now2 : Z) (event : TerminalEvent.t)
  (db : Database) :
  let out := processEvent now1 now2 event db in
  let db1 := snd (insertRawEvent (rawOfTerminalEvent None event) db) in
  let following :=
    followingEventsOf event
      (getRecentEventsForDirectory (TerminalEvent.cwd event)
         (now1 - 5 * 60 * 1000)%Z db1) in
  (exists rest,
      map contentOf (raw_events (snd out))
      = map contentOf (raw_events db) ++ rawOfTerminalEvent None event :: rest
      /\ (isError (TerminalEvent.stderr event) (TerminalEvent.exit_code event)
          = false -> rest = [] /\ fst out = None)
      /\ (forall episode,
            fst out = Some episode ->
            exists id,
              Episode.id episode = Some id
              /\ rest = rawOfTerminalEvent (Some id) event
                        :: map (rawOfRawEvent (Some id)) following))
  /\ (forall f, In f following -> In f (raw_events db)).
Proof.
  intros out db1 following. split.
  - subst out. unfold processEvent. fold db1.
    destruct (isError _ _) eqn:E; simpl negb; cbv iota.
    + fold following.
      pose proof (extractEpisode_raw_events now2 event following db1) as H.
      cbv zeta in H.
      destruct (fst (extractEpisode now2 event following db1))
        as [episode|] eqn:Eout.
      * destruct H as (id & Hid & Hraw).
        exists (rawOfTerminalEvent (Some id) event
                :: map (rawOfRawEvent (Some id)) following).
        split; [|split].
        -- rewrite Hraw. unfold db1.
           rewrite contentOf_insertRawEvent, <- app_assoc. reflexivity.
        -- discriminate.
        -- intros episode' Heq. injection Heq as <-.
           exists id. split; [exact Hid | reflexivity].
      * exists []. split; [|split].
        -- rewrite H. unfold db1.
           rewrite contentOf_insertRawEvent. reflexivity.
        -- discriminate.
        -- discriminate.
    + exists []. split; [|split].
      * unfold db1. cbn [snd]. rewrite contentOf_insertRawEvent. reflexivity.
      * intros _. split; reflexivity.
      * discriminate.
  - intros f Hf. subst following. unfold followingEventsOf in Hf.
    apply stableSort_In, filter_In in Hf. destruct Hf as [Hf Hts].
    unfold getRecentEventsForDirectory in Hf.
    apply stableSort_In, filter_In in Hf. destruct Hf as [Hf _].
    unfold db1 in Hf. simpl in Hf. apply in_app_or in Hf.
    destruct Hf as [Hf | [<- | []]]; [exact Hf|].
    simpl in Hts. apply Z.ltb_lt in Hts. lia.
Qed.

End EventProperties.

(** ** Concrete runs of the extraction *)


Lemma extractEpisode_fix_sequence_witness :
  option_map Episode.fix_sequence
    (fst (extractEpisode (P := samplePlatform) 5000 sampleError
            [sampleFollowing 1100 "npm install" 0;
             sampleFollowing 1200 "npm run build" 0;
             sampleFollowing 1300 "npm start" 0]
            emptyDatabase))
  = Some (str "npm install && npm run build && npm start").
Proof.
  destruct
    (extractEpisode_fix_sequence (P := samplePlatform) 5000 sampleError
       [sampleFollowing 1100 "npm install" 0;
        sampleFollowing 1200 "npm run build" 0;
        sampleFollowing 1300 "npm start" 0]
       emptyDatabase ltac:(discriminate) eq_refl)
    as (episode & id & row & H1 & _ & _ & _ & _ & _ & _ & H3).
  rewrite H1. simpl. rewrite (H3 _ _ _ eq_refl). reflexivity.
Defined.

(** C4 as specified does not hold when the one successful command is
    empty: an event has exit code 0, the joined string is empty, and
    the code stores the sentinel. *)
Lemma fix_sequence_claim_fails :
  let following := [sampleFollowing 1100 "" 0] in
  let out :=
    extractEpisode (P := samplePlatform) 5000 sampleError following
      emptyDatabase in
  following <> []
  /\ existsb succeeded following = true
  /\ claimedFixSequence following = str ""
  /\ option_map Episode.fix_sequence (fst out) = Some (str "Unknown fix")
  /\ option_map Episode.fix_sequence (fst out)
     <> Some (claimedFixSequence following).
Proof. vm_compute. repeat split; discriminate. Qed.

Lemma processEvent_raw_events_witness :
  exists id,
    map contentOf
      (raw_events
         (snd (processEvent (P := samplePlatform) 1200 1200 sampleError
                 sampleLog)))
    = map contentOf (raw_events sampleLog)
      ++ [ rawOfTerminalEvent None sampleError;
           rawOfTerminalEvent (Some id) sampleError;
           rawOfTerminalEvent (Some id) sampleSuccess ].
Proof.
  destruct
    (processEvent_raw_events (P := samplePlatform) 1200 1200 sampleError
       sampleLog) as [(rest & H1 & _ & H3) _].
  destruct (H3 _ eq_refl) as (id & _ & Hrest).
  exists id. rewrite H1, Hrest. reflexivity.
Defined.

(** ** Ranking *)

Lemma stableSort_nil {A : Type} (before : A -> A -> bool) (l : list A) :
  stableSort before l = [] -> l = [].
Proof.
  destruct l as [|x l]; [reflexivity|]. unfold stableSort. simpl.
  destruct (fold_right (insertSorted before) [] l) as [|y r]; simpl;
    [discriminate|].
  destruct (before y x); discriminate.
Qed.

Lemma reaches_iff (r : RetrievalResult.t) :
  reaches r = true <-> (0.75 <= RetrievalResult.confidence r)%Q.
Proof. unfold reaches. apply Qle_bool_iff. Qed.

Section RetrievalProperties.
Context {P : Platform}.

Lemma retrieveSimilarEpisodes_scored (context : RetrievalContext.t)
  (maxResults : nat) (db : Database) :
  retrieveSimilarEpisodes context maxResults db
  = firstn maxResults
      (stableSort confidenceBefore
         (filter reaches (scoredCandidates context db))).
Proof.
  unfold retrieveSimilarEpisodes, scoredCandidates.
  destruct (getEpisodesByProject _ db); [|reflexivity].
  destruct maxResults; reflexivity.
Qed.

End RetrievalProperties.

(** ** Concrete runs *)

Example signature_of_error_colon :
  extractErrorSignature (str "TypeError: x is not a function") (str "node app")
  = str "Error".
Proof. reflexivity. Qed.

Example signature_of_error_code :
  extractErrorSignature (str "code ERR_MODULE_NOT_FOUND, abort") (str "node app")
  = str "ERR_MODULE_NOT_FOUND".
Proof. reflexivity. Qed.

Example signature_of_word_error :
  extractErrorSignature (str "bash: syntax error near token") (str "sh run")
  = str "syntax error".
Proof. reflexivity. Qed.

Example signature_of_first_line :
  extractErrorSignature (LF :: str "  ENOENT: no such file" ++ LF :: str "at x")
    (str "npm start")
  = str "  ENOENT: no such file".
Proof. reflexivity. Qed.

Example split_ws_of_empty : split_ws (str "") = [str ""].
Proof. reflexivity. Qed.

Example textSimilarity_of_leading_space :
  (textSimilarity (str " a") (str " b") == 1 # 3)%Q.
Proof. reflexivity. Qed.

Example textSimilarity_of_overlap :
  (textSimilarity (str "a b c") (str "B c d") == 1 # 2)%Q.
Proof. reflexivity. Qed.

Example confidence_without_project_match :
  (calculateConfidence 0.9 false 0.4 == 0.53)%Q.
Proof. reflexivity. Qed.

Example ToUint8_of_fractions :
  map ToUint8 [0.6; 0.8; -1.5; 255.9; 256]%Q = [0; 0; 255; 255; 0]%Z.
Proof. reflexivity. Qed.

(** * Further properties *)

(** ** Sorting *)

Lemma insertSorted_perm {A : Type} (before : A -> A -> bool) (x : A)
  (l : list A) : Permutation (insertSorted before x l) (x :: l).
Proof.
  induction l as [|y l IH]; simpl; [reflexivity|].
  destruct (before y x); [|reflexivity].
  rewrite IH. apply perm_swap.
Qed.

Lemma stableSort_perm {A : Type} (before : A -> A -> bool) (l : list A) :
  Permutation (stableSort before l) l.
Proof.
  unfold stableSort. induction l as [|x l IH]; simpl; [reflexivity|].
  rewrite insertSorted_perm, IH. reflexivity.
Qed.

Lemma stableSort_length {A : Type} (before : A -> A -> bool) (l : list A) :
  length (stableSort before l) = length l.
Proof. apply Permutation_length, stableSort_perm. Qed.

Section SortedByKey.
Variable A : Type.
Variable key : A -> Z.

(** Sorting on an integer key, largest first or smallest first. *)
Lemma insertSorted_descending (x : A) (l : list A) :
  StronglySorted (fun a b => (key b <= key a)%Z) l ->
  StronglySorted (fun a b => (key b <= key a)%Z)
    (insertSorted (fun y x => (key x <? key y)%Z) x l).
Proof.
  induction 1 as [|y l Hl IH Hy]; simpl.
  - repeat constructor.
  - destruct (key x <? key y)%Z eqn:E.
    + apply Z.ltb_lt in E. constructor; [exact IH|].
      apply Forall_forall. intros z Hz.
      apply (Permutation_in _ (insertSorted_perm _ x l)) in Hz.
      destruct Hz as [<- | Hz]; [lia|].
      rewrite Forall_forall in Hy. apply Hy. exact Hz.
    + apply Z.ltb_ge in E. constructor; [constructor; assumption|].
      constructor; [exact E|].
      rewrite Forall_forall in *. intros z Hz. specialize (Hy z Hz). lia.
Qed.

Lemma stableSort_descending (l : list A) :
  StronglySorted (fun a b => (key b <= key a)%Z)
    (stableSort (fun y x => (key x <? key y)%Z) l).
Proof.
  unfold stableSort. induction l as [|x l IH]; simpl; [constructor|].
  apply insertSorted_descending. exact IH.
Qed.

Lemma insertSorted_ascending (x : A) (l : list A) :
  StronglySorted (fun a b => (key a <= key b)%Z) l ->
  StronglySorted (fun a b => (key a <= key b)%Z)
    (insertSorted (fun y x => (key y <? key x)%Z) x l).
Proof.
  induction 1 as [|y l Hl IH Hy]; simpl.
  - repeat constructor.
  - destruct (key y <? key x)%Z eqn:E.
    + apply Z.ltb_lt in E. constructor; [exact IH|].
      apply Forall_forall. intros z Hz.
      apply (Permutation_in _ (insertSorted_perm _ x l)) in Hz.
      destruct Hz as [<- | Hz]; [lia|].
      rewrite Forall_forall in Hy. apply Hy. exact Hz.
    + apply Z.ltb_ge in E. constructor; [constructor; assumption|].
      constructor; [exact E|].
      rewrite Forall_forall in *. intros z Hz. specialize (Hy z Hz). lia.
Qed.

Lemma stableSort_ascending (l : list A) :
  StronglySorted (fun a b => (key a <= key b)%Z)
    (stableSort (fun y x => (key y <? key x)%Z) l).
Proof.
  unfold stableSort. induction l as [|x l IH]; simpl; [constructor|].
  apply insertSorted_ascending. exact IH.
Qed.

End SortedByKey.

Lemma StronglySorted_map {A B : Type} (R : B -> B -> Prop) (f : A -> B)
  (l : list A) :
  StronglySorted (fun a b => R (f a) (f b)) l -> StronglySorted R (map f l).
Proof.
  induction 1 as [|x l Hl IH Hx]; simpl; constructor; [exact IH|].
  apply Forall_forall. intros y Hy. apply in_map_iff in Hy.
  destruct Hy as (z & <- & Hz). rewrite Forall_forall in Hx. apply Hx, Hz.
Qed.

Lemma firstn_In {A : Type} (n : nat) (l : list A) (x : A) :
  In x (firstn n l) -> In x l.
Proof.
  intros H. rewrite <- (firstn_skipn n l). apply in_or_app. left. exact H.
Qed.

Lemma StronglySorted_firstn {A : Type} (R : A -> A -> Prop) (n : nat)
  (l : list A) : StronglySorted R l -> StronglySorted R (firstn n l).
Proof.
  intros H. revert n. induction H as [|x l Hl IH Hx]; intros [|n]; simpl;
    try constructor; [apply IH|].
  apply Forall_forall. intros y Hy. rewrite Forall_forall in Hx.
  apply Hx. eapply firstn_In. exact Hy.
Qed.

(** ** Sets of words *)

Lemma setAdd_In (acc l : list jsstring) (x : jsstring) :
  In x (setAdd acc l) <-> In x acc \/ In x l.
Proof.
  revert acc. induction l as [|y l IH]; intros acc; simpl; [tauto|].
  rewrite IH. destruct (has acc y) eqn:E.
  - apply has_In in E. intuition (subst; auto).
  - rewrite in_app_iff. simpl. intuition (subst; auto).
Qed.

Lemma newSet_In (l : list jsstring) (x : jsstring) :
  In x (newSet l) <-> In x l.
Proof. unfold newSet. rewrite setAdd_In. simpl. tauto. Qed.

Lemma NoDup_same_length (l1 l2 : list jsstring) :
  NoDup l1 -> NoDup l2 -> (forall x, In x l1 <-> In x l2) ->
  length l1 = length l2.
Proof.
  intros H1 H2 H. apply Nat.le_antisymm; apply NoDup_incl_length;
    try assumption; intros x Hx; apply H; exact Hx.
Qed.

Lemma NoDup_filter_words (f : jsstring -> bool) (l : list jsstring) :
  NoDup l -> NoDup (filter f l).
Proof.
  induction 1 as [|x l Hx Hl IH]; simpl; [constructor|].
  destruct (f x); [|exact IH].
  constructor; [|exact IH]. intros H. apply filter_In in H. tauto.
Qed.

(** ** Textual similarity, bounds and symmetry *)

Lemma size_nonneg (w : list jsstring) : (0 <= size w)%Q.
Proof. unfold size, Qle. simpl. lia. Qed.

Lemma size_le (w1 w2 : list jsstring) :
  length w1 <= length w2 -> (size w1 <= size w2)%Q.
Proof. intros H. unfold size, Qle. simpl. lia. Qed.

Lemma size_pos (w : list jsstring) : 0 < length w -> (0 < size w)%Q.
Proof. intros H. unfold size, Qlt. simpl. lia. Qed.

Lemma textSimilarity_range_le (text1 text2 : jsstring) :
  (textSimilarity text1 text2 <= 1)%Q.
Proof.
  unfold textSimilarity.
  set (w1 := newSet (split_ws (toLowerCase text1))).
  set (w2 := newSet (split_ws (toLowerCase text2))).
  assert (N1 : NoDup w1) by apply newSet_NoDup.
  assert (L1 : 0 < length w1) by (apply newSet_nonempty, splitWs_nonempty).
  rewrite (newSet_idem _ (NoDup_filter_words (has w2) w1 N1)).
  apply Qle_shift_div_r.
  - apply size_pos. eapply Nat.lt_le_trans; [exact L1|].
    apply NoDup_incl_length; [exact N1|].
    intros x Hx. apply newSet_In, in_or_app. left. exact Hx.
  - rewrite Qmult_1_l. apply size_le.
    apply NoDup_incl_length; [apply NoDup_filter_words; exact N1|].
    intros x Hx. apply filter_In in Hx.
    apply newSet_In, in_or_app. left. tauto.
Qed.

(** X1.  [textSimilarity] lies between 0 and 1 and does not depend on
    the order of its arguments. *)
Theorem textSimilarity_bounds (text1 text2 : jsstring) :
  (0 <= textSimilarity text1 text2 <= 1)%Q
  /\ textSimilarity text1 text2 = textSimilarity text2 text1.
Proof.
  unfold textSimilarity.
  set (w1 := newSet (split_ws (toLowerCase text1))).
  set (w2 := newSet (split_ws (toLowerCase text2))).
  assert (N1 : NoDup w1) by apply newSet_NoDup.
  assert (N2 : NoDup w2) by apply newSet_NoDup.
  assert (L1 : 0 < length w1) by (apply newSet_nonempty, splitWs_nonempty).
  rewrite (newSet_idem _ (NoDup_filter_words (has w2) w1 N1)).
  rewrite (newSet_idem _ (NoDup_filter_words (has w1) w2 N2)).
  assert (Hu : 0 < length (newSet (w1 ++ w2))).
  { eapply Nat.lt_le_trans; [exact L1|].
    apply NoDup_incl_length; [exact N1|].
    intros x Hx. apply newSet_In, in_or_app. left. exact Hx. }
  assert (Hi : length (filter (has w2) w1) <= length (newSet (w1 ++ w2))).
  { apply NoDup_incl_length; [apply NoDup_filter_words; exact N1|].
    intros x Hx. apply filter_In in Hx.
    apply newSet_In, in_or_app. left. tauto. }
  split; [split|].
  - apply Qle_shift_div_l; [apply size_pos; exact Hu|].
    rewrite Qmult_0_l. apply size_nonneg.
  - apply Qle_shift_div_r; [apply size_pos; exact Hu|].
    rewrite Qmult_1_l. apply size_le. exact Hi.
  - assert (Ei : length (filter (has w2) w1) = length (filter (has w1) w2)).
    { apply NoDup_same_length; try (apply NoDup_filter_words; assumption).
      intros x. rewrite !filter_In, !has_In. tauto. }
    assert (Eu : length (newSet (w1 ++ w2)) = length (newSet (w2 ++ w1))).
    { apply NoDup_same_length; try apply newSet_NoDup.
      intros x. rewrite !newSet_In, !in_app_iff. tauto. }
    unfold size. rewrite Ei, Eu. reflexivity.
Qed.

(** ** Bytes of an embedding *)

Lemma ToUint8_range (x : Q) : (0 <= ToUint8 x < 256)%Z.
Proof. unfold ToUint8. apply Z.mod_pos_bound. lia. Qed.

Lemma ToUint8_small (x : Q) : (-1 < x)%Q -> (x < 1)%Q -> ToUint8 x = 0%Z.
Proof.
  destruct x as [n d]. unfold Qlt, ToUint8. simpl. intros H1 H2.
  assert (E : (n ÷ Z.pos d = 0)%Z) by (apply Z.quot_small_iff; lia).
  rewrite E. reflexivity.
Qed.

Lemma ToUint8_integer (n : Z) (x : Q) :
  (0 <= n < 256)%Z -> (x == inject_Z n)%Q -> ToUint8 x = n.
Proof.
  destruct x as [m d]. unfold Qeq, ToUint8. simpl. intros Hn E.
  rewrite Z.mul_1_r in E. subst m.
  rewrite Z.quot_mul by lia. apply Z.mod_small. exact Hn.
Qed.

(** X3.  What the embedding column does to one component [x]: the
    number read back is an integer from 0 to 255, it is 0 whenever
    [-1 < x < 1], and it equals [x] exactly when [x] is itself an
    integer from 0 to 255. *)
Theorem embedding_component_readback (x : Q) :
  (exists n : Z, (0 <= n < 256)%Z /\ readBack x = inject_Z n)
  /\ ((-1 < x)%Q -> (x < 1)%Q -> readBack x = 0%Q)
  /\ ((readBack x == x)%Q <->
      exists n : Z, (0 <= n < 256)%Z /\ (x == inject_Z n)%Q).
Proof.
  unfold readBack. split; [|split].
  - exists (ToUint8 x). split; [apply ToUint8_range | reflexivity].
  - intros H1 H2. rewrite (ToUint8_small x H1 H2). reflexivity.
  - split.
    + intros H. exists (ToUint8 x).
      split; [apply ToUint8_range | symmetry; exact H].
    + intros (n & Hn & E). rewrite (ToUint8_integer n x Hn E).
      symmetry. exact E.
Qed.

Lemma embedding_component_readback_witness : readBack 0.37 = 0%Q.
Proof.
  apply (embedding_component_readback 0.37); unfold Qlt; simpl; lia.
Defined.

(** ** Insert and look up *)

Lemma sameProblem_refl (row : EpisodeRow.t) :
  sameProblem (EpisodeRow.project_hash row) (EpisodeRow.problem_summary row) row
  = true.
Proof. unfold sameProblem. rewrite !streqb_refl. reflexivity. Qed.

Lemma Database_eta (db : Database) :
  mkDatabase (episodes db) (episodes_seq db) (raw_events db) (raw_events_seq db)
  = db.
Proof. destruct db; reflexivity. Qed.

Lemma rowToEpisode_inserted (e : Episode.t) (db : Database) :
  exists row,
    episodes (snd (insertEpisode e db)) = episodes db ++ [row]
    /\ rowToEpisode row = stored e (episodes_seq db + 1)
    /\ EpisodeRow.project_hash row = Episode.project_hash e
    /\ EpisodeRow.problem_summary row = Episode.problem_summary e.
Proof.
  eexists. split; [reflexivity|]. repeat split.
  unfold rowToEpisode, stored, withId, withEmbedding, embeddingToBlob, readBack.
  simpl. destruct (Episode.embedding e); simpl; [rewrite map_map|]; reflexivity.
Qed.

(** X4.  An episode inserted under a (project, signature) pair that the
    table did not hold gets the next id and is what
    [findSimilarEpisode] then returns for the pair, with every field
    as given except the embedding, whose components went through the
    bytes of the BLOB; [getEpisodesByProject] lists it; the look-up of
    every other pair is unchanged. *)
Theorem insertEpisode_lookup (e : Episode.t) (db : Database) :
  findSimilarEpisode (Episode.project_hash e) (Episode.problem_summary e) db
  = None ->
  let id := fst (insertEpisode e db) in
  let db' := snd (insertEpisode e db) in
  id = (episodes_seq db + 1)%Z
  /\ findSimilarEpisode (Episode.project_hash e) (Episode.problem_summary e) db'
     = Some (stored e id)
  /\ In (stored e id) (getEpisodesByProject (Episode.project_hash e) db')
  /\ (forall h g,
        ~ (h = Episode.project_hash e /\ g = Episode.problem_summary e) ->
        findSimilarEpisode h g db' = findSimilarEpisode h g db).
Proof.
  intros Hnone id db'. subst id db'.
  destruct (rowToEpisode_inserted e db) as (row & Hrows & Hrow & Hh & Hg).
  split; [reflexivity|]. split; [|split].
  - unfold findSimilarEpisode. rewrite Hrows, filter_app.
    rewrite (findSimilarEpisode_None _ _ _ Hnone). simpl.
    rewrite <- Hh, <- Hg, sameProblem_refl, Hrow. reflexivity.
  - unfold getEpisodesByProject. apply in_map_iff. exists row.
    split; [exact Hrow|]. apply stableSort_In, filter_In.
    split; [rewrite Hrows; apply in_or_app; right; left; reflexivity|].
    rewrite Hh. apply streqb_refl.
  - intros h g Hne. unfold findSimilarEpisode. rewrite Hrows, filter_app.
    simpl. destruct (sameProblem h g row) eqn:E.
    + apply sameProblem_eq in E. rewrite Hh, Hg in E.
      destruct E as [<- <-]. tauto.
    + rewrite app_nil_r. reflexivity.
Qed.

Lemma insertEpisode_lookup_witness :
  findSimilarEpisode (str "/work/app") (str "ENOENT: no such file")
    (snd (insertEpisode (sampleEpisode (Some [3; 0.5]%Q)) emptyDatabase))
  = Some (stored (sampleEpisode (Some [3; 0.5]%Q)) 1).
Proof.
  apply (insertEpisode_lookup (sampleEpisode (Some [3; 0.5]%Q)) emptyDatabase).
  reflexivity.
Defined.

(** X5.  [updateEpisode] changes nothing when no row has the id or when
    the update names no field; in every case it keeps the number of
    rows, their ids, the raw events and both counters. *)
Theorem updateEpisode_no_effect (id : Z) (u : EpisodeUpdates.t)
  (db : Database) :
  ((forall row, In row (episodes db) -> EpisodeRow.id row <> id) ->
   updateEpisode id u db = db)
  /\ updateEpisode id (EpisodeUpdates.mk None None None) db = db
  /\ map EpisodeRow.id (episodes (updateEpisode id u db))
     = map EpisodeRow.id (episodes db)
  /\ raw_events (updateEpisode id u db) = raw_events db
  /\ episodes_seq (updateEpisode id u db) = episodes_seq db
  /\ raw_events_seq (updateEpisode id u db) = raw_events_seq db.
Proof.
  unfold updateEpisode. repeat split.
  - intros H. rewrite <- (Database_eta db) at 5. f_equal.
    rewrite <- (map_id (episodes db)) at 2. apply map_ext_in.
    intros row Hrow. destruct (EpisodeRow.id row =? id)%Z eqn:E;
      [|reflexivity].
    apply Z.eqb_eq in E. apply H in Hrow. contradiction.
  - rewrite <- (Database_eta db) at 5. f_equal.
    rewrite <- (map_id (episodes db)) at 2. apply map_ext.
    intros row. destruct (EpisodeRow.id row =? id)%Z; [|reflexivity].
    destruct row; reflexivity.
  - simpl. rewrite map_map. apply map_ext. intros row.
    destruct (EpisodeRow.id row =? id)%Z; reflexivity.
Qed.

Lemma updateEpisode_no_effect_witness :
  updateEpisode 7 (EpisodeUpdates.mk (Some 9000%Z) (Some 5%Z) None)
    sampleDatabase
  = sampleDatabase.
Proof.
  apply (updateEpisode_no_effect 7). intros row [<- | []]. discriminate.
Defined.

(** ** Clearing a project *)

Lemma filter_filter_neg {A : Type} (f : A -> bool) (l : list A) :
  filter f (filter (fun x => negb (f x)) l) = [].
Proof.
  induction l as [|x l IH]; simpl; [reflexivity|].
  destruct (f x) eqn:E; simpl; [exact IH | rewrite E; exact IH].
Qed.

Lemma filter_filter_other {A : Type} (f g : A -> bool) (l : list A) :
  (forall x, f x = true -> g x = true) ->
  filter f (filter g l) = filter f l.
Proof.
  intros H. induction l as [|x l IH]; simpl; [reflexivity|].
  destruct (g x) eqn:E; simpl; [rewrite IH; reflexivity|].
  destruct (f x) eqn:F; [|exact IH].
  apply H in F. congruence.
Qed.

(** X6.  After [clearProject h] the project has no episode left:
    [getEpisodesByProject h] is empty and [findSimilarEpisode h] finds
    nothing.  The episodes of every other project are read as before.
    The raw events, the links they carry and both id counters are
    kept, so ids are not reused. *)
Theorem clearProject_spec (h : jsstring) (db : Database) :
  getEpisodesByProject h (clearProject h db) = []
  /\ (forall g, findSimilarEpisode h g (clearProject h db) = None)
  /\ (forall h', h' <> h ->
        getEpisodesByProject h' (clearProject h db)
        = getEpisodesByProject h' db
        /\ forall g,
             findSimilarEpisode h' g (clearProject h db)
             = findSimilarEpisode h' g db)
  /\ raw_events (clearProject h db) = raw_events db
  /\ episodes_seq (clearProject h db) = episodes_seq db
  /\ raw_events_seq (clearProject h db) = raw_events_seq db.
Proof.
  split; [|split; [|split; [|repeat split]]].
  - unfold getEpisodesByProject, clearProject. simpl.
    rewrite (filter_filter_neg
               (fun row => streqb (EpisodeRow.project_hash row) h)).
    reflexivity.
  - intros g. unfold findSimilarEpisode, clearProject. simpl.
    assert (E : filter (sameProblem h g)
                  (filter (fun row =>
                             negb (streqb (EpisodeRow.project_hash row) h))
                     (episodes db)) = []).
    { generalize (episodes db). intros l.
      induction l as [|row l IH]; simpl; [reflexivity|].
      destruct (streqb (EpisodeRow.project_hash row) h) eqn:E; simpl;
        [exact IH|].
      unfold sameProblem at 1. rewrite E. simpl. exact IH. }
    rewrite E. reflexivity.
  - intros h' Hne.
    assert (K : forall row : EpisodeRow.t,
               streqb (EpisodeRow.project_hash row) h' = true ->
               negb (streqb (EpisodeRow.project_hash row) h) = true).
    { intros row E. apply streqb_eq in E. apply negb_true_iff.
      destruct (streqb (EpisodeRow.project_hash row) h) eqn:F;
        [|reflexivity].
      apply streqb_eq in F. congruence. }
    split.
    + unfold getEpisodesByProject, clearProject. simpl.
      rewrite filter_filter_other by exact K. reflexivity.
    + intros g. unfold findSimilarEpisode, clearProject. simpl.
      rewrite filter_filter_other; [reflexivity|].
      intros row E. apply K. unfold sameProblem in E.
      apply andb_true_iff in E. tauto.
Qed.

Lemma clearProject_spec_witness :
  getEpisodesByProject (str "/work/app") (clearProject (str "/tmp") sampleDatabase)
  = getEpisodesByProject (str "/work/app") sampleDatabase.
Proof.
  apply (clearProject_spec (str "/tmp") sampleDatabase). discriminate.
Defined.

(** ** Well-formed stores *)

Lemma episodeIdsFresh_insert (e : Episode.t) (db : Database) :
  episodeIdsFresh db -> episodeIdsFresh (snd (insertEpisode e db)).
Proof.
  intros (Hseq & Hnd & Hle). unfold episodeIdsFresh. simpl.
  split; [lia|]. split.
  - rewrite map_app. apply NoDup_app; [exact Hnd | repeat constructor; simpl; tauto|].
    intros i Hi [<- | []]. apply in_map_iff in Hi.
    destruct Hi as (r & Hr & Hin). apply Hle in Hin. simpl in Hr. lia.
  - intros r Hr. apply in_app_or in Hr.
    destruct Hr as [Hr | [<- | []]]; [apply Hle in Hr; lia|].
    simpl. lia.
Qed.

Lemma rawIdsFresh_insert (e : RawEvent.t) (db : Database) :
  rawIdsFresh db -> rawIdsFresh (snd (insertRawEvent e db)).
Proof.
  intros (Hseq & Hnd & Hle). unfold rawIdsFresh. simpl.
  split; [lia|]. split.
  - rewrite map_app. apply NoDup_app; [exact Hnd | repeat constructor; simpl; tauto|].
    intros i Hi [<- | []]. apply in_map_iff in Hi.
    destruct Hi as (r & Hr & Hin). apply Hle in Hin.
    destruct Hin as (id & Hid & Hr'). simpl in Hr. rewrite Hid in Hr.
    injection Hr as Hr. lia.
  - intros r Hr. apply in_app_or in Hr.
    destruct Hr as [Hr | [<- | []]].
    + apply Hle in Hr. destruct Hr as (id & Hid & Hr).
      exists id. split; [exact Hid | lia].
    + simpl. eexists. split; [reflexivity | lia].
Qed.

Lemma wellFormed_insertRawEvent (e : RawEvent.t) (db : Database) :
  wellFormed db -> wellFormed (snd (insertRawEvent e db)).
Proof.
  intros (He & Hr & Hok). split; [exact He|].
  split; [apply rawIdsFresh_insert; exact Hr | exact Hok].
Qed.

Lemma wellFormed_insertRawEvents (events : list RawEvent.t) (db : Database) :
  wellFormed db -> wellFormed (insertRawEvents events db).
Proof.
  unfold insertRawEvents. revert db.
  induction events as [|e events IH]; intros db H; cbn [fold_left];
    [exact H|].
  apply IH, wellFormed_insertRawEvent, H.
Qed.

Lemma wellFormed_insertEpisode (e : Episode.t) (db : Database) :
  wellFormed db ->
  (1 <= Episode.occurrence_count e)%Z ->
  length (Episode.project_hash e) <= 12 ->
  length (Episode.problem_summary e) <= 100 ->
  Episode.fix_sequence e <> [] ->
  wellFormed (snd (insertEpisode e db)).
Proof.
  intros (He & Hr & Hok) H1 H2 H3 H4.
  split; [apply episodeIdsFresh_insert; exact He|].
  split; [exact Hr|].
  intros row Hrow. simpl in Hrow. apply in_app_or in Hrow.
  destruct Hrow as [Hrow | [<- | []]]; [apply Hok; exact Hrow|].
  repeat split; assumption.
Qed.

Lemma wellFormed_updateEpisode (id : Z) (u : EpisodeUpdates.t) (db : Database) :
  wellFormed db ->
  (forall v, EpisodeUpdates.occurrence_count u = Some v -> (1 <= v)%Z) ->
  wellFormed (updateEpisode id u db).
Proof.
  intros ((Hseq & Hnd & Hle) & Hr & Hok) Hu.
  assert (Hids : map EpisodeRow.id (episodes (updateEpisode id u db))
                 = map EpisodeRow.id (episodes db)).
  { simpl. rewrite map_map. apply map_ext. intros row.
    destruct (EpisodeRow.id row =? id)%Z; reflexivity. }
  split; [|split; [exact Hr|]].
  - split; [exact Hseq|]. split; [rewrite Hids; exact Hnd|].
    intros row Hrow. simpl in Hrow. apply in_map_iff in Hrow.
    destruct Hrow as (r & <- & Hin). specialize (Hle r Hin).
    destruct (EpisodeRow.id r =? id)%Z; exact Hle.
  - intros row Hrow. simpl in Hrow. apply in_map_iff in Hrow.
    destruct Hrow as (r & <- & Hin). specialize (Hok r Hin).
    destruct (EpisodeRow.id r =? id)%Z; [|exact Hok].
    destruct Hok as (H1 & H2 & H3 & H4).
    repeat split; try assumption. simpl.
    destruct (EpisodeUpdates.occurrence_count u) as [v|] eqn:E;
      [apply Hu; reflexivity | exact H1].
Qed.

(** Deleting rows keeps the ids of the others distinct. *)
Lemma episode_ids_after_delete (keep : EpisodeRow.t -> bool)
  (rows : list EpisodeRow.t) :
  NoDup (map EpisodeRow.id rows) ->
  NoDup (map EpisodeRow.id (filter keep rows)).
Proof.
  intros H. induction rows as [|row rows IH]; simpl; [constructor|].
  simpl in H. apply NoDup_cons_iff in H. destruct H as [Hrow Hrows].
  destruct (keep row); simpl; [|exact (IH Hrows)].
  apply NoDup_cons; [|exact (IH Hrows)].
  intros Hin. apply Hrow. apply in_map_iff in Hin.
  destruct Hin as (other & Hid & Hin). apply filter_In in Hin.
  apply in_map_iff. exists other. tauto.
Qed.

Lemma wellFormed_clearProject (h : jsstring) (db : Database) :
  wellFormed db -> wellFormed (clearProject h db).
Proof.
  intros ((Hseq & Hnd & Hle) & Hr & Hok).
  split; [|split; [exact Hr|]].
  - split; [exact Hseq|]. split; [apply episode_ids_after_delete; exact Hnd|].
    intros row Hrow. simpl in Hrow. apply filter_In in Hrow. apply Hle. tauto.
  - intros row Hrow. simpl in Hrow. apply filter_In in Hrow. apply Hok. tauto.
Qed.

Lemma extractErrorSignature_length (stderr command : jsstring) :
  length (extractErrorSignature stderr command) <= 100.
Proof.
  unfold extractErrorSignature.
  destruct (errorMatch stderr); apply substring_length.
Qed.

Lemma fixSequenceOf_nonempty (following : list RawEvent.t) :
  fixSequenceOf following <> [].
Proof.
  unfold fixSequenceOf.
  destruct (join (str " && ") (fixCommandsOf following)); simpl; discriminate.
Qed.

Section WellFormedRuns.
Context {P : Platform}.

Lemma hashProjectPath_length (cwd : jsstring) :
  length (hashProjectPath cwd) <= 12.
Proof. apply substring_length. Qed.

(** The two cases of [extractEpisode] on a non-empty list of following
    events. *)
Lemma extractEpisode_new (now : Z) (event : TerminalEvent.t)
  (following : list RawEvent.t) (db : Database) :
  following <> [] ->
  findSimilarEpisode
    (hashProjectPath (TerminalEvent.cwd event))
    (extractErrorSignature (TerminalEvent.stderr event)
       (TerminalEvent.command event)) db = None ->
  exists episode,
    Episode.embedding episode
    = generateEpisodeEmbedding (newEpisode now event following)
    /\ withEmbedding episode None = newEpisode now event following
    /\ extractEpisode now event following db
       = (Some (withId episode (episodes_seq db + 1)),
          insertRawEvents
            (rawOfTerminalEvent (Some (episodes_seq db + 1)%Z) event
             :: map (rawOfRawEvent (Some (episodes_seq db + 1)%Z)) following)
            (snd (insertEpisode episode db))).
Proof.
  intros Hne Hfind. unfold extractEpisode.
  destruct following as [|f following]; [congruence|].
  rewrite Hfind. cbv zeta.
  exists
    match generateEpisodeEmbedding (newEpisode now event (f :: following))
    with
    | Some embedding =>
      withEmbedding (newEpisode now event (f :: following)) (Some embedding)
    | None => newEpisode now event (f :: following)
    end.
  split; [|split; [|reflexivity]];
    destruct (generateEpisodeEmbedding
                (newEpisode now event (f :: following))); reflexivity.
Qed.

Lemma extractEpisode_existing (now : Z) (event : TerminalEvent.t)
  (following : list RawEvent.t) (db : Database) (row : EpisodeRow.t)
  (rows : list EpisodeRow.t) :
  following <> [] ->
  filter
    (sameProblem (hashProjectPath (TerminalEvent.cwd event))
       (extractErrorSignature (TerminalEvent.stderr event)
          (TerminalEvent.command event))) (episodes db) = row :: rows ->
  extractEpisode now event following db
  = (None,
     updateEpisode (EpisodeRow.id row)
       (EpisodeUpdates.mk (Some now)
          (Some (EpisodeRow.occurrence_count row + 1)%Z) None) db).
Proof.
  intros Hne Hf. unfold extractEpisode, findSimilarEpisode.
  destruct following as [|f following]; [congruence|].
  rewrite Hf. reflexivity.
Qed.

Lemma wellFormed_extractEpisode (now : Z) (event : TerminalEvent.t)
  (following : list RawEvent.t) (db : Database) :
  wellFormed db -> wellFormed (snd (extractEpisode now event following db)).
Proof.
  intros H. destruct following as [|f following]; [exact H|].
  destruct (filter
              (sameProblem (hashProjectPath (TerminalEvent.cwd event))
                 (extractErrorSignature (TerminalEvent.stderr event)
                    (TerminalEvent.command event))) (episodes db))
    as [|row rows] eqn:Ef.
  - assert (Hnone : findSimilarEpisode
                      (hashProjectPath (TerminalEvent.cwd event))
                      (extractErrorSignature (TerminalEvent.stderr event)
                         (TerminalEvent.command event)) db = None)
      by (unfold findSimilarEpisode; rewrite Ef; reflexivity).
    destruct (extractEpisode_new now event (f :: following) db
                ltac:(discriminate) Hnone) as (episode & _ & Hep & ->).
    cbn [snd]. apply wellFormed_insertRawEvents.
    assert (K : forall (B : Type) (g : Episode.t -> B),
               (forall e v, g (withEmbedding e v) = g e) ->
               g episode = g (newEpisode now event (f :: following))).
    { intros B g Hg. rewrite <- Hep. symmetry. apply Hg. }
    apply wellFormed_insertEpisode; [exact H | | | |].
    + rewrite (K _ Episode.occurrence_count) by reflexivity. simpl. lia.
    + rewrite (K _ Episode.project_hash) by reflexivity.
      apply hashProjectPath_length.
    + rewrite (K _ Episode.problem_summary) by reflexivity.
      apply extractErrorSignature_length.
    + rewrite (K _ Episode.fix_sequence) by reflexivity.
      apply fixSequenceOf_nonempty.
  - rewrite (extractEpisode_existing now event (f :: following) db row rows
               ltac:(discriminate) Ef).
    cbn [snd]. apply wellFormed_updateEpisode; [exact H|].
    intros v Hv. injection Hv as <-.
    assert (Hin : In row (episodes db)).
    { eapply (proj1 (filter_In _ _ _)). rewrite Ef. left. reflexivity. }
    destruct H as (_ & _ & Hok). destruct (Hok row Hin) as (H1 & _). lia.
Qed.

Lemma wellFormed_processEvent (now1 now2 : Z) (event : TerminalEvent.t)
  (db : Database) :
  wellFormed db -> wellFormed (snd (processEvent now1 now2 event db)).
Proof.
  intros H. unfold processEvent.
  destruct (negb (isError _ _));
    [|apply wellFormed_extractEpisode];
    apply wellFormed_insertRawEvent, H.
Qed.

(** X7.  In every database the program builds from the empty one
    ([processEvent], [extractEpisode], [clearProject]): episode ids and
    raw event ids are positive, distinct and at most the counter of
    their table; every episode has an occurrence count of at least 1,
    a project identity of at most 12 code units, a problem summary of
    at most 100 and a fix sequence that is not empty. *)
Theorem reachable_wellFormed (db : Database) : reachable db -> wellFormed db.
Proof.
  induction 1 as [| db now1 now2 event _ IH | db now event following _ IH
                  | db h _ IH].
  - unfold wellFormed, episodeIdsFresh, rawIdsFresh. simpl.
    split; [|split]; [split; [lia|split] | split; [lia|split] |];
      try apply NoDup_nil; intros ? [].
  - apply wellFormed_processEvent, IH.
  - apply wellFormed_extractEpisode, IH.
  - apply wellFormed_clearProject, IH.
Qed.

End WellFormedRuns.

Lemma reachable_wellFormed_witness : wellFormed sampleDatabase.
Proof.
  apply (reachable_wellFormed (P := samplePlatform)).
  apply (reach_extractEpisode (P := samplePlatform)). apply reach_empty.
Defined.

(** ** Two occurrences of one problem *)

Section Occurrences.
Context {P : Platform}.

(** X8.  The first occurrence of a problem (no episode of its project
    identity and signature yet) creates an episode; a second error event
    with the same directory and the same error signature, whatever its
    command and the rest of its stderr, creates none: the table holds
    one row more than at the start, and the episode of the pair has the
    id given at the first occurrence, [occurrence_count = 2], the
    [first_seen] and the fix sequence of the first occurrence and the
    [last_seen] of the second. *)
Theorem extractEpisode_twice (now1 now2 : Z) (event1 event2 : TerminalEvent.t)
  (following1 following2 : list RawEvent.t) (db : Database) :
  TerminalEvent.cwd event2 = TerminalEvent.cwd event1 ->
  extractErrorSignature (TerminalEvent.stderr event2)
    (TerminalEvent.command event2)
  = extractErrorSignature (TerminalEvent.stderr event1)
      (TerminalEvent.command event1) ->
  following1 <> [] -> following2 <> [] ->
  findSimilarEpisode
    (hashProjectPath (TerminalEvent.cwd event1))
    (extractErrorSignature (TerminalEvent.stderr event1)
       (TerminalEvent.command event1)) db = None ->
  let out1 := extractEpisode now1 event1 following1 db in
  let out2 := extractEpisode now2 event2 following2 (snd out1) in
  fst out1 <> None
  /\ fst out2 = None
  /\ length (episodes (snd out2)) = S (length (episodes db))
  /\ exists episode,
       findSimilarEpisode
         (hashProjectPath (TerminalEvent.cwd event1))
         (extractErrorSignature (TerminalEvent.stderr event1)
            (TerminalEvent.command event1)) (snd out2) = Some episode
       /\ Episode.id episode = Some (episodes_seq db + 1)%Z
       /\ Episode.occurrence_count episode = 2%Z
       /\ Episode.first_seen episode = TerminalEvent.timestamp event1
       /\ Episode.last_seen episode = now2
       /\ Episode.fix_sequence episode = fixSequenceOf following1.
Proof.
  intros Hcwd Hstderr Hne1 Hne2 Hnone out1 out2. subst out1 out2.
  destruct (extractEpisode_new now1 event1 following1 db Hne1 Hnone)
    as (episode & _ & Hep & ->).
  cbn [fst snd].
  destruct (rowToEpisode_inserted episode db)
    as (row & Hrows & Hrow & Hh & Hg).
  assert (K : forall (B : Type) (g : Episode.t -> B),
             (forall e v, g (withEmbedding e v) = g e) ->
             g episode = g (newEpisode now1 event1 following1)).
  { intros B g Hgg. rewrite <- Hep. symmetry. apply Hgg. }
  rewrite (K _ Episode.project_hash) in Hh by reflexivity.
  rewrite (K _ Episode.problem_summary) in Hg by reflexivity.
  simpl in Hh, Hg.
  set (db1 := insertRawEvents _ _).
  assert (Hdb1 : episodes db1 = episodes db ++ [row])
    by (unfold db1; rewrite insertRawEvents_episodes; exact Hrows).
  assert (Hf : filter
                 (sameProblem (hashProjectPath (TerminalEvent.cwd event2))
                    (extractErrorSignature (TerminalEvent.stderr event2)
                       (TerminalEvent.command event2))) (episodes db1)
               = [row]).
  { rewrite Hcwd, Hstderr, Hdb1, filter_app.
    rewrite (findSimilarEpisode_None _ _ _ Hnone). simpl.
    rewrite <- Hh, <- Hg, sameProblem_refl. reflexivity. }
  rewrite (extractEpisode_existing now2 event2 following2 db1 row [] Hne2 Hf).
  cbn [fst snd]. split; [discriminate|]. split; [reflexivity|]. split.
  - simpl. rewrite length_map, Hdb1, length_app. simpl. lia.
  - rewrite Hcwd, Hstderr in Hf.
    eexists. split.
    + unfold findSimilarEpisode. rewrite updateEpisode_filter, Hf. simpl.
      rewrite Z.eqb_refl. reflexivity.
    + assert (Hid : EpisodeRow.id row = (episodes_seq db + 1)%Z)
        by (apply (f_equal Episode.id) in Hrow; simpl in Hrow; congruence).
      assert (Hc : EpisodeRow.occurrence_count row = 1%Z).
      { apply (f_equal Episode.occurrence_count) in Hrow. simpl in Hrow.
        rewrite Hrow, (K _ Episode.occurrence_count) by reflexivity.
        reflexivity. }
      assert (Hfs : EpisodeRow.first_seen row = TerminalEvent.timestamp event1).
      { apply (f_equal Episode.first_seen) in Hrow. simpl in Hrow.
        rewrite Hrow, (K _ Episode.first_seen) by reflexivity.
        reflexivity. }
      assert (Hfx : EpisodeRow.fix_sequence row = fixSequenceOf following1).
      { apply (f_equal Episode.fix_sequence) in Hrow. simpl in Hrow.
        rewrite Hrow, (K _ Episode.fix_sequence) by reflexivity.
        reflexivity. }
      simpl. rewrite Hid, Hc, Hfs, Hfx. repeat split.
Qed.

End Occurrences.

Lemma extractEpisode_twice_witness :
  option_map Episode.occurrence_count
    (findSimilarEpisode (str "/work/app") (str "Error")
       (snd (extractEpisode (P := samplePlatform) 9000 sampleRangeError
               [sampleFollowing 8000 "ls" 1]
               (snd (extractEpisode (P := samplePlatform) 5000
                       sampleTypeError [sampleFix] emptyDatabase)))))
  = Some 2%Z.
Proof.
  destruct (extractEpisode_twice (P := samplePlatform) 5000 9000
              sampleTypeError sampleRangeError [sampleFix]
              [sampleFollowing 8000 "ls" 1] emptyDatabase
              eq_refl ltac:(vm_compute; reflexivity)
              ltac:(discriminate) ltac:(discriminate) eq_refl)
    as (_ & _ & _ & episode & H & _ & Hc & _).
  change (hashProjectPath (P := samplePlatform) (TerminalEvent.cwd sampleTypeError))
    with (str "/work/app") in H.
  replace (extractErrorSignature (TerminalEvent.stderr sampleTypeError)
             (TerminalEvent.command sampleTypeError))
    with (str "Error") in H by (vm_compute; reflexivity).
  rewrite H. simpl. rewrite Hc. reflexivity.
Defined.

(** ** The window of following events *)

Lemma filter_perm {A : Type} (f : A -> bool) (l1 l2 : list A) :
  Permutation l1 l2 -> Permutation (filter f l1) (filter f l2).
Proof.
  induction 1 as [| x l1 l2 _ IH | x y l | l1 l2 l3 _ IH1 _ IH2]; simpl.
  - constructor.
  - destruct (f x); [constructor|]; exact IH.
  - destruct (f x), (f y); try reflexivity. apply perm_swap.
  - etransitivity; eassumption.
Qed.

Lemma filter_andb {A : Type} (f g : A -> bool) (l : list A) :
  filter g (filter f l) = filter (fun x => f x && g x) l.
Proof.
  induction l as [|x l IH]; simpl; [reflexivity|].
  destruct (f x); simpl; [destruct (g x)|]; rewrite IH; reflexivity.
Qed.

Lemma followingEventsOf_In (event : TerminalEvent.t) (since : Z)
  (db : Database) (f : RawEvent.t) :
  In f
    (followingEventsOf event
       (getRecentEventsForDirectory (TerminalEvent.cwd event) since db))
  <-> In f (raw_events db)
      /\ RawEvent.cwd f = TerminalEvent.cwd event
      /\ (since < RawEvent.timestamp f)%Z
      /\ (TerminalEvent.timestamp event < RawEvent.timestamp f)%Z.
Proof.
  unfold followingEventsOf, getRecentEventsForDirectory.
  rewrite stableSort_In, filter_In, stableSort_In, filter_In.
  rewrite andb_true_iff, streqb_eq, !Z.ltb_lt. tauto.
Qed.

(** X9.  The following events [processEvent] hands to [extractEpisode]
    are exactly the stored raw events of the event's directory whose
    timestamp is later than the event's and later than five minutes
    before the current time, in ascending order of timestamp and as
    many times as they are stored. *)
Theorem followingEvents_window (now1 : Z) (event : TerminalEvent.t)
  (db : Database) :
  let following :=
    followingEventsOf event
      (getRecentEventsForDirectory (TerminalEvent.cwd event)
         (now1 - 5 * 60 * 1000)%Z db) in
  (forall f,
      In f following
      <-> In f (raw_events db)
          /\ RawEvent.cwd f = TerminalEvent.cwd event
          /\ (now1 - 300000 < RawEvent.timestamp f)%Z
          /\ (TerminalEvent.timestamp event < RawEvent.timestamp f)%Z)
  /\ StronglySorted
       (fun a b => (RawEvent.timestamp a <= RawEvent.timestamp b)%Z)
       following
  /\ Permutation following
       (filter
          (fun row =>
             streqb (RawEvent.cwd row) (TerminalEvent.cwd event)
             && (now1 - 300000 <? RawEvent.timestamp row)%Z
             && (TerminalEvent.timestamp event <? RawEvent.timestamp row)%Z)
          (raw_events db)).
Proof.
  intros following. split; [|split].
  - intros f. apply followingEventsOf_In.
  - apply (stableSort_ascending RawEvent.t RawEvent.timestamp).
  - unfold following, followingEventsOf, getRecentEventsForDirectory.
    rewrite stableSort_perm, (filter_perm _ _ _ (stableSort_perm _ _)).
    rewrite filter_andb. reflexivity.
Qed.

Section NoLaterEvents.
Context {P : Platform}.

Lemma nil_of_no_member {A : Type} (l : list A) :
  (forall x, ~ In x l) -> l = [].
Proof.
  destruct l as [|x l]; [reflexivity|].
  intros H. destruct (H x). left. reflexivity.
Qed.

Lemma processEvent_no_following (now1 now2 : Z) (event : TerminalEvent.t)
  (db : Database) :
  (forall row,
      In row (raw_events db) ->
      RawEvent.cwd row = TerminalEvent.cwd event ->
      (RawEvent.timestamp row <= TerminalEvent.timestamp event)%Z) ->
  processEvent now1 now2 event db
  = (None, snd (insertRawEvent (rawOfTerminalEvent None event) db)).
Proof.
  intros H. unfold processEvent.
  destruct (negb (isError _ _)); [reflexivity|].
  rewrite (nil_of_no_member (followingEventsOf event _)); [reflexivity|].
  intros f Hf. apply followingEventsOf_In in Hf.
  destruct Hf as (Hin & Hcwd & _ & Hts).
  simpl in Hin. apply in_app_or in Hin.
  destruct Hin as [Hin | [<- | []]].
  - specialize (H f Hin Hcwd). lia.
  - simpl in Hts. lia.
Qed.

(** X10.  When no stored raw event of the event's directory is later
    than the event, [processEvent] builds no episode, even for an
    error: it returns [null], leaves the episode table as it is and
    appends the one unlinked raw record. *)
Theorem processEvent_without_later_events (now1 now2 : Z)
  (event : TerminalEvent.t) (db : Database) :
  (forall row,
      In row (raw_events db) ->
      RawEvent.cwd row = TerminalEvent.cwd event ->
      (RawEvent.timestamp row <= TerminalEvent.timestamp event)%Z) ->
  let out := processEvent now1 now2 event db in
  fst out = None
  /\ episodes (snd out) = episodes db
  /\ episodes_seq (snd out) = episodes_seq db
  /\ map contentOf (raw_events (snd out))
     = map contentOf (raw_events db) ++ [rawOfTerminalEvent None event].
Proof.
  intros H out. subst out. rewrite (processEvent_no_following _ _ _ _ H).
  cbn [fst snd]. repeat split. apply contentOf_insertRawEvent.
Qed.

End NoLaterEvents.

Lemma processEvent_without_later_events_witness :
  fst (processEvent (P := samplePlatform) 1200 1200 sampleError emptyDatabase)
  = None.
Proof.
  apply (processEvent_without_later_events (P := samplePlatform)).
  intros row [].
Defined.

(** ** The capture entry point *)

Lemma shouldRetrieve_isError (context : RetrievalContext.t) :
  shouldRetrieve context
  = isError (RetrievalContext.stderr context)
      (RetrievalContext.exit_code context).
Proof.
  unfold shouldRetrieve, isError.
  destruct (negb _); [reflexivity|]. destruct (existsb _ _); reflexivity.
Qed.

Section CaptureProperties.
Context {P : Platform}.

Lemma retrieveAndSuggest_no_episodes (context : RetrievalContext.t)
  (db : Database) :
  getEpisodesByProject (hashProjectPath (RetrievalContext.cwd context)) db = [] ->
  retrieveAndSuggest context db = noSuggestion.
Proof.
  intros H. unfold retrieveAndSuggest, retrieveSimilarEpisodes.
  rewrite H. destruct (negb (shouldRetrieve context)); reflexivity.
Qed.

(** X11.  [handleTerminalEvent] classifies an event by its exit code and
    the first 5000 code units of its stderr.  When that is no error,
    the call creates no episode and shows no suggestion, whatever the
    store holds: it only appends one unlinked raw record, whose stderr
    and stdout are cut to 5000 and 2000 code units. *)
Theorem handleTerminalEvent_quiet (now0 now1 now2 : Z) (cwd : jsstring)
  (gitBranch : option jsstring) (sessionId command : jsstring) (exitCode : Z)
  (stderr stdout : jsstring) (db : Database) :
  isError (substring 0 5000 stderr) exitCode = false ->
  let out :=
    handleTerminalEvent now0 now1 now2 cwd gitBranch sessionId command
      exitCode stderr stdout db in
  fst out = (None, noSuggestion)
  /\ episodes (snd out) = episodes db
  /\ exists record,
       map contentOf (raw_events (snd out))
       = map contentOf (raw_events db) ++ [record]
       /\ RawEvent.episode_id record = None
       /\ RawEvent.timestamp record = now0
       /\ RawEvent.command record = command
       /\ length (RawEvent.stderr record) <= 5000
       /\ length (RawEvent.stdout_truncated record) <= 2000.
Proof.
  intros Hq out. subst out. unfold handleTerminalEvent, processEvent.
  cbn [TerminalEvent.stderr TerminalEvent.exit_code captureEvent].
  rewrite Hq. cbn [negb fst snd]. split; [|split].
  - f_equal. unfold retrieveAndSuggest. rewrite shouldRetrieve_isError.
    cbn [RetrievalContext.stderr RetrievalContext.exit_code
         TerminalEvent.stderr TerminalEvent.exit_code].
    rewrite Hq. reflexivity.
  - reflexivity.
  - exists (rawOfTerminalEvent None
              (captureEvent now0 cwd gitBranch sessionId command exitCode
                 stderr stdout)).
    split; [apply contentOf_insertRawEvent|].
    split; [reflexivity|]. split; [reflexivity|]. split; [reflexivity|].
    split; apply substring_length.
Qed.

Lemma notAfter_insertRawEvent (clock : Z) (e : RawEvent.t) (db : Database) :
  notAfter clock db -> (RawEvent.timestamp e <= clock)%Z ->
  notAfter clock (snd (insertRawEvent e db)).
Proof.
  intros H He row Hrow. simpl in Hrow. apply in_app_or in Hrow.
  destruct Hrow as [Hrow | [<- | []]]; [apply H; exact Hrow | exact He].
Qed.

Lemma handleTerminalEvent_past (clock now0 now1 now2 : Z) (cwd : jsstring)
  (gitBranch : option jsstring) (sessionId command : jsstring) (exitCode : Z)
  (stderr stdout : jsstring) (db : Database) :
  notAfter clock db -> (clock <= now0)%Z ->
  let event :=
    captureEvent now0 cwd gitBranch sessionId command exitCode stderr stdout in
  handleTerminalEvent now0 now1 now2 cwd gitBranch sessionId command
    exitCode stderr stdout db
  = ((None,
      retrieveAndSuggest
        (RetrievalContext.mk cwd command exitCode (substring 0 5000 stderr)
           gitBranch (hashProjectPath cwd))
        (snd (insertRawEvent (rawOfTerminalEvent None event) db))),
     snd (insertRawEvent (rawOfTerminalEvent None event) db)).
Proof.
  intros Hpast Hclock event. unfold handleTerminalEvent. fold event.
  rewrite processEvent_no_following; [reflexivity|].
  intros row Hrow _. specialize (Hpast row Hrow). simpl. lia.
Qed.

(** X12.  Through the capture entry point nothing is ever learned: in
    every database built from the empty one by [handleTerminalEvent]
    and [clearProject] with a clock that does not run backwards, the
    episode table is empty and no raw event is later than the clock;
    so the next [handleTerminalEvent] again returns no episode and no
    suggestion.  (An event is stored with the time of its capture, so
    no stored event is later than the one being processed, and
    [extractEpisode] always receives an empty list.) *)
Theorem capture_learns_nothing (clock : Z) (db : Database) :
  capturedUntil clock db ->
  episodes db = []
  /\ notAfter clock db
  /\ forall (now0 now1 now2 : Z) (cwd : jsstring)
       (gitBranch : option jsstring) (sessionId command : jsstring)
       (exitCode : Z) (stderr stdout : jsstring),
       (clock <= now0)%Z ->
       fst (handleTerminalEvent now0 now1 now2 cwd gitBranch sessionId
              command exitCode stderr stdout db)
       = (None, noSuggestion).
Proof.
  intros H.
  assert (K : episodes db = [] /\ notAfter clock db).
  { induction H as [clock
                   | clock db now0 now1 now2 cwd gitBranch sessionId command
                       exitCode stderr stdout _ IH Hclock
                   | clock db h _ IH].
    - split; [reflexivity | intros ? []].
    - destruct IH as [He Hp].
      rewrite (handleTerminalEvent_past clock) by assumption.
      cbn [snd]. split; [exact He|].
      apply notAfter_insertRawEvent; [|simpl; lia].
      intros row Hrow. specialize (Hp row Hrow). lia.
    - destruct IH as [He Hp]. split; [|exact Hp].
      simpl. rewrite He. reflexivity. }
  destruct K as [He Hp]. split; [exact He|]. split; [exact Hp|].
  intros now0 now1 now2 cwd gitBranch sessionId command exitCode stderr stdout
    Hclock.
  rewrite (handleTerminalEvent_past clock) by assumption.
  cbn [fst]. f_equal. apply retrieveAndSuggest_no_episodes.
  unfold getEpisodesByProject. simpl. rewrite He. reflexivity.
Qed.

End CaptureProperties.

Lemma handleTerminalEvent_quiet_witness :
  fst (handleTerminalEvent (P := samplePlatform) 9000 9000 9000
         (str "/work/app") None (str "s1") (str "ls") 0 (str "") (str "a b")
         sampleDatabase)
  = (None, noSuggestion).
Proof.
  apply (handleTerminalEvent_quiet (P := samplePlatform)). reflexivity.
Defined.

Lemma capture_learns_nothing_witness :
  fst (handleTerminalEvent (P := samplePlatform) 2000 2000 2000
         (str "/work/app") None (str "s1") (str "npm start") 1
         (str "ENOENT: no such file") (str "")
         (snd (handleTerminalEvent (P := samplePlatform) 1000 1000 1000
                 (str "/work/app") None (str "s1") (str "npm start") 1
                 (str "ENOENT: no such file") (str "") emptyDatabase)))
  = (None, noSuggestion).
Proof.
  apply (capture_learns_nothing (P := samplePlatform) 1000);
    [|discriminate].
  apply (captured_event (P := samplePlatform) 0);
    [apply captured_empty | discriminate].
Defined.

(** ** Keywords *)

Lemma splitWs_pieces (s : jsstring) :
  forall (cur : jsstring) (inws : bool) (w : jsstring),
    In w (splitWs cur inws s) ->
    forall c, In c w -> In c cur \/ (In c s /\ isWhiteSpace c = false).
Proof.
  induction s as [|c0 s IH]; intros cur inws w Hw c Hc; simpl in Hw.
  - destruct Hw as [<- | []]. left. apply in_rev. exact Hc.
  - destruct (isWhiteSpace c0) eqn:E.
    + assert (K : In w (splitWs [] true s) ->
                  In c cur \/ (In c (c0 :: s) /\ isWhiteSpace c = false)).
      { intros H. destruct (IH [] true w H c Hc) as [[] | [H1 H2]].
        right. split; [right; exact H1 | exact H2]. }
      destruct inws; [exact (K Hw)|].
      destruct Hw as [<- | Hw]; [|exact (K Hw)].
      left. apply in_rev. exact Hc.
    + destruct (IH (c0 :: cur) false w Hw c Hc) as [[<- | H] | [H1 H2]].
      * right. split; [left; reflexivity | exact E].
      * left. exact H.
      * right. split; [right; exact H1 | exact H2].
Qed.

Lemma NoDup_firstn {A : Type} (n : nat) (l : list A) :
  NoDup l -> NoDup (firstn n l).
Proof.
  intros H. rewrite <- (firstn_skipn n l) in H.
  apply NoDup_app_remove_r in H. exact H.
Qed.

(** X13.  [extractKeywords] returns at most 10 words without
    repetition; every word has more than two code units, is no stop
    word, and consists of the lower-case letters a to z and the digits
    only. *)
Theorem extractKeywords_spec (text : jsstring) :
  length (extractKeywords text) <= 10
  /\ NoDup (extractKeywords text)
  /\ forall w, In w (extractKeywords text) ->
       2 < length w
       /\ has commonWords w = false
       /\ forall c, In c w -> inRange 97 122 c || inRange 48 57 c = true.
Proof.
  unfold extractKeywords. split; [apply firstn_le_length|].
  split; [apply NoDup_firstn, newSet_NoDup|].
  intros w Hw. apply firstn_In, newSet_In, filter_In in Hw.
  destruct Hw as [Hw Hf]. apply andb_true_iff in Hf.
  destruct Hf as [Hlen Hcommon].
  split; [apply Nat.ltb_lt; exact Hlen|].
  split; [exact (proj1 (negb_true_iff _) Hcommon)|].
  intros c Hc.
  destruct (splitWs_pieces _ [] false w Hw c Hc) as [[] | [Hin Hws]].
  apply in_map_iff in Hin. destruct Hin as (c0 & Hc0 & _).
  unfold notKeywordChar in Hc0.
  destruct (inRange 97 122 c0 || inRange 48 57 c0 || isWhiteSpace c0) eqn:E;
    cbn [negb] in Hc0; subst c.
  - rewrite Hws, orb_false_r in E. exact E.
  - vm_compute in Hws. discriminate Hws.
Qed.

(** ** Listing and ranking *)

Lemma rowToEpisode_fields (row : EpisodeRow.t) :
  Episode.id (rowToEpisode row) = Some (EpisodeRow.id row)
  /\ Episode.project_hash (rowToEpisode row) = EpisodeRow.project_hash row
  /\ Episode.last_seen (rowToEpisode row) = EpisodeRow.last_seen row.
Proof. repeat split. Qed.

(** X14.  [getEpisodesByProject h] returns the stored episodes whose
    project identity is [h], each once per row, newest [last_seen]
    first, every one with its row id. *)
Theorem getEpisodesByProject_spec (h : jsstring) (db : Database) :
  Permutation (getEpisodesByProject h db)
    (map rowToEpisode
       (filter (fun row => streqb (EpisodeRow.project_hash row) h)
          (episodes db)))
  /\ StronglySorted
       (fun a b => (Episode.last_seen b <= Episode.last_seen a)%Z)
       (getEpisodesByProject h db)
  /\ forall e, In e (getEpisodesByProject h db) ->
       Episode.project_hash e = h /\ Episode.id e <> None.
Proof.
  unfold getEpisodesByProject. split; [|split].
  - apply Permutation_map, stableSort_perm.
  - apply StronglySorted_map.
    apply (stableSort_descending EpisodeRow.t EpisodeRow.last_seen).
  - intros e He. apply in_map_iff in He. destruct He as (row & <- & Hrow).
    apply stableSort_In, filter_In in Hrow. destruct Hrow as [_ Hh].
    apply streqb_eq in Hh. split; [exact Hh | discriminate].
Qed.

Section RankingProperties.
Context {P : Platform}.

Lemma scoredCandidates_project (context : RetrievalContext.t) (db : Database)
  (r : RetrievalResult.t) :
  In r (scoredCandidates context db) ->
  Episode.project_hash (RetrievalResult.episode r)
  = hashProjectPath (RetrievalContext.cwd context).
Proof.
  unfold scoredCandidates. intros H. apply in_map_iff in H.
  destruct H as (e & <- & He). apply in_map_iff in He.
  destruct He as (row & <- & Hrow).
  apply stableSort_In, filter_In in Hrow. destruct Hrow as [_ Hh].
  apply streqb_eq in Hh. exact Hh.
Qed.

Lemma cosineSimilarity_zero_r (a b : list Q) :
  zeroVector b -> cosineSimilarity a b = 0%Q.
Proof.
  intros Hz. unfold cosineSimilarity.
  destruct (length a =? length b) eqn:E; [|reflexivity].
  apply Nat.eqb_eq in E. simpl.
  pose proof (cosineLoop_spec a b E) as Hs.
  destruct (cosineLoop (combine a b)) as [[d na] nb].
  destruct Hs as (_ & _ & Hb). apply zeroVector_sumSquares in Hz.
  assert (Hzb : Qeq_bool nb 0 = true)
    by (apply Qeq_bool_iff; rewrite Hb; exact Hz).
  rewrite Hzb, orb_true_r. reflexivity.
Qed.

Lemma zeroVector_bytes (bytes : list Z) :
  Forall (fun b => b = 0%Z) bytes -> zeroVector (map inject_Z bytes).
Proof.
  unfold zeroVector. induction 1 as [|b bytes Hb _ IH]; simpl; constructor;
    [subst b; reflexivity | exact IH].
Qed.

(** X16.  When the embedding service answers for the current error, a
    candidate whose stored embedding is the zero vector gets similarity
    0 and a confidence of at most 0.5; so when every episode of the
    project is stored with an all-zero BLOB, [retrieveAndSuggest] shows
    nothing. *)
Theorem zero_embedding_is_silent (context : RetrievalContext.t)
  (db : Database) (current : list Q) :
  generateEmbedding (currentErrorText context) = Some current ->
  (forall r v,
      In r (scoredCandidates context db) ->
      Episode.embedding (RetrievalResult.episode r) = Some v ->
      zeroVector v ->
      RetrievalResult.similarity r = 0%Q
      /\ (RetrievalResult.confidence r <= 0.5)%Q)
  /\ ((forall row,
         In row (episodes db) ->
         EpisodeRow.project_hash row
         = hashProjectPath (RetrievalContext.cwd context) ->
         exists bytes,
           EpisodeRow.embedding row = Some bytes
           /\ Forall (fun b => b = 0%Z) bytes) ->
      retrieveAndSuggest context db = noSuggestion).
Proof.
  intros Hcur.
  assert (K : forall r v,
             In r (scoredCandidates context db) ->
             Episode.embedding (RetrievalResult.episode r) = Some v ->
             zeroVector v ->
             RetrievalResult.similarity r = 0%Q
             /\ (RetrievalResult.confidence r <= 0.5)%Q).
  { intros r v Hr Hv Hz. unfold scoredCandidates in Hr.
    apply in_map_iff in Hr. destruct Hr as (e & <- & _).
    simpl in Hv. unfold scoreEpisode. rewrite Hcur, Hv. simpl.
    rewrite (cosineSimilarity_zero_r current v Hz). split; [reflexivity|].
    rewrite calculateConfidence_unfold.
    eapply Qle_trans; [apply Q.le_min_l|]. unfold weightedSum.
    pose proof (textSimilarity_range_le
                  (Episode.problem_summary e)
                  (RetrievalContext.stderr context)) as Ht.
    destruct (streqb _ _); lra. }
  split; [exact K|]. intros Hrows.
  unfold retrieveAndSuggest.
  destruct (negb (shouldRetrieve context)); [reflexivity|].
  rewrite retrieveSimilarEpisodes_scored.
  assert (E : filter reaches (scoredCandidates context db) = []).
  { apply nil_of_no_member. intros r Hr. apply filter_In in Hr.
    destruct Hr as [Hin Hreach]. apply reaches_iff in Hreach.
    assert (Hv : exists v,
               Episode.embedding (RetrievalResult.episode r) = Some v
               /\ zeroVector v).
    { pose proof (scoredCandidates_project context db r Hin) as Hh.
      unfold scoredCandidates in Hin. apply in_map_iff in Hin.
      destruct Hin as (e & <- & He). unfold getEpisodesByProject in He.
      apply in_map_iff in He. destruct He as (row & <- & Hrow).
      apply stableSort_In, filter_In in Hrow. destruct Hrow as [Hrow _].
      destruct (Hrows row Hrow Hh) as (bytes & Hb & Hz).
      exists (map inject_Z bytes). simpl. rewrite Hb. simpl.
      split; [reflexivity | apply zeroVector_bytes; exact Hz]. }
    destruct Hv as (v & Hv & Hz).
    destruct (K r v Hin Hv Hz) as [_ Hc]. lra. }
  rewrite E. reflexivity.
Qed.

End RankingProperties.

Lemma zero_embedding_is_silent_witness :
  retrieveAndSuggest (P := embeddingPlatform) sampleContext
    (snd (insertEpisode (sampleEpisode (Some [0.6; 0.8]%Q)) emptyDatabase))
  = noSuggestion.
Proof.
  apply (zero_embedding_is_silent (P := embeddingPlatform) sampleContext
           (snd (insertEpisode (sampleEpisode (Some [0.6; 0.8]%Q))
                   emptyDatabase)) [1; 0]%Q eq_refl).
  intros row [<- | []] _. eexists. split; [reflexivity|].
  repeat constructor.
Defined.

(** ** The suggested command *)

Lemma trimStart_suffix (s : jsstring) :
  exists pre, s = pre ++ trimStart s /\ blank pre = true.
Proof.
  induction s as [|c s (pre & IH & Hpre)]; simpl.
  - exists []. split; reflexivity.
  - destruct (isWhiteSpace c) eqn:E.
    + exists (c :: pre). simpl. rewrite E, <- IH. split; [reflexivity|exact Hpre].
    + exists []. split; reflexivity.
Qed.

Lemma trimStart_fixed (s : jsstring) :
  match s with [] => True | c :: _ => isWhiteSpace c = false end ->
  trimStart s = s.
Proof. destruct s as [|c s]; simpl; [reflexivity | intros ->; reflexivity]. Qed.

Lemma trimStart_idem (s : jsstring) : trimStart (trimStart s) = trimStart s.
Proof.
  apply trimStart_fixed. destruct (trimStart s) as [|c t] eqn:E; [exact I|].
  eapply trimStart_head. exact E.
Qed.

(** [trim] leaves no white space at either end. *)
Lemma trim_ends (s : jsstring) :
  trimStart (trim s) = trim s /\ trimStart (rev (trim s)) = rev (trim s).
Proof.
  unfold trim. rewrite rev_involutive. split; [|apply trimStart_idem].
  destruct (trimStart_suffix (rev (trimStart s))) as (pre & Hs & _).
  set (y := trimStart (rev (trimStart s))) in *.
  apply trimStart_fixed.
  destruct (rev y) as [|c t] eqn:E; [exact I|].
  assert (Hy : y = rev t ++ [c])
    by (rewrite <- (rev_involutive y), E; reflexivity).
  apply (f_equal (@rev ascii)) in Hs.
  rewrite rev_involutive, Hy, rev_app_distr, rev_app_distr in Hs.
  simpl in Hs. eapply trimStart_head. exact Hs.
Qed.

Lemma splitOn_nonempty (sep cur : jsstring) (skip : nat) (s : jsstring) :
  splitOn sep cur skip s <> [].
Proof.
  revert cur skip. induction s as [|c s IH]; intros cur skip; simpl.
  - discriminate.
  - destruct skip; [|apply IH].
    destruct (startsWith sep (c :: s)); [discriminate | apply IH].
Qed.

(** X17.  The command [suggestNextStep] proposes is the text before the
    first [" && "] of the fix sequence, trimmed: when there is one it
    is not empty and has no white space at either end, and there is
    none exactly when that text is blank.  For an episode whose
    following events had no exit code 0, the proposed command is the
    sentinel text [Unknown fix] itself. *)
Theorem suggestNextStep_spec (result : RetrievalResult.t) :
  let first :=
    hd [] (split (Episode.fix_sequence (RetrievalResult.episode result))
             (str " && ")) in
  (forall c, suggestNextStep result = Some c ->
     c = trim first /\ c <> []
     /\ trimStart c = c /\ trimStart (rev c) = rev c)
  /\ (suggestNextStep result = None <-> blank first = true)
  /\ (forall following,
        existsb succeeded following = false ->
        Episode.fix_sequence (RetrievalResult.episode result)
        = fixSequenceOf following ->
        suggestNextStep result = Some (str "Unknown fix")).
Proof.
  intros first. subst first. unfold suggestNextStep, split.
  pose proof (splitOn_nonempty (str " && ") [] 0
                (Episode.fix_sequence (RetrievalResult.episode result))) as Hne.
  destruct (splitOn (str " && ") [] 0
              (Episode.fix_sequence (RetrievalResult.episode result)))
    as [|p ps] eqn:E; [congruence|]. simpl hd.
  split; [|split].
  - intros c Hc. destruct (truthy (trim p)) eqn:T; [|discriminate].
    injection Hc as <-. split; [reflexivity|].
    split; [destruct (trim p); [discriminate T | discriminate]|].
    apply trim_ends.
  - rewrite truthy_trim. destruct (blank p); simpl; split;
      try discriminate; reflexivity.
  - intros following Hnone Hfix. rewrite Hfix in E.
    assert (Hs : fixSequenceOf following = str "Unknown fix").
    { unfold fixSequenceOf, fixCommandsOf.
      change (fun e : RawEvent.t => (RawEvent.exit_code e =? 0)%Z)
        with succeeded.
      rewrite (filter_none _ _ Hnone). reflexivity. }
    rewrite Hs in E. vm_compute in E. injection E as <- <-. reflexivity.
Qed.

Lemma suggestNextStep_spec_witness :
  suggestNextStep
    (RetrievalResult.mk
       (withEmbedding (sampleEpisode None) None) 0 0)
  = Some (str "npm install").
Proof.
  destruct (suggestNextStep_spec
              (RetrievalResult.mk (withEmbedding (sampleEpisode None) None) 0 0))
    as (H & _ & _).
  destruct (suggestNextStep
              (RetrievalResult.mk (withEmbedding (sampleEpisode None) None) 0 0))
    as [c|] eqn:E; [|discriminate E].
  destruct (H c eq_refl) as (Hc & _). rewrite Hc. reflexivity.
Defined.

(** ** Free-text search *)

Lemma like_percent (pattern s : jsstring) :
  like (ascii_of_N 37 :: pattern) s
  = like pattern s
    || match s with
       | [] => false
       | _ :: s' => like (ascii_of_N 37 :: pattern) s'
       end.
Proof. destruct s; reflexivity. Qed.

Lemma like_percent_nil (s : jsstring) : like [ascii_of_N 37] s = true.
Proof.
  induction s as [|c s IH]; [reflexivity|].
  rewrite like_percent, IH. apply orb_true_r.
Qed.

Lemma like_literal (text s : jsstring) :
  Forall (fun c => isWildcard c = false) text ->
  like (text ++ [ascii_of_N 37]) s = startsWithFold text s.
Proof.
  intros H. revert s. induction H as [|x text Hx _ IH]; intros s.
  - apply like_percent_nil.
  - unfold isWildcard in Hx. apply orb_false_iff in Hx. destruct Hx as [H1 H2].
    simpl. rewrite H1, H2. destruct s as [|d s]; [reflexivity|].
    simpl. rewrite IH. reflexivity.
Qed.

Lemma like_contains (text s : jsstring) :
  Forall (fun c => isWildcard c = false) text ->
  like (str "%" ++ text ++ str "%") s = includesFold s text.
Proof.
  intros H. change (str "%" ++ text ++ str "%")
    with (ascii_of_N 37 :: (text ++ [ascii_of_N 37])).
  induction s as [|c s IH].
  - rewrite like_percent, like_literal by exact H. simpl.
    rewrite !orb_false_r. reflexivity.
  - rewrite like_percent, like_literal, IH by exact H. reflexivity.
Qed.

Lemma sqlLimit_length {A : Type} (limit : Z) (l : list A) :
  (0 <= limit)%Z -> length (sqlLimit limit l) <= Z.to_nat limit.
Proof.
  intros H. unfold sqlLimit.
  destruct (limit <? 0)%Z eqn:E; [apply Z.ltb_lt in E; lia|].
  apply firstn_le_length.
Qed.

Lemma sqlLimit_In {A : Type} (limit : Z) (l : list A) (x : A) :
  In x (sqlLimit limit l) -> In x l.
Proof.
  unfold sqlLimit. destruct (limit <? 0)%Z; [tauto | apply firstn_In].
Qed.

Lemma slice0_length {A : Type} (n : Z) (l : list A) :
  (0 <= n)%Z -> length (slice0 n l) <= Z.to_nat n.
Proof.
  intros H. unfold slice0.
  destruct (n <? 0)%Z eqn:E; [apply Z.ltb_lt in E; lia|].
  apply firstn_le_length.
Qed.

Lemma slice0_In {A : Type} (n : Z) (l : list A) (x : A) :
  In x (slice0 n l) -> In x l.
Proof. unfold slice0. destruct (n <? 0)%Z; apply firstn_In. Qed.

(** X18.  [searchEpisodesByText] with a text that holds no [%] and no
    [_] returns stored episodes whose problem summary or keywords
    contain the text, up to the case of the letters A to Z; the empty
    text matches every episode, so the search is then
    [getRecentEpisodes].  The result is ordered newest first and, for
    a limit that is not negative, no longer than the limit. *)
Theorem searchEpisodesByText_spec (text : jsstring) (limit : Z)
  (db : Database) :
  (Forall (fun c => isWildcard c = false) text ->
   forall e, In e (searchEpisodesByText text limit db) ->
     exists row,
       In row (episodes db) /\ e = rowToEpisode row
       /\ (includesFold (EpisodeRow.problem_summary row) text
           || includesFold (EpisodeRow.keywords row) text = true))
  /\ searchEpisodesByText [] limit db = getRecentEpisodes limit db
  /\ StronglySorted
       (fun a b => (Episode.last_seen b <= Episode.last_seen a)%Z)
       (searchEpisodesByText text limit db)
  /\ ((0 <= limit)%Z ->
      length (searchEpisodesByText text limit db) <= Z.to_nat limit).
Proof.
  unfold searchEpisodesByText. split; [|split; [|split]].
  - intros Hw e He. apply in_map_iff in He. destruct He as (row & <- & Hrow).
    apply sqlLimit_In, stableSort_In, filter_In in Hrow.
    destruct Hrow as [Hin Hm]. exists row. split; [exact Hin|].
    split; [reflexivity|]. unfold mentions in Hm.
    rewrite !like_contains in Hm by exact Hw. exact Hm.
  - unfold getRecentEpisodes. f_equal. f_equal. f_equal.
    apply forallb_filter_id, forallb_forall. intros row _.
    unfold mentions. change (str "%" ++ [] ++ str "%")
      with (ascii_of_N 37 :: [ascii_of_N 37]).
    rewrite like_percent, like_percent_nil. reflexivity.
  - apply StronglySorted_map. unfold sqlLimit.
    destruct (limit <? 0)%Z; [|apply StronglySorted_firstn];
      apply (stableSort_descending EpisodeRow.t EpisodeRow.last_seen).
  - intros H. rewrite length_map. apply sqlLimit_length. exact H.
Qed.

Lemma searchEpisodesByText_spec_witness :
  length (searchEpisodesByText (str "enoent") 5 sampleDatabase) <= 5.
Proof.
  apply (searchEpisodesByText_spec (str "enoent") 5 sampleDatabase).
  discriminate.
Defined.

(** ** The last event of a command *)

(** X20.  [getLastEventForCommand] returns a stored raw event of the
    given directory and command that is later than [withinHours] hours
    before now, and no such event is later than the one returned; it
    returns [null] exactly when there is no such event.
    [wasCommandRepeated] says whether there is one within 24 hours. *)
Theorem getLastEventForCommand_spec (now : Z) (cwd command : jsstring)
  (withinHours : Z) (db : Database) :
  let recent (row : RawEvent.t) :=
    In row (raw_events db)
    /\ RawEvent.cwd row = cwd /\ RawEvent.command row = command
    /\ (now - withinHours * 3600000 < RawEvent.timestamp row)%Z in
  (forall row,
      getLastEventForCommand now cwd command withinHours db = Some row ->
      recent row
      /\ forall other, recent other ->
           (RawEvent.timestamp other <= RawEvent.timestamp row)%Z)
  /\ (getLastEventForCommand now cwd command withinHours db = None
      <-> forall row, ~ recent row)
  /\ (withinHours = 24%Z ->
      (wasCommandRepeated now cwd command db = true
       <-> exists row, recent row)).
Proof.
  intros recent.
  assert (Hin : forall row,
             In row
               (stableSort latestFirst
                  (filter
                     (sameCommandSince cwd command
                        (now - withinHours * 60 * 60 * 1000))
                     (raw_events db)))
             <-> recent row).
  { intros row. rewrite stableSort_In, filter_In. unfold sameCommandSince, recent.
    rewrite !andb_true_iff, !streqb_eq, Z.ltb_lt.
    replace (now - withinHours * 60 * 60 * 1000)%Z
      with (now - withinHours * 3600000)%Z by lia.
    tauto. }
  assert (Hsorted :
            StronglySorted
              (fun a b => (RawEvent.timestamp b <= RawEvent.timestamp a)%Z)
              (stableSort latestFirst
                 (filter
                    (sameCommandSince cwd command
                       (now - withinHours * 60 * 60 * 1000))
                    (raw_events db))))
    by apply (stableSort_descending RawEvent.t RawEvent.timestamp).
  assert (H12 :
            (forall row,
                getLastEventForCommand now cwd command withinHours db = Some row ->
                recent row
                /\ forall other, recent other ->
                     (RawEvent.timestamp other <= RawEvent.timestamp row)%Z)
            /\ (getLastEventForCommand now cwd command withinHours db = None
                <-> forall row, ~ recent row)).
  { unfold getLastEventForCommand.
    destruct (stableSort latestFirst _) as [|top rest] eqn:E.
    - split; [discriminate|]. split; [|reflexivity].
      intros _ row Hrow. apply Hin in Hrow. destruct Hrow.
    - split.
      + intros row Hrow. injection Hrow as <-.
        split; [apply Hin; left; reflexivity|].
        intros other Ho. apply Hin in Ho. destruct Ho as [<- | Ho]; [lia|].
        inversion Hsorted as [|? ? _ Hall]; subst.
        rewrite Forall_forall in Hall. apply Hall. exact Ho.
      + split; [discriminate|]. intros H.
        destruct (H top). apply Hin. left. reflexivity. }
  destruct H12 as [H1 H2]. split; [exact H1|]. split; [exact H2|].
  intros ->. unfold wasCommandRepeated.
  destruct (getLastEventForCommand now cwd command 24 db) as [row|] eqn:E.
  - split; [|reflexivity]. intros _. exists row. apply (H1 row eq_refl).
  - split; [discriminate|]. intros (row & Hrow).
    destruct (proj1 H2 eq_refl row Hrow).
Qed.

Lemma getLastEventForCommand_spec_witness :
  wasCommandRepeated 2000 (str "/work/app") (str "npm install") sampleLog = true.
Proof.
  apply (getLastEventForCommand_spec 2000 (str "/work/app")
           (str "npm install") 24 sampleLog); [reflexivity|].
  eexists. split; [left; reflexivity|].
  split; [reflexivity|]. split; [reflexivity|]. reflexivity.
Defined.

(** ** Classification *)

Lemma toLowerChar_idem (c : ascii) : toLowerChar (toLowerChar c) = toLowerChar c.
Proof. destruct c as [[] [] [] [] [] [] [] []]; reflexivity. Qed.

Lemma toLowerCase_idem (s : jsstring) : toLowerCase (toLowerCase s) = toLowerCase s.
Proof.
  unfold toLowerCase. rewrite map_map. apply map_ext, toLowerChar_idem.
Qed.

(** X22.  Every event with a non-zero exit code is an error; with exit
    code 0 the answer depends on stderr only through its lower-cased
    form, an empty stderr is no error, and a stderr that contains one
    of the markers in any mix of cases is one.  [shouldRetrieve] takes
    the same decision: retrieval is triggered exactly for the events
    that extraction classifies as errors. *)
Theorem isError_spec (stderr : jsstring) (exitCode : Z) :
  (exitCode <> 0%Z -> isError stderr exitCode = true)
  /\ isError (toLowerCase stderr) exitCode = isError stderr exitCode
  /\ isError [] 0 = false
  /\ (forall marker,
        In marker ERROR_PATTERNS ->
        includes (toLowerCase stderr) (toLowerCase marker) = true ->
        isError stderr exitCode = true)
  /\ (forall context,
        RetrievalContext.stderr context = stderr ->
        RetrievalContext.exit_code context = exitCode ->
        shouldRetrieve context = isError stderr exitCode).
Proof.
  split; [|split; [|split; [|split]]].
  - intros H. unfold isError.
    destruct (exitCode =? 0)%Z eqn:E; [|reflexivity].
    apply Z.eqb_eq in E. contradiction.
  - unfold isError. rewrite toLowerCase_idem. reflexivity.
  - reflexivity.
  - intros marker Hin Hinc. unfold isError.
    destruct (negb (exitCode =? 0)%Z); [reflexivity|].
    apply existsb_exists. exists marker. split; assumption.
  - intros context <- <-. apply shouldRetrieve_isError.
Qed.

Lemma isError_spec_witness :
  isError (str "Build FAILED") 0 = true.
Proof.
  apply (isError_spec (str "Build FAILED") 0 ) with (marker := str "fail");
    [right; left; reflexivity | reflexivity].
Defined.

(** ** Concrete runs of the listings *)

Lemma followingEvents_window_witness :
  exists f,
    In f (raw_events sampleLog)
    /\ (TerminalEvent.timestamp sampleError < RawEvent.timestamp f)%Z.
Proof.
  pose proof (followingEvents_window 1200 sampleError sampleLog) as H.
  cbv zeta in H. destruct H as (H & _ & _).
  exists (hd sampleFix (raw_events sampleLog)).
  destruct (proj1 (H (hd sampleFix (raw_events sampleLog))))
    as (H1 & _ & _ & H4); [vm_compute; left; reflexivity|].
  split; assumption.
Defined.

Lemma extractKeywords_spec_witness :
  2 < length (str "enoent") /\ has commonWords (str "enoent") = false.
Proof.
  refine ((fun H => conj (proj1 H) (proj1 (proj2 H)))
            (proj2 (proj2 (extractKeywords_spec
                             (str "npm start ENOENT: no such file")))
               (str "enoent") _)).
  vm_compute. right. right. left. reflexivity.
Defined.

Lemma getEpisodesByProject_spec_witness :
  Episode.project_hash
    (hd (sampleEpisode None)
       (getEpisodesByProject (str "/work/app") sampleDatabase))
  = str "/work/app".
Proof.
  refine (proj1
            (proj2 (proj2 (getEpisodesByProject_spec (str "/work/app")
                             sampleDatabase)) _ _)).
  vm_compute. left. reflexivity.
Defined.

(** ** The signature of an [Error:] line *)

Lemma literalI_consumes (total : nat) (w : jsstring) :
  w <> [] ->
  forall (rest : jsstring) (caps : captures) (k : cont) (c : captures),
    matcher total (literalI w) rest caps k = Some c ->
    exists pre rest',
      rest = pre ++ rest' /\ sameUpToCase pre w /\ k rest' caps = Some c.
Proof.
  unfold sameUpToCase.
  induction w as [|x w IH]; [congruence|]. intros _ rest caps k c H.
  destruct w as [|y w].
  - simpl in H. destruct rest as [|d rest]; [discriminate|].
    destruct (Ascii.eqb (canonicalize d) (canonicalize x)) eqn:E;
      [|discriminate].
    apply Ascii.eqb_eq in E. exists [d], rest. simpl. rewrite E. tauto.
  - change (literalI (x :: y :: w)) with (Seq (charI x) (literalI (y :: w))) in H.
    simpl in H. destruct rest as [|d rest]; [discriminate|].
    destruct (Ascii.eqb (canonicalize d) (canonicalize x)) eqn:E;
      [|discriminate].
    apply Ascii.eqb_eq in E.
    apply IH in H; [|discriminate].
    destruct H as (pre & rest' & -> & Hpre & Hk).
    exists (d :: pre), rest'. simpl. rewrite E, Hpre. tauto.
Qed.

(** A match does not touch the groups that the expression does not
    mention. *)
Lemma matcher_keeps (total : nat) (r : regex) :
  forall (rest : jsstring) (caps : captures) (k : cont) (c : captures),
    matcher total r rest caps k = Some c ->
    exists rest' caps',
      k rest' caps' = Some c
      /\ forall n, mentionsGroup r n = false -> capture n caps' = capture n caps.
Proof.
  induction r as [p | r1 IH1 r2 IH2 | r1 IH1 r2 IH2 | g min p | m r IH | ];
    intros rest caps k c H; simpl in H.
  - destruct rest as [|x rest]; [discriminate|].
    destruct (p x); [|discriminate]. exists rest, caps. tauto.
  - apply IH1 in H. destruct H as (rest1 & caps1 & H & M1).
    apply IH2 in H. destruct H as (rest2 & caps2 & H & M2).
    exists rest2, caps2. split; [exact H|].
    intros n Hn. simpl in Hn. apply orb_false_iff in Hn.
    rewrite M2, M1; tauto.
  - destruct (matcher total r1 rest caps k) eqn:E.
    + injection H as <-. apply IH1 in E.
      destruct E as (rest1 & caps1 & E & M1).
      exists rest1, caps1. split; [exact E|].
      intros n Hn. simpl in Hn. apply orb_false_iff in Hn. apply M1. tauto.
    + apply IH2 in H. destruct H as (rest2 & caps2 & H & M2).
      exists rest2, caps2. split; [exact H|].
      intros n Hn. simpl in Hn. apply orb_false_iff in Hn. apply M2. tauto.
  - assert (Hk : exists rest',
               k rest' caps = Some c /\ length rest' <= length rest).
    { destruct g; [eapply repGreedy_continues | eapply repLazy_continues];
        exact H. }
    destruct Hk as (rest' & Hk & _). exists rest', caps. tauto.
  - apply IH in H. destruct H as (rest1 & caps1 & H & M1).
    eexists rest1, _. split; [exact H|].
    intros n Hn. simpl in Hn. apply orb_false_iff in Hn.
    destruct Hn as [Hn1 Hn2]. simpl. rewrite Hn1. apply M1. exact Hn2.
  - destruct rest; [|discriminate]. exists [], caps. tauto.
Qed.

(** A first group that holds one of two words, whatever follows it. *)
Lemma matcher_word_group (total : nat) (a b : jsstring) (tail : regex)
  (rest : jsstring) (k : cont) (m : captures) :
  a <> [] -> b <> [] -> mentionsGroup tail 1 = false ->
  matcher total (Seq (Group 1 (Alt (literalI a) (literalI b))) tail)
    rest [] k = Some m ->
  exists pre rest' rest2 caps2,
    rest = pre ++ rest'
    /\ (sameUpToCase pre a \/ sameUpToCase pre b)
    /\ k rest2 caps2 = Some m
    /\ capture 1 caps2 = Some (total - length rest, total - length rest').
Proof.
  intros Ha Hb Htail H. cbn [matcher] in H.
  match type of H with
  | match matcher _ _ _ _ ?k1 with _ => _ end = _ => set (k1' := k1) in H
  end.
  assert (K : exists pre rest',
             rest = pre ++ rest'
             /\ (sameUpToCase pre a \/ sameUpToCase pre b)
             /\ k1' rest' [] = Some m).
  { destruct (matcher total (literalI a) rest [] k1') eqn:E.
    - injection H as <-. apply literalI_consumes in E; [|exact Ha].
      destruct E as (pre & rest' & E1 & E2 & E3). exists pre, rest'. tauto.
    - apply literalI_consumes in H; [|exact Hb].
      destruct H as (pre & rest' & E1 & E2 & E3). exists pre, rest'. tauto. }
  destruct K as (pre & rest' & Hrest & Hpre & Hk).
  unfold k1' in Hk. apply matcher_keeps in Hk.
  destruct Hk as (rest2 & caps2 & Hk & M).
  exists pre, rest', rest2, caps2.
  split; [exact Hrest|]. split; [exact Hpre|]. split; [exact Hk|].
  rewrite (M 1 Htail). simpl. reflexivity.
Qed.

Lemma matchAt_errorColon (total : nat) (rest : jsstring) (m : captures) :
  matchAt total errorColonPattern rest = Some m ->
  exists pre rest',
    rest = pre ++ rest'
    /\ (sameUpToCase pre (str "Error") \/ sameUpToCase pre (str "Exception"))
    /\ capture 1 m = Some (total - length rest, total - length rest').
Proof.
  unfold matchAt, errorColonPattern. intros H.
  apply matcher_word_group in H; [| discriminate | discriminate | reflexivity].
  destruct H as (pre & rest' & rest2 & caps2 & Hrest & Hpre & Hk & Hc).
  injection Hk as Hm. subst m.
  exists pre, rest'. split; [exact Hrest|]. split; [exact Hpre|].
  exact Hc.
Qed.

Lemma execFrom_step (total : nat) (r : regex) (rest : jsstring) :
  execFrom total r rest
  = match matchAt total r rest with
    | Some c => Some c
    | None =>
      match rest with
      | [] => None
      | _ :: rest' => execFrom total r rest'
      end
    end.
Proof. destruct rest; reflexivity. Qed.

Lemma execFrom_errorColon (stderr : jsstring) :
  forall (rest before : jsstring) (m : captures),
    stderr = before ++ rest ->
    execFrom (length stderr) errorColonPattern rest = Some m ->
    exists before' pre rest',
      stderr = before' ++ pre ++ rest'
      /\ (sameUpToCase pre (str "Error") \/ sameUpToCase pre (str "Exception"))
      /\ capture 1 m = Some (length before', length before' + length pre).
Proof.
  induction rest as [|x rest IH]; intros before m Hs H;
    rewrite execFrom_step in H;
    destruct (matchAt (length stderr) errorColonPattern _) eqn:E.
  - apply matchAt_errorColon in E.
    destruct E as (pre & rest' & Hr & Hpre & Hc).
    destruct pre; [|discriminate Hr].
    destruct Hpre as [Hp | Hp]; discriminate Hp.
  - discriminate.
  - injection H as Hm. subst m. apply matchAt_errorColon in E.
    destruct E as (pre & rest' & Hr & Hpre & Hc).
    exists before, pre, rest'. rewrite <- Hr. split; [exact Hs|].
    split; [exact Hpre|]. rewrite Hc. f_equal. f_equal.
    + rewrite Hs, length_app. lia.
    + rewrite Hs, Hr, !length_app. lia.
  - apply (IH (before ++ [x])); [|exact H].
    rewrite <- app_assoc. exact Hs.
Qed.

Lemma substring_middle (before pre rest : jsstring) :
  substring (length before) (length before + length pre)
    (before ++ pre ++ rest) = pre.
Proof.
  unfold substring.
  replace (length before + length pre - length before) with (length pre)
    by lia.
  rewrite skipn_app, skipn_all, Nat.sub_diag. simpl.
  rewrite firstn_app, firstn_all, Nat.sub_diag. simpl. apply app_nil_r.
Qed.

(** X23.  Whenever the [Error:]/[Exception:] pattern matches stderr,
    the signature is the matched word alone, as it is written in
    stderr: it equals [Error] or [Exception] up to the case of its
    letters, has 5 or 9 code units and is followed by a colon in
    stderr; the message after the colon is no part of it. *)
Theorem extractErrorSignature_error_word (stderr command : jsstring) :
  regexMatch stderr errorColonPattern <> None ->
  (sameUpToCase (extractErrorSignature stderr command) (str "Error")
   \/ sameUpToCase (extractErrorSignature stderr command) (str "Exception"))
  /\ (length (extractErrorSignature stderr command) = 5
      \/ length (extractErrorSignature stderr command) = 9)
  /\ exists before rest,
       stderr = before ++ extractErrorSignature stderr command ++ rest.
Proof.
  intros H.
  destruct (regexMatch stderr errorColonPattern) as [m|] eqn:E; [|congruence].
  pose proof E as E'. unfold regexMatch in E'.
  destruct (execFrom_errorColon stderr stderr [] m eq_refl E')
    as (before & pre & rest & Hs & Hpre & Hc).
  assert (Hlen : length pre = 5 \/ length pre = 9).
  { destruct Hpre as [Hp | Hp]; apply (f_equal (@length ascii)) in Hp;
      rewrite !length_map in Hp; [left | right]; exact Hp. }
  assert (Hsig : extractErrorSignature stderr command = pre).
  { unfold extractErrorSignature, errorMatch. rewrite E.
    unfold orElse, group. rewrite Hc, Hs, substring_middle.
    unfold substring. cbn [skipn]. rewrite Nat.sub_0_r.
    apply firstn_all2. lia. }
  rewrite Hsig. split; [exact Hpre|]. split; [exact Hlen|].
  exists before, rest. exact Hs.
Qed.

Lemma extractErrorSignature_error_word_witness :
  length (extractErrorSignature (str "RangeError: index 7") (str "node app"))
  = 5
  \/ length (extractErrorSignature (str "RangeError: index 7") (str "node app"))
     = 9.
Proof.
  apply (extractErrorSignature_error_word (str "RangeError: index 7")
           (str "node app")).
  vm_compute. discriminate.
Defined.

(** * Binary64 *)

(** ** The order of the numbers *)

Lemma digits2_pos_bounds (m : positive) :
  (2 ^ (Zpos (digits2_pos m) - 1) <= Zpos m < 2 ^ Zpos (digits2_pos m))%Z.
Proof.
  induction m as [m IH | m IH |]; simpl digits2_pos.
  - rewrite Pos2Z.inj_succ.
    replace (Z.succ (Zpos (digits2_pos m)) - 1)%Z
      with (Z.succ (Zpos (digits2_pos m) - 1)) by lia.
    rewrite !Z.pow_succ_r by lia. lia.
  - rewrite Pos2Z.inj_succ.
    replace (Z.succ (Zpos (digits2_pos m)) - 1)%Z
      with (Z.succ (Zpos (digits2_pos m) - 1)) by lia.
    rewrite !Z.pow_succ_r by lia. lia.
  - simpl. lia.
Qed.

Lemma valid_finite (s : bool) (m : positive) (e : Z) :
  valid_binary (S754_finite s m e) = true ->
  (-1074 <= e <= 971)%Z /\ (Zpos m < 2 ^ 53)%Z
  /\ (e = -1074 \/ 2 ^ 52 <= Zpos m)%Z.
Proof.
  unfold SpecFloat.valid_binary, bounded, canonical_mantissa, fexp, SpecFloat.emin.
  intros H. apply andb_true_iff in H. destruct H as [H1 H2].
  apply Z.eqb_eq in H1. apply Z.leb_le in H2.
  change prec with 53%Z in *. change emax with 1024%Z in *.
  pose proof (digits2_pos_bounds m) as [Hlo Hhi].
  assert (Hd : (Zpos (digits2_pos m) <= 53)%Z) by lia.
  split; [lia|]. split.
  - eapply Z.lt_le_trans; [exact Hhi|].
    apply Z.pow_le_mono_r; lia.
  - destruct (Z.eq_dec e (-1074)) as [He | He]; [left; exact He|right].
    assert (Hd' : Zpos (digits2_pos m) = 53%Z) by lia.
    rewrite Hd' in Hlo. exact Hlo.
Qed.

Lemma magnitude_pos (m : positive) (e : Z) :
  (-1074 <= e)%Z -> (0 < Zpos m * 2 ^ (e + 1074))%Z.
Proof.
  intros He. apply Z.mul_pos_pos; [lia|]. apply Z.pow_pos_nonneg; lia.
Qed.

Lemma magnitude_bound (s : bool) (m : positive) (e : Z) :
  valid_binary (S754_finite s m e) = true ->
  (0 < Zpos m * 2 ^ (e + 1074) < 2 ^ 2200)%Z.
Proof.
  intros H. apply valid_finite in H. destruct H as (He & Hm & _).
  split; [apply magnitude_pos; lia|].
  apply Z.lt_le_trans with (2 ^ 53 * 2 ^ (e + 1074))%Z.
  - apply Z.mul_lt_mono_pos_r; [apply Z.pow_pos_nonneg; lia | exact Hm].
  - rewrite <- Z.pow_add_r by lia. apply Z.pow_le_mono_r; lia.
Qed.

(** Of two numbers in canonical form the one with the smaller exponent
    is the smaller one. *)
Lemma magnitude_lt (s1 s2 : bool) (m1 m2 : positive) (e1 e2 : Z) :
  valid_binary (S754_finite s1 m1 e1) = true ->
  valid_binary (S754_finite s2 m2 e2) = true ->
  (e1 < e2)%Z ->
  (Zpos m1 * 2 ^ (e1 + 1074) < Zpos m2 * 2 ^ (e2 + 1074))%Z.
Proof.
  intros H1 H2 He. apply valid_finite in H1, H2.
  destruct H1 as (He1 & Hm1 & _). destruct H2 as (He2 & _ & Hm2).
  destruct Hm2 as [Hm2 | Hm2]; [exfalso; clear - He He1 Hm2; lia|].
  replace (e2 + 1074)%Z with ((e1 + 1074) + (e2 - e1))%Z by lia.
  rewrite (Z.pow_add_r 2 (e1 + 1074) (e2 - e1)) by lia.
  assert (Hp : (0 < 2 ^ (e1 + 1074))%Z) by (apply Z.pow_pos_nonneg; lia).
  assert (Hq : (2 ^ 1 <= 2 ^ (e2 - e1))%Z) by (apply Z.pow_le_mono_r; lia).
  change (2 ^ 1)%Z with 2%Z in Hq.
  change (2 ^ 53)%Z with (2 ^ 52 * 2)%Z in Hm1.
  apply Z.lt_le_trans with (2 ^ 52 * 2 * 2 ^ (e1 + 1074))%Z.
  - apply Z.mul_lt_mono_pos_r; assumption.
  - rewrite (Z.mul_comm (2 ^ (e1 + 1074))), Z.mul_assoc.
    apply Z.mul_le_mono_nonneg_r; [lia|].
    apply Z.mul_le_mono_nonneg; lia.
Qed.

Lemma compare_cont_Eq (m1 m2 : positive) :
  Pos.compare_cont Eq m1 m2 = (Zpos m1 ?= Zpos m2)%Z.
Proof. reflexivity. Qed.

Ltac order_of_ranks :=
  cbv iota;
  match goal with
  | |- (_ ?= _)%Z = Eq => apply Z.compare_eq_iff; lia
  | |- (_ ?= _)%Z = Lt => apply Z.compare_lt_iff; lia
  | |- (_ ?= _)%Z = Gt => apply Z.compare_gt_iff; lia
  end.

(** The comparison of binary64 is the comparison of the ranks. *)
Lemma SFcompare_rank (x y : spec_float) :
  valid_binary x = true -> valid_binary y = true ->
  x <> S754_nan -> y <> S754_nan ->
  SFcompare x y = Some (rankSF x ?= rankSF y)%Z.
Proof.
  intros Vx Vy Nx Ny.
  assert (Hbig : (0 < 2 ^ 2200)%Z) by (apply Z.pow_pos_nonneg; lia).
  destruct x as [sx | sx | | sx mx ex]; try congruence;
    destruct y as [sy | sy | | sy my ey]; try congruence;
    try pose proof (magnitude_bound _ _ _ Vx) as Bx;
    try pose proof (magnitude_bound _ _ _ Vy) as By;
    unfold SFcompare, rankSF, cond_Zopp; f_equal; symmetry;
    try (destruct sx; order_of_ranks);
    try (destruct sy; order_of_ranks);
    try (destruct sx, sy; order_of_ranks).
  destruct (Z.compare_spec ex ey) as [He | He | He].
  - subst ey. rewrite compare_cont_Eq.
    assert (Hp : (0 < 2 ^ (ex + 1074))%Z)
      by (apply valid_finite in Vx; apply Z.pow_pos_nonneg; lia).
    destruct (Z.compare_spec (Zpos mx) (Zpos my)) as [Hm | Hm | Hm].
    + injection Hm as ->. destruct sx, sy; simpl CompOpp; order_of_ranks.
    + assert (Zpos mx * 2 ^ (ex + 1074) < Zpos my * 2 ^ (ex + 1074))%Z
        by (apply Z.mul_lt_mono_pos_r; assumption).
      destruct sx, sy; simpl CompOpp; order_of_ranks.
    + assert (Zpos my * 2 ^ (ex + 1074) < Zpos mx * 2 ^ (ex + 1074))%Z
        by (apply Z.mul_lt_mono_pos_r; assumption).
      destruct sx, sy; simpl CompOpp; order_of_ranks.
  - pose proof (magnitude_lt _ _ _ _ _ _ Vx Vy He).
    destruct sx, sy; order_of_ranks.
  - pose proof (magnitude_lt _ _ _ _ _ _ Vy Vx He).
    destruct sx, sy; order_of_ranks.
Qed.

Lemma is_nan_false (x : float) :
  is_nan x = false <-> Prim2SF x <> S754_nan.
Proof.
  unfold is_nan. rewrite eqb_spec, negb_false_iff. unfold SFeqb. split.
  - intros H E. rewrite E in H. discriminate.
  - intros N.
    rewrite (SFcompare_rank _ _ (Prim2SF_valid x) (Prim2SF_valid x) N N).
    rewrite Z.compare_refl. reflexivity.
Qed.

Lemma compare_rank (x y : float) :
  is_nan x = false -> is_nan y = false ->
  SFcompare (Prim2SF x) (Prim2SF y) = Some (rank x ?= rank y)%Z.
Proof.
  intros Nx Ny. apply SFcompare_rank;
    try apply Prim2SF_valid; apply is_nan_false; assumption.
Qed.

Lemma ltb_rank (x y : float) :
  is_nan x = false -> is_nan y = false ->
  (x <? y)%float = (rank x <? rank y)%Z.
Proof.
  intros Nx Ny. rewrite ltb_spec. unfold SFltb, Z.ltb.
  rewrite (compare_rank x y Nx Ny). reflexivity.
Qed.

Lemma leb_rank (x y : float) :
  is_nan x = false -> is_nan y = false ->
  (x <=? y)%float = (rank x <=? rank y)%Z.
Proof.
  intros Nx Ny. rewrite leb_spec. unfold SFleb, Z.leb.
  rewrite (compare_rank x y Nx Ny). destruct (rank x ?= rank y)%Z; reflexivity.
Qed.

Lemma eqb_rank (x y : float) :
  is_nan x = false -> is_nan y = false ->
  (x =? y)%float = (rank x =? rank y)%Z.
Proof.
  intros Nx Ny. rewrite eqb_spec. unfold SFeqb.
  rewrite (compare_rank x y Nx Ny).
  destruct (Z.compare_spec (rank x) (rank y)) as [H | H | H]; symmetry;
    [apply Z.eqb_eq | apply Z.eqb_neq | apply Z.eqb_neq]; lia.
Qed.

(** A comparison that holds has numbers on both sides. *)
Lemma leb_numbers (x y : float) :
  (x <=? y)%float = true -> is_nan x = false /\ is_nan y = false.
Proof.
  rewrite leb_spec. unfold SFleb. intros H.
  split; apply is_nan_false; intros E; rewrite E in H;
    [| destruct (Prim2SF x)]; discriminate.
Qed.

(** *** Rounding keeps the sign *)

Lemma iter_xO_value (m d : positive) :
  Zpos (Pos.iter xO m d) = (Zpos m * 2 ^ Zpos d)%Z.
Proof.
  induction d as [|d IH] using Pos.peano_ind.
  - simpl. lia.
  - rewrite Pos.iter_succ, Pos2Z.inj_succ, Z.pow_succ_r by lia.
    rewrite Pos2Z.inj_xO, IH. lia.
Qed.

Lemma shl_align_value (m : positive) (e e' : Z) :
  (e' <= e)%Z ->
  snd (shl_align m e e') = e'
  /\ Zpos (fst (shl_align m e e')) = (Zpos m * 2 ^ (e - e'))%Z.
Proof.
  intros H. unfold shl_align.
  destruct (e' - e)%Z as [|d|d] eqn:E; simpl.
  - replace (e - e')%Z with 0%Z by lia. simpl. lia.
  - lia.
  - replace (e - e')%Z with (Zpos d) by lia. split; [reflexivity|].
    apply iter_xO_value.
Qed.

Lemma shr_1_half (mrs : shr_record) :
  (0 <= shr_m mrs)%Z -> shr_m (shr_1 mrs) = (shr_m mrs / 2)%Z.
Proof.
  destruct mrs as [m r s]. simpl. intros H.
  destruct m as [|[p|p|]|p]; simpl; try reflexivity; try lia.
  - apply Z.div_unique with 1%Z; lia.
  - apply Z.div_unique with 0%Z; lia.
Qed.

Lemma pow2_double (k : positive) :
  (2 ^ Zpos k~0 = 2 ^ Zpos k * 2 ^ Zpos k)%Z.
Proof. rewrite <- Z.pow_add_r by lia. f_equal. lia. Qed.

Lemma iter_shr_1 (k : positive) :
  forall mrs : shr_record,
    (0 <= shr_m mrs)%Z ->
    shr_m (iter_pos shr_1 k mrs) = (shr_m mrs / 2 ^ Zpos k)%Z.
Proof.
  induction k as [k IH | k IH |]; intros mrs H; simpl iter_pos.
  - assert (HP : (0 < 2 ^ Zpos k)%Z) by (apply Z.pow_pos_nonneg; lia).
    assert (H1 : (0 <= shr_m (shr_1 mrs))%Z)
      by (rewrite shr_1_half by exact H; apply Z.div_pos; lia).
    assert (H2 : (0 <= shr_m (iter_pos shr_1 k (shr_1 mrs)))%Z)
      by (rewrite IH by exact H1; apply Z.div_pos; lia).
    rewrite IH by exact H2. rewrite IH by exact H1.
    rewrite shr_1_half by exact H.
    rewrite !Z.div_div by lia. f_equal.
    rewrite Pos2Z.inj_xI, Z.pow_add_r by lia.
    change (2 * Zpos k)%Z with (Zpos k~0). rewrite pow2_double.
    change (2 ^ 1)%Z with 2%Z. lia.
  - assert (HP : (0 < 2 ^ Zpos k)%Z) by (apply Z.pow_pos_nonneg; lia).
    assert (H2 : (0 <= shr_m (iter_pos shr_1 k mrs))%Z)
      by (rewrite IH by exact H; apply Z.div_pos; lia).
    rewrite IH by exact H2. rewrite IH by exact H.
    rewrite Z.div_div by lia. f_equal. symmetry. apply pow2_double.
  - rewrite shr_1_half by exact H. reflexivity.
Qed.

Lemma shr_m_of_loc (m : Z) (l : location) :
  shr_m (shr_record_of_loc m l) = m.
Proof. destruct l as [|[]]; reflexivity. Qed.

Lemma shr_fexp_pos (m e : Z) (l : location) :
  (0 < m)%Z -> (-1074 <= e)%Z ->
  (0 < shr_m (fst (shr_fexp prec emax m e l)))%Z
  /\ (-1074 <= snd (shr_fexp prec emax m e l))%Z.
Proof.
  intros Hm He. destruct m as [|p|p]; try lia.
  unfold shr_fexp, shr, fexp, SpecFloat.emin, Zdigits2.
  change prec with 53%Z. change emax with 1024%Z.
  destruct (Z.max (Zpos (digits2_pos p) + e - 53) (3 - 1024 - 53) - e)%Z
    as [|k|k] eqn:E; cbn [fst snd];
    try (rewrite shr_m_of_loc; lia).
  rewrite iter_shr_1 by (rewrite shr_m_of_loc; lia).
  rewrite shr_m_of_loc. split; [|lia].
  assert (Hk : (Zpos (digits2_pos p) - 1 = 52 + Zpos k)%Z) by lia.
  pose proof (digits2_pos_bounds p) as [Hlo _].
  rewrite Hk, Z.pow_add_r in Hlo by lia.
  assert (HP : (0 < 2 ^ Zpos k)%Z) by (apply Z.pow_pos_nonneg; lia).
  apply Z.lt_le_trans with (2 ^ 52)%Z; [reflexivity|].
  apply Z.div_le_lower_bound; [exact HP|]. lia.
Qed.

Lemma round_nearest_even_pos (m : Z) (l : location) :
  (0 < m)%Z -> (0 < round_nearest_even m l)%Z.
Proof.
  intros H. destruct l as [|[]]; simpl; try lia. destruct (Z.even m); lia.
Qed.

(** Rounding a non-zero number gives a number of the same sign, finite
    or infinite: never a zero. *)
Lemma binary_round_aux_signed (s : bool) (m e : Z) (l : location) :
  (0 < m)%Z -> (-1074 <= e)%Z ->
  signed s (binary_round_aux prec emax s m e l).
Proof.
  intros Hm He. unfold binary_round_aux.
  destruct (shr_fexp_pos m e l Hm He) as [H1 H2].
  destruct (shr_fexp prec emax m e l) as [mrs' e']. cbn [fst snd] in H1, H2.
  pose proof (round_nearest_even_pos _ (loc_of_shr_record mrs') H1) as H3.
  destruct (shr_fexp_pos _ e' loc_Exact H3 H2) as [H4 _].
  destruct (shr_fexp prec emax _ e' loc_Exact) as [mrs'' e''].
  cbn [fst] in H4. destruct (shr_m mrs'') as [|q|q]; try lia.
  destruct (e'' <=? emax - prec)%Z; [right; eauto | left; reflexivity].
Qed.

Lemma binary_round_signed (s : bool) (m : positive) (e : Z) :
  (-1074 <= e)%Z -> signed s (binary_round prec emax s m e).
Proof.
  intros He. unfold binary_round.
  destruct (shl_align m e (fexp prec emax (Zpos (digits2_pos m) + e)))
    as [mz ez] eqn:E.
  apply binary_round_aux_signed; [lia|].
  unfold shl_align in E.
  destruct (fexp prec emax (Zpos (digits2_pos m) + e) - e)%Z eqn:F;
    injection E as <- <-; try exact He.
  unfold fexp, SpecFloat.emin. change prec with 53%Z. change emax with 1024%Z.
  lia.
Qed.

Lemma signed_below_zero (s : bool) (x : spec_float) :
  signed s x ->
  SFltb x (S754_zero false) = s /\ SFltb (S754_zero false) x = negb s.
Proof.
  intros [-> | (m & e & ->)]; destruct s; split; reflexivity.
Qed.

Lemma aligned_rank (s : bool) (m : positive) (e ez : Z) :
  (-1074 <= ez <= e)%Z ->
  rankSF (S754_finite s m e)
  = (cond_Zopp s (Zpos (fst (shl_align m e ez))) * 2 ^ (ez + 1074))%Z.
Proof.
  intros H. destruct (shl_align_value m e ez) as [_ ->]; [lia|].
  unfold rankSF. replace (e + 1074)%Z with ((e - ez) + (ez + 1074))%Z by lia.
  rewrite Z.pow_add_r by lia. destruct s; unfold cond_Zopp; ring.
Qed.

Ltac ltb_of_ranks :=
  unfold rankSF, cond_Zopp; symmetry;
  first [apply Z.ltb_lt; lia | apply Z.ltb_ge; lia].

(** The sign of a difference is the order of its operands. *)
Lemma SFsub_sign (x y : spec_float) :
  valid_binary x = true -> valid_binary y = true ->
  x <> S754_nan -> y <> S754_nan ->
  SFltb (SF64sub x y) (S754_zero false) = (rankSF x <? rankSF y)%Z
  /\ SFltb (S754_zero false) (SF64sub x y) = (rankSF y <? rankSF x)%Z.
Proof.
  intros Vx Vy Nx Ny.
  assert (Hbig : (0 < 2 ^ 2200)%Z) by (apply Z.pow_pos_nonneg; lia).
  destruct x as [sx | sx | | sx mx ex]; try congruence;
    destruct y as [sy | sy | | sy my ey]; try congruence;
    try pose proof (magnitude_bound _ _ _ Vx) as Bx;
    try pose proof (magnitude_bound _ _ _ Vy) as By;
    try pose proof (valid_finite _ _ _ Vx) as (Ex & _);
    try pose proof (valid_finite _ _ _ Vy) as (Ey & _);
    try (destruct sx, sy;
         cbn [SF64sub SFsub SFltb SFcompare negb];
         split; ltb_of_ranks).
  unfold SF64sub, SFsub.
  set (ez := Z.min ex ey).
  assert (Hz : (-1074 <= ez)%Z) by (unfold ez; lia).
  rewrite (aligned_rank sx mx ex ez), (aligned_rank sy my ey ez)
    by (unfold ez; lia).
  set (ax := cond_Zopp sx (Zpos (fst (shl_align mx ex ez)))).
  set (ay := cond_Zopp sy (Zpos (fst (shl_align my ey ez)))).
  assert (HP : (0 < 2 ^ (ez + 1074))%Z) by (apply Z.pow_pos_nonneg; lia).
  unfold binary_normalize.
  destruct (ax - ay)%Z as [|d|d] eqn:D.
  - replace ax with ay by lia.
    split; cbn [SFltb SFcompare]; symmetry; apply Z.ltb_ge; lia.
  - destruct (signed_below_zero false _ (binary_round_signed false d ez Hz))
      as [-> ->].
    assert (ay * 2 ^ (ez + 1074) < ax * 2 ^ (ez + 1074))%Z
      by (apply Z.mul_lt_mono_pos_r; lia).
    split; symmetry; [apply Z.ltb_ge | apply Z.ltb_lt]; lia.
  - destruct (signed_below_zero true _ (binary_round_signed true d ez Hz))
      as [-> ->].
    assert (ax * 2 ^ (ez + 1074) < ay * 2 ^ (ez + 1074))%Z
      by (apply Z.mul_lt_mono_pos_r; lia).
    split; symmetry; [apply Z.ltb_lt | apply Z.ltb_ge]; lia.
Qed.

Lemma sub_sign (x y : float) :
  is_nan x = false -> is_nan y = false ->
  (x - y <? 0)%float = (rank x <? rank y)%Z.
Proof.
  intros Nx Ny. rewrite ltb_spec, sub_spec.
  change (Prim2SF 0) with (S754_zero false).
  apply SFsub_sign; try apply Prim2SF_valid; apply is_nan_false; assumption.
Qed.

(** A comparator [(a, b) => key(b) - key(a)] is consistent on numbers:
    it is negative on [(a, b)] exactly when it is positive on
    [(b, a)]. *)
Lemma comparator_consistent (x y : float) :
  is_nan x = false -> is_nan y = false ->
  (0 <? y - x)%float = (x - y <? 0)%float.
Proof.
  intros Nx Ny. rewrite (sub_sign x y Nx Ny), ltb_spec, sub_spec.
  change (Prim2SF 0) with (S754_zero false).
  apply SFsub_sign; try apply Prim2SF_valid; apply is_nan_false; assumption.
Qed.

Lemma ltb_numbers (x y : float) :
  (x <? y)%float = true -> is_nan x = false /\ is_nan y = false.
Proof.
  rewrite ltb_spec. unfold SFltb. intros H.
  split; apply is_nan_false; intros E; rewrite E in H;
    [| destruct (Prim2SF x)]; discriminate.
Qed.

(** ** [Math.min] *)

Lemma classify_NZero (x : float) : classify x = NZero -> rank x = 0%Z.
Proof.
  rewrite classify_spec. unfold rank, SF64classify, SFclassify.
  destruct (Prim2SF x) as [[] | [] | | [] m e]; try discriminate;
    try reflexivity;
    destruct (Zpos (digits2_pos m) =? prec)%Z; discriminate.
Qed.

Lemma Math_min_lt (x y : float) :
  (x <? y)%float = true -> Binary64.Math_min x y = x.
Proof.
  intros H. unfold Binary64.Math_min.
  destruct (ltb_numbers x y H) as [-> ->]. rewrite H. reflexivity.
Qed.

Lemma Math_min_ge (x y : float) :
  (y <=? x)%float = true -> rank y <> 0%Z -> Binary64.Math_min x y = y.
Proof.
  intros H Hy. unfold Binary64.Math_min.
  destruct (leb_numbers y x H) as [Ny Nx]. rewrite Nx, Ny. simpl.
  rewrite (leb_rank y x Ny Nx) in H. apply Z.leb_le in H.
  rewrite (ltb_rank x y Nx Ny), (ltb_rank y x Ny Nx).
  replace (rank x <? rank y)%Z with false by (symmetry; apply Z.ltb_ge; lia).
  destruct (rank y <? rank x)%Z eqn:E; [reflexivity|].
  apply Z.ltb_ge in E.
  destruct (classify x) eqn:C; try reflexivity.
  apply classify_NZero in C. lia.
Qed.

Lemma Math_min_nan (x y : float) :
  is_nan x = true -> Binary64.Math_min x y = nan.
Proof. intros H. unfold Binary64.Math_min. rewrite H. reflexivity. Qed.

(** A minimum that is a number is not above its second argument. *)
Lemma Math_min_le_r (x y : float) :
  is_nan (Binary64.Math_min x y) = false ->
  (Binary64.Math_min x y <=? y)%float = true.
Proof.
  unfold Binary64.Math_min.
  destruct (is_nan x) eqn:Nx; [discriminate|].
  destruct (is_nan y) eqn:Ny; [discriminate|]. simpl.
  rewrite (ltb_rank x y Nx Ny), (ltb_rank y x Ny Nx).
  destruct (rank x <? rank y)%Z eqn:E1.
  - intros _. rewrite (leb_rank x y Nx Ny). apply Z.leb_le.
    apply Z.ltb_lt in E1. lia.
  - apply Z.ltb_ge in E1.
    destruct (rank y <? rank x)%Z eqn:E2.
    + intros _. rewrite (leb_rank y y Ny Ny). apply Z.leb_refl.
    + apply Z.ltb_ge in E2.
      destruct (classify x); intros _;
        rewrite ?(leb_rank x y Nx Ny), ?(leb_rank y y Ny Ny);
        apply Z.leb_le; lia.
Qed.

(** ** Products and zeros *)

Lemma SFmul_comm (x y : spec_float) : SF64mul x y = SF64mul y x.
Proof.
  destruct x as [sx | sx | | sx mx ex], y as [sy | sy | | sy my ey];
    unfold SF64mul, SFmul; rewrite ?(xorb_comm sx sy); try reflexivity.
  rewrite (Pos.mul_comm mx my), (Z.add_comm ex ey). reflexivity.
Qed.

Lemma mul_comm (x y : float) : (x * y = y * x)%float.
Proof. apply Prim2SF_inj. rewrite !mul_spec. apply SFmul_comm. Qed.

Lemma eqb_zero (x : float) :
  (x =? 0)%float = true -> exists s, Prim2SF x = S754_zero s.
Proof.
  rewrite eqb_spec. change (Prim2SF 0) with (S754_zero false).
  unfold SFeqb, SFcompare.
  destruct (Prim2SF x) as [s | [] | | [] m e]; try discriminate.
  intros _. exists s. reflexivity.
Qed.

Lemma square_of_zero (x : float) :
  (x =? 0)%float = true -> (x * x)%float = 0%float.
Proof.
  intros H. destruct (eqb_zero x H) as [s Hs].
  apply Prim2SF_inj. rewrite mul_spec, Hs. destruct s; reflexivity.
Qed.

Lemma zero_plus_zero : (0 + 0)%float = 0%float.
Proof. reflexivity. Qed.

(** ** Sorting on a key *)

Lemma insertSorted_members {A : Type} (before before' : A -> A -> bool)
  (x : A) (l : list A) :
  (forall y, In y l -> before y x = before' y x) ->
  insertSorted before x l = insertSorted before' x l.
Proof.
  induction l as [|y l IH]; intros H; simpl; [reflexivity|].
  rewrite (H y (or_introl eq_refl)).
  destruct (before' y x); [|reflexivity].
  f_equal. apply IH. intros z Hz. apply H. right. exact Hz.
Qed.

(** The sort depends on the comparator only through its values on the
    elements of the list. *)
Lemma stableSort_members {A : Type} (before before' : A -> A -> bool)
  (l : list A) :
  (forall x y, In x l -> In y l -> before y x = before' y x) ->
  stableSort before l = stableSort before' l.
Proof.
  unfold stableSort. induction l as [|x l IH]; intros H; simpl;
    [reflexivity|].
  rewrite IH by (intros a b Ha Hb; apply H; right; assumption).
  apply insertSorted_members. intros y Hy. apply H.
  - left. reflexivity.
  - right. apply (Permutation_in _ (stableSort_perm before' l)). exact Hy.
Qed.

Lemma StronglySorted_members {A : Type} (R R' : A -> A -> Prop)
  (l : list A) :
  (forall a b, In a l -> In b l -> R a b -> R' a b) ->
  StronglySorted R l -> StronglySorted R' l.
Proof.
  intros H S. induction S as [|x l Sl IH Hx]; constructor.
  - apply IH. intros a b Ha Hb. apply H; right; assumption.
  - rewrite Forall_forall in *. intros y Hy.
    apply H; [left; reflexivity | right; exact Hy | apply Hx; exact Hy].
Qed.

(** Sorting numbers with the comparator [(a, b) => key(b) - key(a)]
    puts them in descending order. *)
Lemma stableSort_numbers {A : Type} (key : A -> float) (l : list A) :
  (forall x, In x l -> is_nan (key x) = false) ->
  stableSort (fun a b => (key b - key a <? 0)%float) l
  = stableSort (fun y x => (rank (key x) <? rank (key y))%Z) l
  /\ StronglySorted (fun a b => (key b <=? key a)%float = true)
       (stableSort (fun a b => (key b - key a <? 0)%float) l).
Proof.
  intros N.
  assert (E : stableSort (fun a b => (key b - key a <? 0)%float) l
              = stableSort (fun y x => (rank (key x) <? rank (key y))%Z) l).
  { apply stableSort_members. intros x y Hx Hy.
    apply sub_sign; apply N; assumption. }
  split; [exact E|]. rewrite E.
  apply StronglySorted_members
    with (R := fun a b => (rank (key b) <= rank (key a))%Z).
  - intros a b Ha Hb H.
    apply (Permutation_in _ (stableSort_perm _ l)) in Ha, Hb.
    rewrite leb_rank by (apply N; assumption). apply Z.leb_le. exact H.
  - apply (stableSort_descending A (fun x => rank (key x))).
Qed.

(** ** The confidence score *)

(** C2.  [calculateConfidence s p c] is the weighted sum
    [0.5 s + 0.3 [p] + 0.2 c], every product and sum rounded to
    binary64, clamped above at 1 and not clamped below: a sum below 1
    is returned as it is, a sum of 1 or more gives 1, a sum that is
    [NaN] gives [NaN].  At (0.9, true, 0.4) the result is
    0.8300000000000001, which is not the number 0.83 and reaches the
    threshold 0.75. *)
Theorem calculateConfidence_rounded :
  (forall (s : float) (p : bool) (c : float),
      let score := Binary64.weightedSum s p c in
      ((score <? 1)%float = true ->
       Binary64.calculateConfidence s p c = score)
      /\ ((1 <=? score)%float = true ->
          Binary64.calculateConfidence s p c = 1%float)
      /\ (is_nan score = true ->
          Binary64.calculateConfidence s p c = nan))
  /\ Binary64.calculateConfidence 0.9 true 0.4 = 0.8300000000000001%float
  /\ (0.75 <=? Binary64.calculateConfidence 0.9 true 0.4)%float = true
  /\ Binary64.calculateConfidence (-1) false (-1) = (-0.7)%float.
Proof.
  split; [|repeat split].
  intros s p c score.
  change (Binary64.calculateConfidence s p c)
    with (Binary64.Math_min score 1).
  split; [|split].
  - apply Math_min_lt.
  - intros H. apply Math_min_ge; [exact H | discriminate].
  - apply Math_min_nan.
Qed.

(** C2 as specified does not hold: the result at (0.9, true, 0.4) is
    not the number 0.83. *)
Lemma calculateConfidence_claim_fails :
  (Binary64.calculateConfidence 0.9 true 0.4 =? 0.83)%float = false.
Proof. reflexivity. Qed.

(** ** Cosine similarity *)

Lemma cosineLoop_sums (a b : list float) :
  length a = length b ->
  forall d na nb : float,
    fold_left
      (fun acc xy =>
         let '(dotProduct, normA, normB) := acc in
         (dotProduct + fst xy * snd xy,
          normA + fst xy * fst xy,
          normB + snd xy * snd xy)%float)
      (combine a b) (d, na, nb)
    = (fold_left (fun acc xy => (acc + fst xy * snd xy)%float)
         (combine a b) d,
       fold_left (fun acc xy => (acc + fst xy * snd xy)%float)
         (combine a a) na,
       fold_left (fun acc xy => (acc + fst xy * snd xy)%float)
         (combine b b) nb).
Proof.
  revert b. induction a as [|x a IH]; intros [|y b] Hlen d na nb;
    try discriminate; [reflexivity|].
  simpl. apply IH. injection Hlen as Hlen. exact Hlen.
Qed.

(** The three sums of the loop of [cosineSimilarity]. *)
Lemma cosineLoop_dot (a b : list float) :
  length a = length b ->
  Binary64.cosineLoop (combine a b)
  = (Binary64.dot a b, Binary64.dot a a, Binary64.dot b b).
Proof. intros H. apply cosineLoop_sums. exact H. Qed.

Lemma dot_zeroVector (a : list float) :
  Binary64.zeroVector a -> Binary64.dot a a = 0%float.
Proof.
  unfold Binary64.dot. induction 1 as [|x a Hx _ IH]; [reflexivity|].
  simpl. rewrite (square_of_zero x Hx), zero_plus_zero. exact IH.
Qed.

(** C9.  [cosineSimilarity a b] is 0 when the lengths differ or when
    every component of one of the vectors is zero; nothing is raised.
    For vectors of one length it is 0 whenever one of the sums of
    squares, as the loop computes them, is zero, and otherwise the
    computed dot product divided by the product of the square roots of
    the computed sums of squares. *)
Theorem cosineSimilarity_rounded (a b : list float) :
  (length a <> length b \/ Binary64.zeroVector a \/ Binary64.zeroVector b ->
   Binary64.cosineSimilarity a b = 0%float)
  /\ (length a = length b ->
      Binary64.cosineSimilarity a b
      = if (Binary64.dot a a =? 0)%float || (Binary64.dot b b =? 0)%float
        then 0%float
        else (Binary64.dot a b
              / (sqrt (Binary64.dot a a) * sqrt (Binary64.dot b b)))%float).
Proof.
  assert (E : length a = length b ->
              Binary64.cosineSimilarity a b
              = if (Binary64.dot a a =? 0)%float
                   || (Binary64.dot b b =? 0)%float
                then 0%float
                else (Binary64.dot a b
                      / (sqrt (Binary64.dot a a)
                         * sqrt (Binary64.dot b b)))%float).
  { intros H. unfold Binary64.cosineSimilarity.
    rewrite (proj2 (Nat.eqb_eq _ _) H), (cosineLoop_dot a b H). reflexivity. }
  split; [|exact E].
  intros [H | H].
  - unfold Binary64.cosineSimilarity.
    rewrite (proj2 (Nat.eqb_neq _ _) H). reflexivity.
  - destruct (Nat.eq_dec (length a) (length b)) as [L | L].
    + rewrite (E L). destruct H as [H | H]; rewrite (dot_zeroVector _ H).
      * reflexivity.
      * rewrite orb_true_r. reflexivity.
    + unfold Binary64.cosineSimilarity.
      rewrite (proj2 (Nat.eqb_neq _ _) L). reflexivity.
Qed.

Lemma cosineSimilarity_rounded_witness :
  Binary64.cosineSimilarity [1]%float [1; 2]%float = 0%float.
Proof.
  apply (cosineSimilarity_rounded [1]%float [1; 2]%float).
  left. discriminate.
Defined.

(** C9 as specified does not hold: the vector (1e-200, 0) is not zero,
    but its squares underflow; the similarity with itself is 0, where
    the quotient of the specification is 1 in exact arithmetic and
    [NaN] in binary64. *)
Lemma cosineSimilarity_claim_fails :
  (1e-200 =? 0)%float = false
  /\ ~ Binary64.zeroVector [1e-200; 0]%float
  /\ Binary64.cosineSimilarity [1e-200; 0]%float [1e-200; 0]%float = 0%float
  /\ is_nan
       (Binary64.dot [1e-200; 0] [1e-200; 0]
        / (sqrt (Binary64.dot [1e-200; 0] [1e-200; 0])
           * sqrt (Binary64.dot [1e-200; 0] [1e-200; 0])))%float = true.
Proof.
  split; [reflexivity|]. split; [|split; reflexivity].
  intros H. inversion H as [|? ? Hx _]. discriminate Hx.
Qed.

(** The similarity does not depend on the order of the vectors. *)
Lemma cosineLoop_swap (a b : list float) :
  forall d na nb : float,
    fold_left
      (fun acc xy =>
         let '(dotProduct, normA, normB) := acc in
         (dotProduct + fst xy * snd xy,
          normA + fst xy * fst xy,
          normB + snd xy * snd xy)%float)
      (combine b a) (d, nb, na)
    = let '(d', na', nb') :=
        fold_left
          (fun acc xy =>
             let '(dotProduct, normA, normB) := acc in
             (dotProduct + fst xy * snd xy,
              normA + fst xy * fst xy,
              normB + snd xy * snd xy)%float)
          (combine a b) (d, na, nb) in
      (d', nb', na').
Proof.
  revert b. induction a as [|x a IH]; intros [|y b] d na nb;
    try reflexivity.
  simpl. rewrite (mul_comm y x). apply IH.
Qed.

(** X21.  [cosineSimilarity] does not depend on the order of its
    arguments: both orders give the same number, rounding included. *)
Theorem cosineSimilarity_sym (a b : list float) :
  Binary64.cosineSimilarity a b = Binary64.cosineSimilarity b a.
Proof.
  unfold Binary64.cosineSimilarity, Binary64.cosineLoop.
  rewrite (Nat.eqb_sym (length b)).
  destruct (length a =? length b); [|reflexivity]. simpl.
  rewrite (cosineLoop_swap a b).
  destruct (fold_left _ (combine a b) _) as [[d na] nb].
  rewrite (orb_comm (nb =? 0)%float), (mul_comm (sqrt nb)). reflexivity.
Qed.

(** ** Retrieval *)

(** The binary64 functions read the same rows as the functions over
    the rationals. *)
Lemma getEpisodesByProject_fields (projectHash : jsstring) (db : Database) :
  map Binary64.fields (Binary64.getEpisodesByProject projectHash db)
  = getEpisodesByProject projectHash db.
Proof.
  unfold Binary64.getEpisodesByProject, getEpisodesByProject.
  rewrite map_map. reflexivity.
Qed.

Section Retrieval64.
Context {P : Platform} {S : Binary64.Service}.

Lemma retrieveSimilarEpisodes_filtered (context : RetrievalContext.t)
  (maxResults : nat) (db : Database) :
  Binary64.retrieveSimilarEpisodes context maxResults db
  = firstn maxResults
      (stableSort Binary64.confidenceBefore
         (filter Binary64.reaches (Binary64.scoredCandidates context db))).
Proof.
  unfold Binary64.retrieveSimilarEpisodes, Binary64.scoredCandidates.
  destruct (Binary64.getEpisodesByProject _ db); [|reflexivity].
  destruct maxResults; reflexivity.
Qed.

Lemma reaches_number (r : Binary64.RetrievalResult.t) :
  Binary64.reaches r = true ->
  is_nan (Binary64.RetrievalResult.confidence r) = false.
Proof. intros H. apply (leb_numbers _ _ H). Qed.

(** The results at the threshold, sorted: in descending order of
    confidence. *)
Lemma reaching_sorted (l : list Binary64.RetrievalResult.t) :
  StronglySorted
    (fun a b =>
       (Binary64.RetrievalResult.confidence b
        <=? Binary64.RetrievalResult.confidence a)%float = true)
    (stableSort Binary64.confidenceBefore (filter Binary64.reaches l)).
Proof.
  apply (stableSort_numbers Binary64.RetrievalResult.confidence).
  intros r Hr. apply filter_In in Hr. apply reaches_number, Hr.
Qed.

Lemma scoredCandidates_project64 (context : RetrievalContext.t)
  (db : Database) (r : Binary64.RetrievalResult.t) :
  In r (Binary64.scoredCandidates context db) ->
  Episode.project_hash (Binary64.fields (Binary64.RetrievalResult.episode r))
  = hashProjectPath (RetrievalContext.cwd context)
  /\ exists row,
       In row (episodes db)
       /\ Binary64.RetrievalResult.episode r = Binary64.rowToEpisode row.
Proof.
  unfold Binary64.scoredCandidates. intros H. apply in_map_iff in H.
  destruct H as (e & <- & He). apply in_map_iff in He.
  destruct He as (row & <- & Hrow).
  apply stableSort_In, filter_In in Hrow. destruct Hrow as [Hin Hh].
  apply streqb_eq in Hh. split; [exact Hh|]. exists row. tauto.
Qed.

(** C1.  [retrieveAndSuggest] shows a suggestion only when a candidate
    episode of the context's project reaches confidence 0.75: when no
    candidate reaches it, and whenever the context does not trigger
    retrieval, the result is [shouldShow = false] with no message and
    no command.  A result that is shown is built from a candidate that
    reaches the threshold and that no candidate exceeds in confidence;
    one is shown whenever retrieval is triggered and some candidate
    reaches the threshold. *)
Theorem retrieveAndSuggest_threshold (context : RetrievalContext.t)
  (db : Database) :
  let candidates := Binary64.scoredCandidates context db in
  let out := Binary64.retrieveAndSuggest context db in
  ((forall r, In r candidates ->
      (0.75 <=? Binary64.RetrievalResult.confidence r)%float = false) ->
   out = mkSuggestion false None None)
  /\ (shouldRetrieve context = false -> out = mkSuggestion false None None)
  /\ (shouldShow out = true ->
      shouldRetrieve context = true
      /\ exists top,
           In top candidates
           /\ (0.75 <=? Binary64.RetrievalResult.confidence top)%float = true
           /\ (forall r, In r candidates ->
                 (Binary64.RetrievalResult.confidence top
                  <? Binary64.RetrievalResult.confidence r)%float = false)
           /\ message out = Some (Binary64.formatRetrievalResult top)
           /\ suggestedCommand out = Binary64.suggestNextStep top)
  /\ (shouldShow out = false -> out = mkSuggestion false None None)
  /\ (shouldRetrieve context = true ->
      (exists r, In r candidates
                 /\ (0.75 <=? Binary64.RetrievalResult.confidence r)%float
                    = true) ->
      shouldShow out = true).
Proof.
  intros candidates out. subst out. unfold Binary64.retrieveAndSuggest.
  destruct (shouldRetrieve context) eqn:T; simpl negb; cbv iota.
  2: { repeat split; try reflexivity; discriminate. }
  rewrite retrieveSimilarEpisodes_filtered. fold candidates.
  pose proof (reaching_sorted candidates) as Hsorted.
  destruct (stableSort Binary64.confidenceBefore
              (filter Binary64.reaches candidates)) as [|top rest] eqn:E.
  - apply stableSort_nil in E. simpl.
    split; [reflexivity|]. split; [discriminate|].
    split; [discriminate|]. split; [reflexivity|].
    intros _ (r & Hr & Hc).
    assert (Hin : In r (filter Binary64.reaches candidates))
      by (apply filter_In; split; assumption).
    rewrite E in Hin. destruct Hin.
  - assert (Htop : In top (filter Binary64.reaches candidates)).
    { apply (Permutation_in _ (stableSort_perm Binary64.confidenceBefore _)).
      rewrite E. left. reflexivity. }
    apply filter_In in Htop. destruct Htop as [Hin Hreach].
    pose proof (reaches_number top Hreach) as Ntop.
    simpl. split; [|split; [discriminate|split; [|split; [discriminate|]]]].
    + intros Hall. specialize (Hall top Hin).
      unfold Binary64.reaches, Binary64.CONFIDENCE_THRESHOLD in Hreach.
      congruence.
    + intros _. split; [reflexivity|]. exists top.
      split; [exact Hin|]. split; [exact Hreach|].
      split; [|split; reflexivity].
      intros r Hr.
      destruct (is_nan (Binary64.RetrievalResult.confidence r)) eqn:Nr.
      { destruct (Binary64.RetrievalResult.confidence top
                  <? Binary64.RetrievalResult.confidence r)%float eqn:L;
          [|reflexivity].
        apply ltb_numbers in L. destruct L as [_ L]. congruence. }
      rewrite (ltb_rank _ _ Ntop Nr). apply Z.ltb_ge.
      unfold Binary64.reaches, Binary64.CONFIDENCE_THRESHOLD in Hreach.
      rewrite (leb_rank 0.75 _ eq_refl Ntop) in Hreach. apply Z.leb_le in Hreach.
      destruct (Binary64.reaches r) eqn:R.
      * assert (Hr' : In r (top :: rest)).
        { rewrite <- E.
          apply (Permutation_in _
                   (Permutation_sym (stableSort_perm _ _))).
          apply filter_In. split; assumption. }
        destruct Hr' as [<- | Hr']; [lia|].
        inversion Hsorted as [|? ? _ Hall]; subst.
        rewrite Forall_forall in Hall. specialize (Hall r Hr').
        rewrite (leb_rank _ _ Nr Ntop) in Hall. apply Z.leb_le. exact Hall.
      * unfold Binary64.reaches, Binary64.CONFIDENCE_THRESHOLD in R.
        rewrite (leb_rank 0.75 _ eq_refl Nr) in R. apply Z.leb_gt in R. lia.
    + intros _ _. reflexivity.
Qed.

(** X15.  [retrieveSimilarEpisodes] returns
    [min maxResults (number of candidates at the threshold)] results,
    in descending order of confidence; each is a scored candidate of
    the project of the context's directory, read from a stored row,
    with a confidence of at least 0.75 and at most 1. *)
Theorem retrieveSimilarEpisodes_ranked (context : RetrievalContext.t)
  (maxResults : nat) (db : Database) :
  let results := Binary64.retrieveSimilarEpisodes context maxResults db in
  length results
  = Nat.min maxResults
      (length
         (filter Binary64.reaches (Binary64.scoredCandidates context db)))
  /\ StronglySorted
       (fun a b =>
          (Binary64.RetrievalResult.confidence b
           <=? Binary64.RetrievalResult.confidence a)%float = true)
       results
  /\ forall r, In r results ->
       In r (Binary64.scoredCandidates context db)
       /\ (0.75 <=? Binary64.RetrievalResult.confidence r)%float = true
       /\ (Binary64.RetrievalResult.confidence r <=? 1)%float = true
       /\ Episode.project_hash
            (Binary64.fields (Binary64.RetrievalResult.episode r))
          = hashProjectPath (RetrievalContext.cwd context)
       /\ exists row,
            In row (episodes db)
            /\ Binary64.RetrievalResult.episode r
               = Binary64.rowToEpisode row.
Proof.
  intros results. subst results. rewrite retrieveSimilarEpisodes_filtered.
  split; [|split].
  - rewrite length_firstn, stableSort_length. reflexivity.
  - apply StronglySorted_firstn, reaching_sorted.
  - intros r Hr. apply firstn_In, stableSort_In, filter_In in Hr.
    destruct Hr as [Hin Hreach]. split; [exact Hin|].
    split; [exact Hreach|].
    split; [|exact (scoredCandidates_project64 context db r Hin)].
    pose proof (reaches_number r Hreach) as Nr.
    unfold Binary64.scoredCandidates in Hin. apply in_map_iff in Hin.
    destruct Hin as (e & <- & _). unfold Binary64.scoreEpisode in *.
    simpl in *. apply Math_min_le_r. exact Nr.
Qed.

End Retrieval64.

Lemma retrieveAndSuggest_threshold_witness :
  exists top,
    In top
      (Binary64.scoredCandidates (P := samplePlatform) (S := sampleService)
         failingContext repeatDatabase)
    /\ (0.75 <=? Binary64.RetrievalResult.confidence top)%float = true
    /\ message
         (Binary64.retrieveAndSuggest (P := samplePlatform)
            (S := sampleService) failingContext repeatDatabase)
       = Some (Binary64.formatRetrievalResult (Service := sampleService) top)
    /\ suggestedCommand
         (Binary64.retrieveAndSuggest (P := samplePlatform)
            (S := sampleService) failingContext repeatDatabase)
       = Some (str "abc").
Proof.
  destruct (retrieveAndSuggest_threshold (P := samplePlatform)
              (S := sampleService) failingContext repeatDatabase)
    as (_ & _ & H & _ & _).
  destruct (H eq_refl) as (_ & top & H1 & H2 & _ & H4 & _).
  exists top. split; [exact H1|]. split; [exact H2|].
  split; [exact H4 | reflexivity].
Defined.

(** C1 as specified does not hold for every retrieval context: the
    context of a command that succeeded (exit code 0, no error marker
    in stderr) has a candidate of confidence 1, and nothing is
    shown. *)
Lemma retrieveAndSuggest_claim_fails :
  shouldRetrieve quietContext = false
  /\ map Binary64.RetrievalResult.confidence
       (Binary64.scoredCandidates (P := samplePlatform) (S := sampleService)
          quietContext repeatDatabase) = [1%float]
  /\ (0.75 <=? 1)%float = true
  /\ Binary64.retrieveAndSuggest (P := samplePlatform) (S := sampleService)
       quietContext repeatDatabase = mkSuggestion false None None.
Proof. vm_compute. repeat split. Qed.

(** A candidate whose confidence would be 0.75 in exact arithmetic
    (similarity 7/10, command similarity 1/2, same project) gets
    0.7499999999999999 and is not shown. *)
Example exact_threshold_is_missed :
  shouldRetrieve borderContext = true
  /\ map Binary64.RetrievalResult.similarity
       (Binary64.scoredCandidates (P := samplePlatform) (S := sampleService)
          borderContext borderDatabase) = [0.7%float]
  /\ map Binary64.RetrievalResult.confidence
       (Binary64.scoredCandidates (P := samplePlatform) (S := sampleService)
          borderContext borderDatabase) = [0.7499999999999999%float]
  /\ Binary64.retrieveAndSuggest (P := samplePlatform) (S := sampleService)
       borderContext borderDatabase = noSuggestion.
Proof. vm_compute. repeat split. Qed.

Lemma retrieveSimilarEpisodes_ranked_witness :
  exists r,
    In r
      (Binary64.scoredCandidates (P := samplePlatform) (S := sampleService)
         failingContext repeatDatabase)
    /\ (0.75 <=? Binary64.RetrievalResult.confidence r)%float = true
    /\ (Binary64.RetrievalResult.confidence r <=? 1)%float = true.
Proof.
  pose proof (retrieveSimilarEpisodes_ranked (P := samplePlatform)
                (S := sampleService) failingContext 3 repeatDatabase) as H.
  cbv zeta in H. destruct H as (_ & _ & H).
  set (results :=
         Binary64.retrieveSimilarEpisodes (P := samplePlatform)
           (S := sampleService) failingContext 3 repeatDatabase) in *.
  set (none :=
         Binary64.RetrievalResult.mk
           (Binary64.mkStoredEpisode (sampleEpisode None) None) 0 0).
  exists (hd none results).
  destruct (H (hd none results)) as (H1 & H2 & H3 & _);
    [vm_compute; left; reflexivity|].
  split; [exact H1|]. split; assumption.
Defined.

(** ** The free-text search *)

Section Search64.
Context {S : Binary64.Service}.

Lemma getAllEpisodesWithEmbeddings_rows (db : Database)
  (e : Binary64.StoredEpisode) :
  In e (Binary64.getAllEpisodesWithEmbeddings db) ->
  exists row v,
    In row (episodes db) /\ e = Binary64.rowToEpisode row
    /\ Binary64.embedding e = Some v.
Proof.
  unfold Binary64.getAllEpisodesWithEmbeddings. intros He.
  apply in_map_iff in He. destruct He as (row & <- & Hrow).
  apply stableSort_In, filter_In in Hrow. destruct Hrow as [Hin Hemb].
  unfold hasEmbedding in Hemb.
  destruct (EpisodeRow.embedding row) as [bytes|] eqn:Eb; [|discriminate].
  exists row, (map Binary64.ofByte bytes).
  split; [exact Hin|]. split; [reflexivity|].
  unfold Binary64.rowToEpisode. simpl. rewrite Eb. reflexivity.
Qed.

(** X19.  [searchMemory] answers from the text search whenever that
    finds something, and only otherwise from the embeddings: without
    an embedding for the query the answer is then empty; with one,
    every stored episode that carries an embedding is scored with its
    cosine similarity to the query, the scored episodes are put in an
    order (descending similarity, when every similarity is a number)
    and the first [maxResults] of them are returned.  Every episode
    returned is a stored one, and for [maxResults] not negative there
    are at most [maxResults]. *)
Theorem searchMemory_ranked (query : jsstring) (maxResults : Z)
  (db : Database) :
  (searchEpisodesByText query maxResults db <> [] ->
   Binary64.searchMemory query maxResults db
   = searchEpisodesByText query maxResults db)
  /\ (searchEpisodesByText query maxResults db = [] ->
      match Binary64.generateEmbedding query with
      | None => Binary64.searchMemory query maxResults db = []
      | Some q =>
        exists ranked,
          Permutation ranked
            (map (Binary64.scoreAgainst q)
               (Binary64.getAllEpisodesWithEmbeddings db))
          /\ length ranked = length (filter hasEmbedding (episodes db))
          /\ Binary64.searchMemory query maxResults db
             = map (fun s => Binary64.fields (fst s))
                 (slice0 maxResults ranked)
          /\ ((forall s, In s ranked -> is_nan (snd s) = false) ->
              StronglySorted (fun a b => (snd b <=? snd a)%float = true)
                ranked)
          /\ forall s, In s ranked ->
               exists row v,
                 In row (episodes db)
                 /\ fst s = Binary64.rowToEpisode row
                 /\ Binary64.embedding (fst s) = Some v
                 /\ snd s = Binary64.cosineSimilarity q v
      end)
  /\ (forall e, In e (Binary64.searchMemory query maxResults db) ->
        exists row, In row (episodes db) /\ e = rowToEpisode row)
  /\ ((0 <= maxResults)%Z ->
      length (Binary64.searchMemory query maxResults db)
      <= Z.to_nat maxResults).
Proof.
  assert (Htext : forall e, In e (searchEpisodesByText query maxResults db) ->
             exists row, In row (episodes db) /\ e = rowToEpisode row).
  { intros e He. unfold searchEpisodesByText in He.
    apply in_map_iff in He. destruct He as (row & <- & Hrow).
    apply sqlLimit_In, stableSort_In, filter_In in Hrow. exists row. tauto. }
  unfold Binary64.searchMemory.
  destruct (searchEpisodesByText query maxResults db) as [|e0 es] eqn:E.
  - split; [congruence|]. split; [|split].
    + intros _. destruct (Binary64.generateEmbedding query) as [q|];
        [|reflexivity].
      set (scored := map (Binary64.scoreAgainst q)
                       (Binary64.getAllEpisodesWithEmbeddings db)).
      exists (stableSort Binary64.similarityBefore scored).
      split; [apply stableSort_perm|]. split; [|split; [reflexivity|split]].
      * rewrite stableSort_length. unfold scored.
        rewrite length_map. unfold Binary64.getAllEpisodesWithEmbeddings.
        rewrite length_map. apply stableSort_length.
      * intros N.
        apply (stableSort_numbers (A := Binary64.StoredEpisode * float) snd).
        intros s Hs. apply N.
        apply (Permutation_in _ (Permutation_sym (stableSort_perm _ _))).
        exact Hs.
      * intros s Hs. apply stableSort_In, in_map_iff in Hs.
        destruct Hs as (e & <- & He).
        destruct (getAllEpisodesWithEmbeddings_rows db e He)
          as (row & v & Hin & Heq & Hv).
        exists row, v. unfold Binary64.scoreAgainst. simpl.
        rewrite Hv. repeat split; assumption.
    + intros e He. destruct (Binary64.generateEmbedding query) as [q|];
        [|destruct He].
      apply in_map_iff in He. destruct He as (s & <- & Hs).
      apply slice0_In, stableSort_In, in_map_iff in Hs.
      destruct Hs as (e & <- & He).
      destruct (getAllEpisodesWithEmbeddings_rows db e He)
        as (row & v & Hin & -> & _).
      exists row. split; [exact Hin | reflexivity].
    + intros H. destruct (Binary64.generateEmbedding query) as [q|];
        [|simpl; lia].
      rewrite length_map. apply slice0_length. exact H.
  - split; [reflexivity|]. split; [discriminate|]. split.
    + exact Htext.
    + intros H. rewrite <- E. unfold searchEpisodesByText.
      rewrite length_map. apply sqlLimit_length. exact H.
Qed.

End Search64.

Lemma searchMemory_ranked_witness :
  exists ranked,
    Permutation ranked
      (map (Binary64.scoreAgainst [1; 0]%float)
         (Binary64.getAllEpisodesWithEmbeddings embeddedDatabase))
    /\ length ranked = 1
    /\ Binary64.searchMemory (S := embeddingService) (str "zzz") 5
         embeddedDatabase
       = map (fun s => Binary64.fields (fst s)) (slice0 5 ranked).
Proof.
  destruct (searchMemory_ranked (S := embeddingService) (str "zzz") 5
              embeddedDatabase) as (_ & H & _).
  specialize (H eq_refl).
  cbn [Binary64.generateEmbedding embeddingService] in H.
  destruct H as (ranked & H1 & H2 & H3 & _).
  exists ranked. split; [exact H1|]. split; [exact H2 | exact H3].
Defined.
